(** * snjs: payload pipeline, protocol manager façade and sync engine

    A shallow embedding of the client-side core of snjs
    (lib/protocol/payloads/pure_payload.ts, lib/protocol/protocolManager.js,
    lib/services/sync/account/operation.js, lib/services/sync/sync_manager.js)
    together with the properties stated about it.

    Conventions.
    - A JavaScript property that may be [undefined] is an [option]; [None]
      stands for an absent ([undefined]/[null]) value.
    - A [throw] is the [Throw] constructor of [Result]; asynchronous
      functions are modelled by their result once awaited, and the points
      where they suspend are the steps of explicit state machines.
    - Collaborators that the core only consumes (operators, key manager,
      SHA-256, the clock) are the fields of type classes, so every
      statement holds for whatever implements them; the server's answers are
      the inputs of the operation's steps.
    - What depends on where the code runs (what an array inherits under a
      key, whether [const] is block scoped) is a parameter as well. *)

From Stdlib Require Import ZArith List String Ascii Bool Lia Permutation Sorted.
From stdpp Require Import base option list gmap strings pretty.

Open Scope string_scope.
Open Scope list_scope.

(* ===================================================================== *)
(** * Part I. The model                                                   *)
(* ===================================================================== *)

(** ** Exceptions and results *)

Inductive Exn : Type :=
| UuidIsNull                 (* 'uuid is null, yet this payloads fields indicate it shouldnt be.' *)
| MissingKey                 (* 'Attempting to generate encrypted payload with no key.' *)
| UnhandledFormatCase        (* 'Unhandled case in protocolManager.payloadContentFormat.' *)
| UnableToGenerateParameters (* 'Unable to generate encryption parameters' *)
| UnableToFindOperator (version : string) (* `Unable to find operator for version ${version}` *)
| NonPayloadObject           (* 'Attempting to decrypt non-payload object in payloadsByDecryptingPayloads.' *)
| TypeError (message : string) (* raised by the runtime, e.g. calling a method of a non-string *)
| CollaboratorError (message : string). (* anything thrown by an operator or the key manager *)

Inductive Result (A : Type) : Type :=
| Ok (value : A)
| Throw (e : Exn).

Arguments Ok {A} value.
Arguments Throw {A} e.

(** [Result] is the error monad; [x ← r; k] runs [k] unless [r] threw. *)
#[global] Instance Result_ret : MRet Result := fun A a => Ok a.
#[global] Instance Result_bind : MBind Result := fun A B k r =>
  match r with
  | Ok a => k a
  | Throw e => Throw e
  end.

(** ** JavaScript values that payload fields hold *)

(** A [Date] object: a time value in milliseconds, or the invalid date that
    [new Date(undefined)] produces. *)
Inductive JsDate : Type :=
| DateAt (ms : Z)
| InvalidDate.

(** [new Date(value)] for a [Date] or [undefined] argument. *)
Definition newDate (value : option JsDate) : JsDate :=
  match value with
  | Some d => d
  | None => InvalidDate
  end.

Module Content.
(** The decoded object form of [content] ([PayloadContent]). *)
Record t : Type := mk {
  version : option string;
  references : option (list (string * string)); (* [{uuid, content_type}] *)
  body : list (string * string)                 (* the remaining keys *)
}.
End Content.

(** [content?: PayloadContent | string]. *)
Inductive ContentValue : Type :=
| StringContent (s : string)
| ObjectContent (o : Content.t).

(** Modelled from the spec: [FillItemContent] (imported from
    @Models/functions, which lies outside the files modelled here). The data
    model requires object content to carry a well-formed [references] list,
    so an absent list is filled with the empty one; nothing else changes. *)
Definition FillItemContent (content : Content.t) : Content.t :=
  Content.mk (Content.version content)
             (Some (default [] (Content.references content)))
             (Content.body content).

(** Modelled from the spec: the protocol version tags of @Protocol/versions
    (outside the files modelled here): a version tag has 3 characters and
    ["000"] is the reserved prefix of base64-decrypted content. *)
Definition VersionLength : nat := 3.
Definition V000Base64Decrypted : string := "000".

(** The [PayloadField] enumeration (./fields): one name per property that
    [PurePayload] declares. *)
Inductive PayloadField : Type :=
| Uuid | ContentType | ItemsKeyId | EncItemKey | Content_ | CreatedAt
| UpdatedAt | Deleted | Legacy003AuthHash | Legacy003AuthParams | Dirty
| DirtiedDate | WaitingForKey | ErrorDecrypting | ErrorDecryptingChanged
| LastSyncBegan | LastSyncEnd.

#[global] Instance PayloadField_eq_dec : EqDecision PayloadField.
Proof. solve_decision. Defined.

Definition PayloadField_index (f : PayloadField) : nat :=
  match f with
  | Uuid => 0 | ContentType => 1 | ItemsKeyId => 2 | EncItemKey => 3
  | Content_ => 4 | CreatedAt => 5 | UpdatedAt => 6 | Deleted => 7
  | Legacy003AuthHash => 8 | Legacy003AuthParams => 9 | Dirty => 10
  | DirtiedDate => 11 | WaitingForKey => 12 | ErrorDecrypting => 13
  | ErrorDecryptingChanged => 14 | LastSyncBegan => 15 | LastSyncEnd => 16
  end.

Definition allPayloadFields : list PayloadField :=
  [Uuid; ContentType; ItemsKeyId; EncItemKey; Content_; CreatedAt; UpdatedAt;
   Deleted; Legacy003AuthHash; Legacy003AuthParams; Dirty; DirtiedDate;
   WaitingForKey; ErrorDecrypting; ErrorDecryptingChanged; LastSyncBegan;
   LastSyncEnd].

Definition PayloadField_of_index (n : nat) : option PayloadField :=
  allPayloadFields !! n.

#[global] Program Instance PayloadField_countable : Countable PayloadField :=
  inj_countable PayloadField_index PayloadField_of_index _.
Next Obligation. intros f; destruct f; reflexivity. Qed.

(** The provenance of a payload ([PayloadSource]). *)
Inductive PayloadSource : Type :=
| Constructor | LocalRetrieved | LocalSaved | RemoteRetrieved | RemoteSaved
| RemoteConflict | LocalDirtied | ComponentRetrieved | FileImport.

(** [PayloadFormat]. *)
Inductive PayloadFormat : Type :=
| EncryptedString | DecryptedBareObject | DecryptedBase64String | DeletedFormat.

#[global] Instance PayloadFormat_eq_dec : EqDecision PayloadFormat.
Proof. solve_decision. Defined.

(** What [this[field]] can evaluate to. *)
Inductive JsValue : Type :=
| VUndefined
| VBool (b : bool)
| VString (s : string)
| VDate (d : JsDate)
| VContent (c : ContentValue).

Definition isNullOrUndefined (value : JsValue) : bool :=
  match value with
  | VUndefined => true
  | _ => false
  end.

Definition ofOption {A : Type} (inj : A -> JsValue) (o : option A) : JsValue :=
  match o with
  | Some a => inj a
  | None => VUndefined
  end.

(** JavaScript truthiness of an optional string (the empty string is falsy). *)
Definition truthyString (o : option string) : bool :=
  match o with
  | Some EmptyString => false
  | Some _ => true
  | None => false
  end.

(** Truthiness of [content]: a string is truthy unless empty, an object
    always. *)
Definition truthyContent (o : option ContentValue) : bool :=
  match o with
  | Some (StringContent s) => truthyString (Some s)
  | Some (ObjectContent _) => true
  | None => false
  end.

(** [array.includes(x)]. *)
Definition includes `{EqDecision A} (x : A) (l : list A) : bool :=
  bool_decide (x ∈ l).

(** ** Raw payloads *)

Module Raw.
(** [RawPayload]: every property optional, typed as [PurePayload] declares
    them, and the keys the object holds, in the order in which they were put
    there; the keys are payload fields, as the type has it. A key the object
    holds may hold [undefined] ([None]); a property behind a key it does not
    hold reads as [undefined]. *)
Record t : Type := Build {
  uuid : option string;
  content_type : option string;
  content : option ContentValue;
  deleted : option bool;
  items_key_id : option string;
  enc_item_key : option string;
  created_at : option JsDate;
  updated_at : option JsDate;
  dirtiedDate : option JsDate;
  dirty : option bool;
  errorDecrypting : option bool;
  waitingForKey : option bool;
  errorDecryptingValueChanged : option bool;
  lastSyncBegan : option JsDate;
  lastSyncEnd : option JsDate;
  auth_hash : option string;
  auth_params : option string;
  keys : list PayloadField   (* [Object.keys(rawPayload)] *)
}.

(** Whether the property behind [f] has a value. *)
Definition has (r : t) (f : PayloadField) : bool :=
  match f with
  | Uuid => bool_decide (is_Some (uuid r))
  | ContentType => bool_decide (is_Some (content_type r))
  | ItemsKeyId => bool_decide (is_Some (items_key_id r))
  | EncItemKey => bool_decide (is_Some (enc_item_key r))
  | Content_ => bool_decide (is_Some (content r))
  | CreatedAt => bool_decide (is_Some (created_at r))
  | UpdatedAt => bool_decide (is_Some (updated_at r))
  | Deleted => bool_decide (is_Some (deleted r))
  | Legacy003AuthHash => bool_decide (is_Some (auth_hash r))
  | Legacy003AuthParams => bool_decide (is_Some (auth_params r))
  | Dirty => bool_decide (is_Some (dirty r))
  | DirtiedDate => bool_decide (is_Some (dirtiedDate r))
  | WaitingForKey => bool_decide (is_Some (waitingForKey r))
  | ErrorDecrypting => bool_decide (is_Some (errorDecrypting r))
  | ErrorDecryptingChanged => bool_decide (is_Some (errorDecryptingValueChanged r))
  | LastSyncBegan => bool_decide (is_Some (lastSyncBegan r))
  | LastSyncEnd => bool_decide (is_Some (lastSyncEnd r))
  end.

(** An object literal that holds the properties given a value and no
    others, written in the order of the enumeration. *)
Definition mk (uuid content_type : option string)
    (content : option ContentValue) (deleted : option bool)
    (items_key_id enc_item_key : option string)
    (created_at updated_at dirtiedDate : option JsDate)
    (dirty errorDecrypting waitingForKey errorDecryptingValueChanged :
       option bool)
    (lastSyncBegan lastSyncEnd : option JsDate)
    (auth_hash auth_params : option string) : t :=
  Build uuid content_type content deleted items_key_id enc_item_key
        created_at updated_at dirtiedDate dirty errorDecrypting waitingForKey
        errorDecryptingValueChanged lastSyncBegan lastSyncEnd auth_hash
        auth_params
        (List.filter
           (has (Build uuid content_type content deleted items_key_id
                       enc_item_key created_at updated_at dirtiedDate dirty
                       errorDecrypting waitingForKey
                       errorDecryptingValueChanged lastSyncBegan lastSyncEnd
                       auth_hash auth_params []))
           allPayloadFields).
End Raw.

(** ** PurePayload *)

Module PurePayload.
Record t : Type := mk {
  fields : list PayloadField;
  source : PayloadSource;
  uuid : option string;
  content_type : option string;
  content : option ContentValue;
  deleted : option bool;
  items_key_id : option string;
  enc_item_key : option string;
  created_at : option JsDate;
  updated_at : option JsDate;
  dirtiedDate : option JsDate;
  dirty : option bool;
  errorDecrypting : option bool;
  waitingForKey : option bool;
  errorDecryptingValueChanged : option bool;
  lastSyncBegan : option JsDate;
  lastSyncEnd : option JsDate;
  auth_hash : option string;
  auth_params : option string;
  format : PayloadFormat;
  version : option string;
  frozen : bool   (* whether the object, and all it holds, is frozen *)
}.

(** Modelled from the spec: [deepFreeze] (of @Lib/utils, which lies outside
    the files modelled here): the payload "is deep-frozen": the object and
    every object it holds (its content, its [fields] array) are frozen. *)
Definition deepFreeze (p : t) : t :=
  match p with
  | mk fields source uuid content_type content deleted items_key_id
       enc_item_key created_at updated_at dirtiedDate dirty errorDecrypting
       waitingForKey errorDecryptingValueChanged lastSyncBegan lastSyncEnd
       auth_hash auth_params format version _ =>
      mk fields source uuid content_type content deleted items_key_id
         enc_item_key created_at updated_at dirtiedDate dirty errorDecrypting
         waitingForKey errorDecryptingValueChanged lastSyncBegan lastSyncEnd
         auth_hash auth_params format version true
  end.

(** A write to a property of a payload or of an object it holds
    ([payload.content = ...], [payload.content.references.push(...)],
    [delete payload.uuid]) in strict code, which a module is: on a frozen object the write throws a
    [TypeError] and the object stays as it is; otherwise it takes effect,
    [update] being what it makes of the payload. *)
Definition write (update : t -> t) (p : t) : Result t :=
  if frozen p
  then Throw (TypeError "Cannot assign to read only property of object")
  else Ok (update p).

(** [new PurePayload(rawPayload, fields, source)], evaluated at clock
    reading [now] (what [new Date()] returns). *)
Definition construct (now : Z) (rawPayload : Raw.t)
    (fields : option (list PayloadField)) (source : option PayloadSource)
    : Result t :=
  let this_fields :=
    match fields with
    | Some fs => fs
    | None => Raw.keys rawPayload
    end in
  let this_source :=
    match source with
    | Some s => s
    | None => Constructor
    end in
  let this_uuid := Raw.uuid rawPayload in
  if negb (truthyString this_uuid) && includes Uuid this_fields
  then Throw UuidIsNull
  else
    let this_content :=
      if truthyContent (Raw.content rawPayload) then
        match Raw.content rawPayload with
        | Some (ObjectContent c) => Some (ObjectContent (FillItemContent c))
        | other => other
        end
      else None in
    let this_created_at :=
      newDate (Some (default (DateAt now) (Raw.created_at rawPayload))) in
    let this_updated_at :=
      newDate (Some (default (DateAt 0) (Raw.updated_at rawPayload))) in
    let this_dirtiedDate := newDate (Raw.dirtiedDate rawPayload) in
    let this_lastSyncBegan :=
      match Raw.lastSyncBegan rawPayload with
      | Some d => Some (newDate (Some d))
      | None => None
      end in
    let this_lastSyncEnd :=
      match Raw.lastSyncEnd rawPayload with
      | Some d => Some (newDate (Some d))
      | None => None
      end in
    let this_format :=
      match this_content with
      | Some (StringContent s) =>
          if String.prefix V000Base64Decrypted s
          then DecryptedBase64String
          else EncryptedString
      | Some (ObjectContent _) => DecryptedBareObject
      | None => DeletedFormat
      end in
    let this_version :=
      match this_content with
      | Some (StringContent s) => Some (String.substring 0 VersionLength s)
      | Some (ObjectContent c) => Content.version c
      | None => None
      end in
    Ok (deepFreeze
         (mk this_fields this_source this_uuid
           (Raw.content_type rawPayload)
           this_content
           (Raw.deleted rawPayload)
           (Raw.items_key_id rawPayload)
           (Raw.enc_item_key rawPayload)
           (Some this_created_at)
           (Some this_updated_at)
           (Some this_dirtiedDate)
           (Raw.dirty rawPayload)
           (Raw.errorDecrypting rawPayload)
           (Raw.waitingForKey rawPayload)
           (Raw.errorDecryptingValueChanged rawPayload)
           this_lastSyncBegan
           this_lastSyncEnd
           (Raw.auth_hash rawPayload)
           (Raw.auth_params rawPayload)
           this_format
           this_version
           false)).

(** [this[field]]. *)
Definition get (p : t) (field : PayloadField) : JsValue :=
  match field with
  | Uuid => ofOption VString (uuid p)
  | ContentType => ofOption VString (content_type p)
  | ItemsKeyId => ofOption VString (items_key_id p)
  | EncItemKey => ofOption VString (enc_item_key p)
  | Content_ => ofOption VContent (content p)
  | CreatedAt => ofOption VDate (created_at p)
  | UpdatedAt => ofOption VDate (updated_at p)
  | Deleted => ofOption VBool (deleted p)
  | Legacy003AuthHash => ofOption VString (auth_hash p)
  | Legacy003AuthParams => ofOption VString (auth_params p)
  | Dirty => ofOption VBool (dirty p)
  | DirtiedDate => ofOption VDate (dirtiedDate p)
  | WaitingForKey => ofOption VBool (waitingForKey p)
  | ErrorDecrypting => ofOption VBool (errorDecrypting p)
  | ErrorDecryptingChanged => ofOption VBool (errorDecryptingValueChanged p)
  | LastSyncBegan => ofOption VDate (lastSyncBegan p)
  | LastSyncEnd => ofOption VDate (lastSyncEnd p)
  end.

Definition optionalFields : list PayloadField :=
  [Legacy003AuthHash; Deleted].

Definition nonRequiredFields : list PayloadField :=
  [DirtiedDate; ErrorDecrypting; ErrorDecryptingChanged; WaitingForKey;
   LastSyncBegan; LastSyncEnd].

(** One turn of the loop of [ejected]: [result] is the object built so far. *)
Definition ejectField (p : t) (result : gmap PayloadField JsValue)
    (field : PayloadField) : gmap PayloadField JsValue :=
  if includes field nonRequiredFields then result
  else
    let value := get p field in
    if isNullOrUndefined value && includes field optionalFields then result
    else <[field := value]> result.

(** [ejected()]: the wire projection, a plain object keyed by field name. *)
Definition ejected (p : t) : gmap PayloadField JsValue :=
  foldl (ejectField p) ∅ (fields p).

End PurePayload.

(** ** Protocol manager *)

(** The encryption intents of @Protocol/intents that the manager tests. *)
Inductive Intent : Type :=
| Sync | LocalStorageEncrypted | LocalStorageDecrypted
| LocalStoragePreferEncrypted | FileEncrypted | FileDecrypted.

(** Modelled from the spec: what [intentRequiresEncryption] is said to
    compute (@Protocol/intents lies outside the files modelled here): it "is
    true for Sync, LocalStorageEncrypted, FileEncrypted,
    LocalStoragePreferEncrypted; false otherwise". *)
Definition specifiedIntentRequiresEncryption (intent : Intent) : bool :=
  match intent with
  | Sync | LocalStorageEncrypted | FileEncrypted
  | LocalStoragePreferEncrypted => true
  | LocalStorageDecrypted | FileDecrypted => false
  end.

Module Key.
(** A root key or items key, as far as the manager looks into it. *)
Record t : Type := mk {
  version : string;
  material : string
}.
End Key.

(** The four versioned operators the manager memoizes. *)
Inductive ProtocolOperator : Type :=
| Operator001 | Operator002 | Operator003 | Operator004.

(** What [this.operators[version]] can be: [this.operators] is an array, so
    besides the operators stored there it has whatever arrays inherit under
    the key ([Array.prototype.map] under ["map"]), which is no operator. *)
Inductive Found : Type :=
| Made (operator : ProtocolOperator)
| Inherited (key : string).

(** What the protocol manager consumes and does not define: the two
    predicates on intents it imports from @Protocol/intents, the key
    manager's two lookups, the operators' two transformations, the
    [CreateEncryptionParameters] generator and the clock. A collaborator may
    throw. Parameters and overrides are partial records, as raw payloads
    are. [inheritedByArray] is the engine's part: whether an array that
    holds nothing under a key reads a truthy value there (its own [length]
    is 0, which is falsy; what [Array.prototype] and [Object.prototype]
    provide depends on the engine). *)
Class Collaborators : Type := {
  inheritedByArray : string -> bool;
  isDecryptedIntent : Intent -> bool;
  intentRequiresEncryption : Intent -> bool;
  keyToUseForEncryptionOfPayload :
    PurePayload.t -> Intent -> Result (option Key.t);
  keyToUseForDecryptionOfPayload : PurePayload.t -> Result (option Key.t);
  generateEncryptionParameters :
    ProtocolOperator -> PurePayload.t -> option Key.t ->
    option PayloadFormat -> Result (option Raw.t);
  CreateEncryptionParameters : PurePayload.t -> Raw.t;
  generateDecryptedParameters :
    ProtocolOperator -> Raw.t -> Key.t -> Result Raw.t;
  clock : Z
}.

(** Reading a payload's properties back into a plain object. *)
Definition toRaw (p : PurePayload.t) : Raw.t :=
  Raw.mk (PurePayload.uuid p) (PurePayload.content_type p)
         (PurePayload.content p) (PurePayload.deleted p)
         (PurePayload.items_key_id p) (PurePayload.enc_item_key p)
         (PurePayload.created_at p) (PurePayload.updated_at p)
         (PurePayload.dirtiedDate p) (PurePayload.dirty p)
         (PurePayload.errorDecrypting p) (PurePayload.waitingForKey p)
         (PurePayload.errorDecryptingValueChanged p)
         (PurePayload.lastSyncBegan p) (PurePayload.lastSyncEnd p)
         (PurePayload.auth_hash p) (PurePayload.auth_params p).

(** [a] where [override] is silent, [override]'s value where it has one. *)
Definition over {A : Type} (a override : option A) : option A :=
  match override with
  | Some v => Some v
  | None => a
  end.

Definition mergeRaw (object override : Raw.t) : Raw.t :=
  Raw.mk (over (Raw.uuid object) (Raw.uuid override))
         (over (Raw.content_type object) (Raw.content_type override))
         (over (Raw.content object) (Raw.content override))
         (over (Raw.deleted object) (Raw.deleted override))
         (over (Raw.items_key_id object) (Raw.items_key_id override))
         (over (Raw.enc_item_key object) (Raw.enc_item_key override))
         (over (Raw.created_at object) (Raw.created_at override))
         (over (Raw.updated_at object) (Raw.updated_at override))
         (over (Raw.dirtiedDate object) (Raw.dirtiedDate override))
         (over (Raw.dirty object) (Raw.dirty override))
         (over (Raw.errorDecrypting object) (Raw.errorDecrypting override))
         (over (Raw.waitingForKey object) (Raw.waitingForKey override))
         (over (Raw.errorDecryptingValueChanged object)
               (Raw.errorDecryptingValueChanged override))
         (over (Raw.lastSyncBegan object) (Raw.lastSyncBegan override))
         (over (Raw.lastSyncEnd object) (Raw.lastSyncEnd override))
         (over (Raw.auth_hash object) (Raw.auth_hash override))
         (over (Raw.auth_params object) (Raw.auth_params override)).

(** [uniq(fields.concat(overrideFields))]. *)
Definition unionFields (fs overrideFields : list PayloadField)
    : list PayloadField :=
  fs ++ List.filter (fun f => negb (includes f fs)) overrideFields.

Section ProtocolManager.
Context `{Collaborators}.

(** Modelled from the spec: [CreatePayloadFromAnyObject] (the payload
    generator lies outside the files modelled here). "All updates are
    builder-style derivations: PayloadFromAnyObject(base, override) yields a
    new payload whose fields set is the union": the object's properties with
    the override's laid over them go through the constructor again, with no
    source given. *)
Definition CreatePayloadFromAnyObject (object : PurePayload.t)
    (override : Raw.t) : Result PurePayload.t :=
  PurePayload.construct clock
    (mergeRaw (toRaw object) override)
    (Some (unionFields (PurePayload.fields object) (Raw.keys override)))
    None.

Definition latestVersion : string := "004".

(** [versionForPayload]: [payload.content.substring(0, 3)]; content that is
    no string has no [substring]. *)
Definition versionForPayload (payload : PurePayload.t) : Result string :=
  match PurePayload.content payload with
  | Some (StringContent s) => Ok (String.substring 0 VersionLength s)
  | _ => Throw (TypeError "payload.content.substring is not a function")
  end.

Definition createOperatorForVersion (version : string)
    : Result ProtocolOperator :=
  if decide (version = "001") then Ok Operator001
  else if decide (version = "002") then Ok Operator002
  else if decide (version = "003") then Ok Operator003
  else if decide (version = "004") then Ok Operator004
  else if decide (version = V000Base64Decrypted) then Ok Operator004
  else Throw (UnableToFindOperator version).

(** [operatorForVersion]: [this.operators[version]] when that is truthy,
    else the operator created, which is stored under the key. An operator
    found stored is the one created for the key, so the model creates it
    each time; a key under which the array inherits a truthy value never
    gets that far. *)
Definition operatorForVersion (version : string) : Result Found :=
  if inheritedByArray version then Ok (Inherited version)
  else operator ← createOperatorForVersion version; Ok (Made operator).

(** [operator.generateEncryptionParameters(...)] and
    [operator.generateDecryptedParameters(...)] on what was found: an
    inherited value has no such method. *)
Definition callGenerateEncryptionParameters (operator : Found)
    (payload : PurePayload.t) (key : option Key.t)
    (format : option PayloadFormat) : Result (option Raw.t) :=
  match operator with
  | Made operator => generateEncryptionParameters operator payload key format
  | Inherited _ =>
      Throw (TypeError "operator.generateEncryptionParameters is not a function")
  end.

Definition callGenerateDecryptedParameters (operator : Found)
    (encryptedParameters : Raw.t) (key : Key.t) : Result Raw.t :=
  match operator with
  | Made operator =>
      generateDecryptedParameters operator encryptedParameters key
  | Inherited _ =>
      Throw (TypeError "operator.generateDecryptedParameters is not a function")
  end.

(** [payloadContentFormatForIntent]; the inner [None] is the [undefined] the
    function returns when it falls off its last branch. *)
Definition payloadContentFormatForIntent (key : option Key.t)
    (intent : Intent) : Result (option PayloadFormat) :=
  match key with
  | None =>
      match intent with
      | LocalStorageDecrypted | LocalStoragePreferEncrypted | FileDecrypted =>
          Ok (Some DecryptedBareObject)
      | Sync => Ok (Some DecryptedBase64String)
      | _ => Ok None
      end
  | Some _ =>
      match intent with
      | Sync | LocalStorageEncrypted | FileEncrypted
      | LocalStoragePreferEncrypted => Ok (Some EncryptedString)
      | _ => Throw UnhandledFormatCase
      end
  end.

(** The key [payloadByEncryptingPayload] works with after its first
    statement. *)
Definition keyForEncryption (payload : PurePayload.t) (key : option Key.t)
    (intent : Intent) : Result (option Key.t) :=
  match key with
  | None =>
      if negb (isDecryptedIntent intent)
      then keyToUseForEncryptionOfPayload payload intent
      else Ok None
  | Some k => Ok (Some k)
  end.

(** The statements of [payloadByEncryptingPayload] that follow the choice
    of [version] and [format]: fetch the operator, have it generate the
    parameters, lay them over the payload. *)
Definition encryptAs (payload : PurePayload.t) (key : option Key.t)
    (version : string) (format : option PayloadFormat)
    : Result PurePayload.t :=
  operator ← operatorForVersion version;
  encryptionParameters ←
    callGenerateEncryptionParameters operator payload key format;
  match encryptionParameters with
  | None => Throw UnableToGenerateParameters
  | Some parameters => CreatePayloadFromAnyObject payload parameters
  end.

Definition payloadByEncryptingPayload (payload : PurePayload.t)
    (key : option Key.t) (intent : Intent) : Result PurePayload.t :=
  key ← keyForEncryption payload key intent;
  if negb (bool_decide (is_Some key)) && intentRequiresEncryption intent
  then Throw MissingKey
  else
    let version :=
      match key with
      | Some k => Key.version k
      | None => latestVersion
      end in
    format ← payloadContentFormatForIntent key intent;
    encryptAs payload key version format.

(** The override of the no-key branch: [{waitingForKey: true,
    errorDecrypting: true}]. *)
Definition waitingForKeyOverride : Raw.t :=
  Raw.mk None None None None None None None None None None
         (Some true) (Some true) None None None None None.

Definition payloadByDecryptingPayload (payload : PurePayload.t)
    (key : option Key.t) : Result PurePayload.t :=
  key ← match key with
        | Some k => Ok (Some k)
        | None => keyToUseForDecryptionOfPayload payload
        end;
  match key with
  | None => CreatePayloadFromAnyObject payload waitingForKeyOverride
  | Some k =>
      version ← versionForPayload payload;
      operator ← operatorForVersion version;
      let encryptionParameters := CreateEncryptionParameters payload in
      decryptedParameters ←
        callGenerateDecryptedParameters operator encryptionParameters k;
      CreatePayloadFromAnyObject payload decryptedParameters
  end.

(** An element of the array handed to [payloadsByDecryptingPayloads]: a
    falsy entry ([null], [undefined]), an object that is no payload, or a
    payload. *)
Inductive Entry : Type :=
| Falsy
| NotAPayload
| APayload (p : PurePayload.t).

(** The override of the catch block: [errorDecrypting: true] and
    [errorDecryptingValueChanged: !encryptedPayload.errorDecrypting]. *)
Definition errorDecryptingOverride (encryptedPayload : PurePayload.t) : Raw.t :=
  Raw.mk None None None None None None None None None None
         (Some true) None
         (Some (negb (default false (PurePayload.errorDecrypting encryptedPayload))))
         None None None None.

Definition isStringContent (content : option ContentValue) : bool :=
  match content with
  | Some (StringContent _) => true
  | _ => false
  end.

(** The loop of [payloadsByDecryptingPayloads] over the entries still to
    visit; [decryptedPayloads] is the array pushed to so far. *)
Fixpoint decryptEach (throws : bool) (payloads : list Entry)
    (decryptedPayloads : list Entry) : Result (list Entry) :=
  match payloads with
  | [] => Ok decryptedPayloads
  | encryptedPayload :: rest =>
      match encryptedPayload with
      | Falsy => decryptEach throws rest (decryptedPayloads ++ [Falsy])
      | NotAPayload => Throw NonPayloadObject
      | APayload p =>
          if bool_decide (PurePayload.deleted p = Some true)
             && bool_decide (PurePayload.content p = None)
          then decryptEach throws rest (decryptedPayloads ++ [APayload p])
          else if negb (isStringContent (PurePayload.content p))
          then decryptEach throws rest (decryptedPayloads ++ [APayload p])
          else
            match payloadByDecryptingPayload p None with
            | Ok decryptedPayload =>
                decryptEach throws rest
                  (decryptedPayloads ++ [APayload decryptedPayload])
            | Throw e =>
                marked ← CreatePayloadFromAnyObject p
                           (errorDecryptingOverride p);
                if throws then Throw e
                else decryptEach throws rest
                       (decryptedPayloads ++ [APayload marked])
            end
      end
  end.

Definition payloadsByDecryptingPayloads (payloads : list Entry)
    (throws : bool) : Result (list Entry) :=
  decryptEach throws payloads [].

End ProtocolManager.

(** ** Array helpers *)

(** [array.indexOf(value)] followed by [splice(index, 1)]: the first
    occurrence goes. *)
Fixpoint removeFirst `{EqDecision A} (value : A) (array : list A) : list A :=
  match array with
  | [] => []
  | x :: rest => if decide (x = value) then rest
                 else x :: removeFirst value rest
  end.

(** Modelled from the spec: [subtractFromArray] of @Lib/utils (outside the
    files modelled here), the in-place removal behind "operation pops
    upLimit payloads per round" and behind taking the resolved callers off
    the resolve queue: every element of [toSubtract] is removed from
    [inArray] once. *)
Definition subtractFromArray `{EqDecision A} (inArray toSubtract : list A)
    : list A :=
  foldl (fun array value => removeFirst value array) inArray toSubtract.

(** [Array.prototype.sort(compare)] is a stable sort: [a] comes before [b]
    when [compare a b] is negative, after it when positive, and elements
    that compare equal keep their order. Insertion from the right end is
    such a sort. *)
Fixpoint insertSorted {A : Type} (compare : A -> A -> Z) (x : A)
    (sorted : list A) : list A :=
  match sorted with
  | [] => [x]
  | y :: rest =>
      if (compare x y <=? 0)%Z then x :: y :: rest
      else y :: insertSorted compare x rest
  end.

Definition sort {A : Type} (compare : A -> A -> Z) (array : list A) : list A :=
  foldr (insertSorted compare) [] array.

(** [numbers.join(',')] on integers: decimal numerals between commas. *)
Definition join (separator : string) (numbers : list Z) : string :=
  String.concat separator (pretty <$> numbers).

(** ** Items and the integrity hash *)

Module Item.
(** An item of the model manager, as far as the integrity hash looks at it;
    [updated_at] is the time value of a valid [Date]. *)
Record t : Type := mk {
  uuid : string;
  updated_at : Z;
  deleted : bool;
  dummy : bool
}.
End Item.

(** What the integrity hash consumes: the crypto provider's SHA-256 (hex
    digest of a string) and the item's [updatedAtTimestamp()]. *)
Class IntegrityCollaborators : Type := {
  sha256 : string -> string;
  updatedAtTimestamp : Item.t -> Z
}.

Section Integrity.
Context `{IntegrityCollaborators}.

(** Modelled from the spec: the model manager's [nonDeletedItems] getter
    (the model manager lies outside the files modelled here): the hash ranges
    over "all non-deleted, non-dummy items". *)
Definition nonDeletedItems (items : list Item.t) : list Item.t :=
  List.filter (fun item => negb (Item.deleted item) && negb (Item.dummy item))
              items.

(** Modelled from the spec: the model manager's [allNondummyItems] getter:
    the items that are no dummies, deleted or not. *)
Definition allNondummyItems (items : list Item.t) : list Item.t :=
  List.filter (fun item => negb (Item.dummy item)) items.

(** The comparator both hash functions sort with:
    [b.updated_at - a.updated_at]. *)
Definition byUpdatedAtDescending (a b : Item.t) : Z :=
  (Item.updated_at b - Item.updated_at a)%Z.

(** [SNSyncManager.computeDataIntegrityHash]; [items] is the collection the
    model manager holds. Nothing in the [try] block throws in this model, so
    the [catch] branch that returns [null] is left out. *)
Definition computeDataIntegrityHash (items : list Item.t) : string :=
  let items := sort byUpdatedAtDescending (nonDeletedItems items) in
  let dates := updatedAtTimestamp <$> items in
  let string := join "," dates in
  sha256 string.

(** [SNProtocolManager.computeDataIntegrityHash], the namesake that sorts
    [allNondummyItems]. *)
Definition protocolManager_computeDataIntegrityHash (items : list Item.t)
    : string :=
  let items := sort byUpdatedAtDescending (allNondummyItems items) in
  let dates := updatedAtTimestamp <$> items in
  let string := join "," dates in
  sha256 string.

End Integrity.

(** ** AccountSyncOperation *)

(** Modelled from the spec: [DEFAULT_UP_DOWN_LIMIT] of
    @Services/sync/constants (outside the files modelled here): "upLimit
    (default 150)". *)
Definition DEFAULT_UP_DOWN_LIMIT : nat := 150.

Module Response.
(** [AccountSyncResponse], as far as the operation reads it. *)
Record t : Type := mk {
  lastSyncToken : option string;
  paginationToken : option string;
  numberOfItemsInvolved : nat
}.
End Response.

Module Request.
(** The argument of [apiService.sync]. *)
Record t (P : Type) : Type := mk {
  payloads : list P;
  lastSyncToken : option string;
  paginationToken : option string;
  limit : nat;
  checkIntegrity : bool
}.
Arguments mk {P}.
Arguments payloads {P}.
Arguments lastSyncToken {P}.
Arguments paginationToken {P}.
Arguments limit {P}.
Arguments checkIntegrity {P}.
End Request.

Module Operation.
Section Operation.
Context {P : Type} `{EqDecision P}.

(** The operation's state. The constructor stores one array under both
    [this.payloads] and [this.pendingPayloads], so the two names read the
    same cell, [pendingPayloads]. [cancleled] and [cancelable] are
    [undefined] until first assigned: falsy for the one, [None] for the
    other. *)
Record t : Type := mk {
  pendingPayloads : list P;
  lastSyncToken : option string;
  paginationToken : option string;
  checkIntegrity : bool;
  responses : list Response.t;
  cancleled : bool;
  cancelable : option bool;
  running : bool
}.

(** [new AccountSyncOperation({payloads, lastSyncToken, paginationToken,
    checkIntegrity, ...})]. *)
Definition create (payloads : list P) (lastSyncToken paginationToken :
    option string) (checkIntegrity : bool) : t :=
  mk payloads lastSyncToken paginationToken checkIntegrity [] false None false.

Definition upLimit : nat := DEFAULT_UP_DOWN_LIMIT.
Definition downLimit : nat := DEFAULT_UP_DOWN_LIMIT.

Definition setPending (op : t) (pending : list P) : t :=
  mk pending (lastSyncToken op) (paginationToken op) (checkIntegrity op)
     (responses op) (cancleled op) (cancelable op) (running op).

Definition setRunning (op : t) (value : bool) : t :=
  mk (pendingPayloads op) (lastSyncToken op) (paginationToken op)
     (checkIntegrity op) (responses op) (cancleled op) (cancelable op) value.

Definition setCancelable (op : t) (value : bool) : t :=
  mk (pendingPayloads op) (lastSyncToken op) (paginationToken op)
     (checkIntegrity op) (responses op) (cancleled op) (Some value)
     (running op).

Definition setCancleled (op : t) : t :=
  mk (pendingPayloads op) (lastSyncToken op) (paginationToken op)
     (checkIntegrity op) (responses op) true (cancelable op) (running op).

(** [popPayloads(count)]: the slice and the array left behind.
    ([subtractFromArray] is called here without being imported; the name is
    taken to resolve to the function of @Lib/utils.) *)
Definition popPayloads (op : t) (count : nat) : list P * t :=
  let payloads := firstn count (pendingPayloads op) in
  (payloads, setPending op (subtractFromArray (pendingPayloads op) payloads)).

Definition lockCancelation (op : t) : t := setCancelable op false.
Definition unlockCancelation (op : t) : t := setCancelable op true.

(** [tryCancel()]: the new state and the value returned. [!this.cancelable]
    holds for [false] and for [undefined]. *)
Definition tryCancel (op : t) : t * bool :=
  if negb (default false (cancelable op))
  then (setCancleled op, true)
  else (op, false).

(** [run()] from its entry to the [await]: [None] when the call returns at
    once, else the request handed to [apiService.sync]. *)
Definition run (op : t) : t * option (Request.t P) :=
  if cancleled op then (op, None)
  else
    let op := setRunning op true in
    let (payloads, op) := popPayloads op upLimit in
    let op := lockCancelation op in
    (op, Some (Request.mk payloads (lastSyncToken op) (paginationToken op)
                          downLimit (checkIntegrity op))).

(** [run()] from the [await] to the call of the receiver: the state in
    which the receiver is handed [response]. *)
Definition resumeRun (op : t) (response : Response.t) : t :=
  let op := unlockCancelation op in
  mk (pendingPayloads op)
     (Response.lastSyncToken response)
     (Response.paginationToken response)
     (checkIntegrity op)
     (responses op ++ [response])
     (cancleled op) (cancelable op) (running op).

(** [get numberOfItemsInvolved()]. *)
Definition numberOfItemsInvolved (op : t) : nat :=
  foldl (fun total response => total + Response.numberOfItemsInvolved response)
        0 (responses op).

Definition needsMoreSync (op : t) : bool :=
  negb (bool_decide (pendingPayloads op = []))
  || truthyString (paginationToken op).

(** [run()] after the receiver has returned: another [run()], or the end. *)
Definition finishRun (op : t) : t * option (Request.t P) :=
  if needsMoreSync op then run op
  else (setRunning op false, None).

End Operation.
Arguments t P : clear implicits.
End Operation.

(** ** SNSyncManager: serialization of sync requests *)

Inductive TimingStrategy : Type :=
| ResolveOnNext
| ForceSpawnNew.

Inductive SyncMode : Type :=
| DefaultMode
| InitialMode.

(** The [{resolve, reject}] pair a queued call leaves behind; each call
    makes a new object, told apart here by a serial number. *)
Definition Caller : Type := nat.

(** A [sync()] call the manager itself makes when a round ends. *)
Inductive Scheduled : Type :=
| SpawnedSync (promise : Caller) (* popSpawnQueue: sync({ForceSpawnNew}), then promise.resolve() *)
| FreshSync                      (* this.sync(), for the callers still queued *)
| FollowUpSync.                  (* return this.sync(), after a round in initial mode *)

(** Where the code runs. [const] is block scoped in the language, and a read
    before the declaration throws a ReferenceError; compiled to [var], as
    Babel does unless told otherwise, the same read gives [undefined].
    [sync()] reads [online] on its way to the upload of a round in default
    mode, nine lines before it declares it. *)
Class Target : Type := blockScopedConst : bool.

Module SyncManager.
(** The manager's state, as far as [sync()] serializes calls with it.
    Modelled from the spec: [opStatus.syncInProgress] ([SyncOpStatus] lies
    outside the files modelled here) is what "at most one sync operation runs at
    a time" rests on: set by [setDidBegin], cleared by [setDidEnd]; the
    [reset] at the end of a round comes after [setDidEnd]. *)
Record t : Type := mk {
  locked : bool;
  syncInProgress : bool;
  databaseLoaded : bool;
  resolveQueue : list Caller;
  spawnQueue : list Caller;
  nextCaller : Caller
}.

(** A manager as its constructor leaves it ([this.locked] is [undefined],
    which is falsy). *)
Definition initial : t := mk false false false [] [] 0.

Definition lockSyncing (m : t) : t :=
  mk true (syncInProgress m) (databaseLoaded m) (resolveQueue m)
     (spawnQueue m) (nextCaller m).

Definition unlockSyncing (m : t) : t :=
  mk false (syncInProgress m) (databaseLoaded m) (resolveQueue m)
     (spawnQueue m) (nextCaller m).

(** [sync()] up to its first [await]: a locked manager returns at once, so
    the caller's promise resolves with [undefined] and nothing has been
    done; otherwise the call goes on to prepare (the items needing sync,
    the pre-sync save), through awaits any of which may reject. *)
Inductive Entered : Type :=
| TurnedAway
| Prepares.

Definition syncEnter (m : t) : Entered :=
  if locked m then TurnedAway else Prepares.

(** What a call to [sync()] comes to at the check for a sync in progress. *)
Inductive Outcome : Type :=
| Queued (promise : Caller)                 (* the call waits in a queue *)
| Began (inTimeResolveQueue : list Caller). (* the call runs a round *)

(** [sync()] from the snapshot of the resolve queue to [setDidBegin()]: no
    [await] lies in between. [timingStrategy] is [None] when the caller gave
    none. *)
Definition syncBegin (m : t) (timingStrategy : option TimingStrategy)
    : t * Outcome :=
  let inTimeResolveQueue := resolveQueue m in
  let useStrategy := default ResolveOnNext timingStrategy in
  if syncInProgress m || negb (databaseLoaded m) then
    let promise := nextCaller m in
    match useStrategy with
    | ResolveOnNext =>
        (mk (locked m) (syncInProgress m) (databaseLoaded m)
            (resolveQueue m ++ [promise]) (spawnQueue m) (S promise),
         Queued promise)
    | ForceSpawnNew =>
        (mk (locked m) (syncInProgress m) (databaseLoaded m)
            (resolveQueue m) (spawnQueue m ++ [promise]) (S promise),
         Queued promise)
    end
  else
    (mk (locked m) true (databaseLoaded m) (resolveQueue m) (spawnQueue m)
        (nextCaller m),
     Began inTimeResolveQueue).

(** [popSpawnQueue()]: the queue left and the sync it calls, if any. *)
Definition popSpawnQueue (m : t) : t * option Scheduled :=
  match spawnQueue m with
  | [] => (m, None)
  | promise :: rest =>
      (mk (locked m) (syncInProgress m) (databaseLoaded m) (resolveQueue m)
          rest (nextCaller m),
       Some (SpawnedSync promise))
  end.

(** [sync()] from [setDidEnd()] to the call of the next sync: the state
    left, the callers resolved, and the calls to [sync()] made. *)
Definition syncEnd (m : t) (inTimeResolveQueue : list Caller)
    : t * list Caller * list Scheduled :=
  let m := mk (locked m) false (databaseLoaded m) (resolveQueue m)
              (spawnQueue m) (nextCaller m) in
  let resolved := inTimeResolveQueue in
  let m := mk (locked m) (syncInProgress m) (databaseLoaded m)
              (subtractFromArray (resolveQueue m) inTimeResolveQueue)
              (spawnQueue m) (nextCaller m) in
  match popSpawnQueue m with
  | (m, Some spawned) => (m, resolved, [spawned])
  | (m, None) =>
      if negb (bool_decide (resolveQueue m = []))
      then (m, resolved, [FreshSync])
      else (m, resolved, [])
  end.

(** The last statement of [sync()]: a round in initial mode ends with
    another call to [sync()]. *)
Definition syncFollowUp (useMode : SyncMode) : list Scheduled :=
  match useMode with
  | InitialMode => [FollowUpSync]
  | DefaultMode => []
  end.

(** The arguments of a call to [sync()] that bear on the queues; a field is
    [None] where the caller gave none. *)
Record Call : Type := call {
  timingStrategy : option TimingStrategy;
  mode : option SyncMode
}.

(** The arguments the manager gives when it calls [sync()] itself. *)
Definition callOf (s : Scheduled) : Call :=
  match s with
  | SpawnedSync _ => call (Some ForceSpawnNew) None
  | FreshSync => call None None
  | FollowUpSync => call None None
  end.

(** The calls to [sync()] a manager makes itself enter like any other. *)
Definition entering (m : t) (calls : list Scheduled) : list Call :=
  match syncEnter m with
  | TurnedAway => []
  | Prepares => callOf <$> calls
  end.

(** What the call that runs a round holds while it is suspended. *)
Record Round : Type := round {
  inTimeResolveQueue : list Caller;
  useMode : SyncMode
}.

(** A round in default mode encrypts what it uploads with an intent chosen
    by [online], which is declared only further down. *)
Definition readsOnlineEarly (useMode : SyncMode) : bool :=
  match useMode with
  | DefaultMode => true
  | InitialMode => false
  end.

(** Whether a round gets as far as [operation.run()] at all. *)
Definition reachesRun `{Target} (useMode : SyncMode) : bool :=
  negb (blockScopedConst && readsOnlineEarly useMode).

(** The manager over a session (from its construction up to a sign-out;
    [handleSignOut] empties both queues and resets [opStatus], and what is
    described here ends with it; the hooks for unit tests are left out),
    together with the calls to [sync()] that
    are in the awaits before the check, the one call that may be running a
    round and the callers that the ends of rounds have resolved so far. *)
Record World : Type := mkWorld {
  manager : t;
  preparing : list Call;
  current : option Round;
  resolvedSoFar : list Caller
}.

Definition start : World := mkWorld initial [] None [].

(** What can happen in a session. A call is named by its place among the
    calls preparing. The awaits before the check reject when a collaborator
    does, and also when the protocol manager given has no
    [payloadsByEncryptingPayloads] (protocolManager.js defines none). A
    round throws when an await between [setDidBegin()] and [setDidEnd()]
    rejects or a statement there throws; [setDidEnd()] is then not
    reached. *)
Inductive Event : Type :=
| DatabaseLoads                (* loadDatabasePayloads completes *)
| LockSyncing                  (* lockSyncing() *)
| UnlockSyncing                (* unlockSyncing() *)
| SyncCalled (c : Call)        (* sync(c), by anybody but the end of a round *)
| SyncFailsPreparing (i : nat) (* an await before the check rejects *)
| SyncReachesCheck (i : nat)   (* the awaits before the check have resolved *)
| RoundThrows                  (* the round does not reach setDidEnd() *)
| RoundCompletes.              (* await operation.run() returns *)

Section Session.
Context `{Target}.

(** An event that cannot happen in a state leaves it as it is. *)
Definition step (w : World) (event : Event) : World :=
  match event with
  | DatabaseLoads =>
      let m := manager w in
      mkWorld (mk (locked m) (syncInProgress m) true (resolveQueue m)
                  (spawnQueue m) (nextCaller m))
              (preparing w) (current w) (resolvedSoFar w)
  | LockSyncing =>
      mkWorld (lockSyncing (manager w)) (preparing w) (current w)
              (resolvedSoFar w)
  | UnlockSyncing =>
      mkWorld (unlockSyncing (manager w)) (preparing w) (current w)
              (resolvedSoFar w)
  | SyncCalled c =>
      match syncEnter (manager w) with
      | TurnedAway => w
      | Prepares =>
          mkWorld (manager w) (preparing w ++ [c]) (current w)
                  (resolvedSoFar w)
      end
  | SyncFailsPreparing i =>
      match preparing w !! i with
      | None => w
      | Some _ =>
          mkWorld (manager w) (delete i (preparing w)) (current w)
                  (resolvedSoFar w)
      end
  | SyncReachesCheck i =>
      match preparing w !! i with
      | None => w
      | Some c =>
          match syncBegin (manager w) (timingStrategy c) with
          | (m, Queued _) =>
              mkWorld m (delete i (preparing w)) (current w)
                      (resolvedSoFar w)
          | (m, Began inTimeResolveQueue) =>
              mkWorld m (delete i (preparing w))
                      (Some (round inTimeResolveQueue
                                   (default DefaultMode (mode c))))
                      (resolvedSoFar w)
          end
      end
  | RoundThrows =>
      match current w with
      | None => w
      | Some _ =>
          mkWorld (manager w) (preparing w) None (resolvedSoFar w)
      end
  | RoundCompletes =>
      match current w with
      | None => w
      | Some r =>
          if reachesRun (useMode r) then
            match syncEnd (manager w) (inTimeResolveQueue r) with
            | (m, resolved, scheduled) =>
                mkWorld m
                  (preparing w
                     ++ entering m (scheduled ++ syncFollowUp (useMode r)))
                  None (resolvedSoFar w ++ resolved)
            end
          else w
      end
  end.

Definition exec (events : list Event) : World := foldl step start events.
End Session.
End SyncManager.

(** ** Further code of the same files *)

(** A result of the functions below: a value returned or an error of the
    function's own error type thrown. *)
Inductive Try (E A : Type) : Type :=
| Returned (value : A)
| Thrown (e : E).

Arguments Returned {E A} value.
Arguments Thrown {E A} e.

(** *** PurePayload: the getters *)

Module PayloadGetters.
Import PurePayload.

Inductive AccessError : Type :=
| NonObjectAsObject    (* Error('Attempting to access non-object content as object') *)
| NonStringAsString    (* Error('Attempting to access non-string content as string') *)
| PropertyOfUndefined. (* the runtime's TypeError on reading a property of undefined *)

(** [{} as PayloadContent]. *)
Definition emptyObject : Content.t := Content.mk None None [].

(** [get safeContent()]: the casts do not look at the value, so what comes
    back is whatever [content] holds. *)
Definition safeContent (p : t) : option ContentValue :=
  if decide (format p = DecryptedBareObject) then content p
  else Some (ObjectContent emptyObject).

(** [get safeReferences()]: [this.safeContent.references || []]. A string
    has no [references] property; [undefined] has no properties at all. *)
Definition safeReferences (p : t) : Try AccessError (list (string * string)) :=
  match safeContent p with
  | Some (ObjectContent c) => Returned (default [] (Content.references c))
  | Some (StringContent _) => Returned []
  | None => Thrown PropertyOfUndefined
  end.

(** [get references()]. *)
Definition references (p : t) : Try AccessError (list (string * string)) :=
  safeReferences p.

(** [get contentObject()]. *)
Definition contentObject (p : t) : Try AccessError (option ContentValue) :=
  if decide (format p <> DecryptedBareObject) then Thrown NonObjectAsObject
  else Returned (content p).

(** [get contentString()]. *)
Definition contentString (p : t) : Try AccessError (option ContentValue) :=
  if decide (format p = DecryptedBareObject) then Thrown NonStringAsString
  else Returned (content p).

(** [get discardable()]: [this.deleted && !this.dirty], read as a
    condition. *)
Definition discardable (p : t) : bool :=
  default false (deleted p) && negb (default false (dirty p)).

End PayloadGetters.

(** *** Protocol manager: versions *)

Module Versions.

Inductive VersionError : Type :=
| NoCostMinimum (version : string)  (* `Unable to find cost minimum for version ${version}` *)
| NoAuthParamsVersion.              (* "No auth params version found." *)

(** The operators' static cost floors ([pwCost()], [kdfIterations()]), which
    the manager only passes on. *)
Class CostFloors : Type := {
  pwCost : ProtocolOperator -> nat
}.

Definition PROTOCOL_VERSION_001 : string := "001".
Definition PROTOCOL_VERSION_002 : string := "002".
Definition PROTOCOL_VERSION_003 : string := "003".
Definition PROTOCOL_VERSION_004 : string := "004".

(** [supportedVersions()]. *)
Definition supportedVersions : list string :=
  [PROTOCOL_VERSION_001; PROTOCOL_VERSION_002; PROTOCOL_VERSION_003;
   PROTOCOL_VERSION_004].

(** [costMinimumForVersion(version)]. *)
Definition costMinimumForVersion `{CostFloors} (version : string)
    : Try VersionError nat :=
  if decide (version = PROTOCOL_VERSION_001) then Returned (pwCost Operator001)
  else if decide (version = PROTOCOL_VERSION_002)
  then Returned (pwCost Operator002)
  else if decide (version = PROTOCOL_VERSION_003)
  then Returned (pwCost Operator003)
  else if decide (version = PROTOCOL_VERSION_004)
  then Returned (pwCost Operator004)
  else Thrown (NoCostMinimum version).

(** The key parameters handed to [createVersionedKeyParams], as far as it
    reads them, and the four classes it wraps them in. *)
Record KeyParams : Type := mkKeyParams {
  kp_version : option string;
  kp_identifier : string
}.

Inductive VersionedKeyParams : Type :=
| SNRootKeyParams001 (keyParams : KeyParams)
| SNRootKeyParams002 (keyParams : KeyParams)
| SNRootKeyParams003 (keyParams : KeyParams)
| SNRootKeyParams004 (keyParams : KeyParams).

(** [createVersionedKeyParams(keyParams)]: [keyParams.version ||
    PROTOCOL_VERSION_002], then the switch. *)
Definition createVersionedKeyParams (keyParams : KeyParams)
    : Try VersionError VersionedKeyParams :=
  let version :=
    if truthyString (kp_version keyParams)
    then default "" (kp_version keyParams)
    else PROTOCOL_VERSION_002 in
  if decide (version = PROTOCOL_VERSION_001)
  then Returned (SNRootKeyParams001 keyParams)
  else if decide (version = PROTOCOL_VERSION_002)
  then Returned (SNRootKeyParams002 keyParams)
  else if decide (version = PROTOCOL_VERSION_003)
  then Returned (SNRootKeyParams003 keyParams)
  else if decide (version = PROTOCOL_VERSION_004)
  then Returned (SNRootKeyParams004 keyParams)
  else Thrown NoAuthParamsVersion.

(** Days from 1970-01-01 to the given civil date (proleptic Gregorian). *)
Definition daysFromCivil (year month day : Z) : Z :=
  let y := (if month <=? 2 then year - 1 else year)%Z in
  let era := (y / 400)%Z in
  let yoe := (y - era * 400)%Z in
  let mp := ((month + 9) mod 12)%Z in
  let doy := ((153 * mp + 2) / 5 + day - 1)%Z in
  let doe := (yoe * 365 + yoe / 4 - yoe / 100 + doy)%Z in
  (era * 146097 + doe - 719468)%Z.

(** [Date.parse('YYYY-MM-DD')]: a date-only form is UTC midnight, in
    milliseconds. *)
Definition parseDateOnly (year month day : Z) : Z :=
  (daysFromCivil year month day * 86400000)%Z.

(** [isProtocolVersionOutdated(version)] at clock reading [now]: the table
    of expiration dates has entries for 001 and 002 only. *)
Definition expirationDate (version : string) : option Z :=
  if decide (version = PROTOCOL_VERSION_001)
  then Some (parseDateOnly 2018 1 1)
  else if decide (version = PROTOCOL_VERSION_002)
  then Some (parseDateOnly 2020 1 1)
  else None.

Definition isProtocolVersionOutdated (now : Z) (version : string) : bool :=
  match expirationDate version with
  | None => false
  | Some date => if (date =? 0)%Z then false else (date <? now)%Z
  end.

(** [supportsPasswordDerivationCost(cost)]; [isWebCrypto] is [this.crypto
    instanceof SNWebCrypto]. *)
Definition supportsPasswordDerivationCost (isWebCrypto : bool) (cost : Z)
    : bool :=
  if (5000 <? cost)%Z then isWebCrypto else true.

End Versions.

(** *** AccountSyncOperation: a whole run *)

Module OperationRun.
Import Operation.
Section OperationRun.
Context {P : Type} `{EqDecision P}.

(** What happens while one request is awaited: whether [tryCancel()] is
    called meanwhile, and the response the server gives in the end. *)
Record Flight : Type := mkFlight {
  cancels : bool;
  response : Response.t
}.

(** How a call to [run()] stands: the operation, the requests posted so far
    in order, and whether the call has returned (it has not while a request
    is awaited). *)
Record Run : Type := mkRun {
  final : t P;
  requests : list (Request.t P);
  returned : bool
}.

(** From one [await] to the next: the response arrives, the receiver is
    called, and [run()] returns or calls itself. The receiver is taken to
    leave the operation as it is (the sync manager's only reads it). *)
Definition nextRound (op : t P) (flight : Flight)
    : t P * option (Request.t P) :=
  let op := if cancels flight then fst (tryCancel op) else op in
  finishRun (resumeRun op (response flight)).

(** [run()] carried on from the state [op] in which [posted] is awaited
    ([None]: the call has returned), through the flights that follow. *)
Fixpoint rounds (flights : list Flight) (op : t P)
    (posted : option (Request.t P)) : Run :=
  match posted with
  | None => mkRun op [] true
  | Some request =>
      match flights with
      | [] => mkRun op [request] false
      | flight :: rest =>
          let (op, next) := nextRound op flight in
          let run := rounds rest op next in
          mkRun (final run) (request :: requests run) (returned run)
      end
  end.

(** [operation.run()] against a server that gives the responses of
    [flights], one per request. *)
Definition runWith (op : t P) (flights : list Flight) : Run :=
  let (op, posted) := run op in rounds flights op posted.

End OperationRun.
Arguments Flight : clear implicits.
Arguments Run P : clear implicits.
End OperationRun.

(** *** SNSyncManager: the sync position tokens *)

Module SyncTokens.

(** Modelled from the spec: the persistent store interface, "[getValue(key)],
    [setValue(key, value)], [removeValue(key)]" of a key/value store: it
    holds the value it was given (here a string, or [null]/[undefined])
    until the key is set again or removed; a key it does not hold reads as
    [undefined]. *)
Definition Storage : Type := gmap string (option string).

Definition getValue (key : string) (storage : Storage) : option string :=
  match storage !! key with
  | Some value => value
  | None => None
  end.

Definition setValue (key : string) (value : option string)
    (storage : Storage) : Storage :=
  <[key := value]> storage.

Definition removeValue (key : string) (storage : Storage) : Storage :=
  delete key storage.

(** The reserved keys, of @Protocol/storageKeys. *)
Class StorageKeys : Type := {
  STORAGE_KEY_LAST_SYNC_TOKEN : string;
  STORAGE_KEY_PAGINATION_TOKEN : string
}.

(** The manager's cached tokens and the store behind them. *)
Record t : Type := mk {
  syncToken : option string;
  cursorToken : option string;
  storage : Storage
}.

Section SyncTokens.
Context `{StorageKeys}.

Definition setLastSyncToken (token : option string) (m : t) : t :=
  mk token (cursorToken m)
     (setValue STORAGE_KEY_LAST_SYNC_TOKEN token (storage m)).

Definition setPaginationToken (token : option string) (m : t) : t :=
  mk (syncToken m) token
     (if truthyString token
      then setValue STORAGE_KEY_PAGINATION_TOKEN token (storage m)
      else removeValue STORAGE_KEY_PAGINATION_TOKEN (storage m)).

Definition getLastSyncToken (m : t) : t * option string :=
  let m :=
    if negb (truthyString (syncToken m))
    then mk (getValue STORAGE_KEY_LAST_SYNC_TOKEN (storage m))
            (cursorToken m) (storage m)
    else m in
  (m, syncToken m).

Definition getPaginationToken (m : t) : t * option string :=
  let m :=
    if negb (truthyString (cursorToken m))
    then mk (syncToken m)
            (getValue STORAGE_KEY_PAGINATION_TOKEN (storage m)) (storage m)
    else m in
  (m, cursorToken m).

Definition clearSyncPositionTokens (m : t) : t :=
  mk None None
     (removeValue STORAGE_KEY_PAGINATION_TOKEN
        (removeValue STORAGE_KEY_LAST_SYNC_TOKEN (storage m))).

End SyncTokens.
End SyncTokens.

(** *** SNSyncManager: saving before and after a sync *)

Module Persistence.
Import PurePayload.

(** [a > b] on the dirtied date of a payload and a [Date]: both are turned
    into their time values; an invalid date is [NaN] and [undefined] becomes
    [NaN], and no comparison with [NaN] holds. *)
Definition laterThan (a : option JsDate) (b : JsDate) : bool :=
  match a, b with
  | Some (DateAt x), DateAt y => (y <? x)%Z
  | _, _ => false
  end.

(** [popPayloadsNeedingPreSyncSave(from)] at clock reading [now]: the
    payloads returned and [state.lastPreSyncSaveDate] as it is left.
    Modelled from the spec: [lastPreSyncSaveDate] of the sync state
    ([SyncState] lies outside the files modelled here), which
    [setLastPresaveSyncDate] records. *)
Definition popPayloadsNeedingPreSyncSave (now : Z)
    (lastPreSyncSaveDate : option JsDate) (from : list t)
    : list t * option JsDate :=
  match lastPreSyncSaveDate with
  | None => (from, lastPreSyncSaveDate)
  | Some lastPreSyncSave =>
      (List.filter
         (fun candidate => laterThan (dirtiedDate candidate) lastPreSyncSave)
         from,
       Some (DateAt now))
  end.

Section Persist.
Context `{Collaborators}.

(** The loop of [persistPayloads] over [decryptedPayloads]. *)
Fixpoint processEach (decryptedPayloads newlyProcessed : list t)
    : Result (list t) :=
  match decryptedPayloads with
  | [] => Ok newlyProcessed
  | payload :: rest =>
      if PayloadGetters.discardable payload
      then processEach rest (newlyProcessed ++ [payload])
      else
        encrypted ←
          payloadByEncryptingPayload payload None LocalStoragePreferEncrypted;
        processEach rest (newlyProcessed ++ [encrypted])
  end.

(** [persistPayloads({encryptedPayloads, decryptedPayloads})]; [saved] is
    the list of the arrays handed to [storageManager.savePayloads] so
    far. *)
Definition persistPayloads (encryptedPayloads decryptedPayloads : list t)
    (saved : list (list t)) : Result (list (list t)) :=
  newlyProcessed ← processEach decryptedPayloads [];
  let allPayloads := encryptedPayloads ++ newlyProcessed in
  if (length allPayloads =? 0)%nat then Ok saved
  else Ok (saved ++ [allPayloads]).

End Persist.
End Persistence.

(** *** SNSyncManager: loading the local database *)

#[global] Instance JsDate_eq_dec : EqDecision JsDate.
Proof. solve_decision. Defined.

#[global] Instance Content_eq_dec : EqDecision Content.t.
Proof. solve_decision. Defined.

#[global] Instance ContentValue_eq_dec : EqDecision ContentValue.
Proof. solve_decision. Defined.

#[global] Instance PayloadSource_eq_dec : EqDecision PayloadSource.
Proof. solve_decision. Defined.

#[global] Instance PurePayload_eq_dec : EqDecision PurePayload.t.
Proof. solve_decision. Defined.

Module DatabaseLoad.
Import PurePayload.

Definition DEFAULT_DATABASE_LOAD_BATCH_SIZE : nat := 100.

Inductive LoadError : Type :=
| AlreadyInitialized   (* 'Attempting to initialize already initialized local database.' *)
| Failed (e : Exn).    (* what decrypting or mapping a batch threw *)

(** [array.slice(start, end)]. *)
Definition slice {A : Type} (start finish : nat) (array : list A) : list A :=
  firstn (finish - start) (skipn start array).

(** [Math.ceil(count / size)]. *)
Definition ceilDiv (count size : nat) : nat := (count + (size - 1)) / size.

Section Load.
(** [W] is what decrypting and mapping act on (the keys known, the items
    mapped); [decryptAndMap] is [protocolManager.payloadsByDecryptingPayloads]
    followed by [modelManager.mapPayloadsToLocalItems] on its result. *)
Context {W : Type} (decryptAndMap : list t -> W -> Result W).

(** The [for] loop over the batches, from [batchIndex] on; [remaining] is
    the number of turns left. *)
Fixpoint loadBatches (payloads : list t) (remaining batchIndex : nat) (w : W)
    : Result W :=
  match remaining with
  | 0 => Ok w
  | S remaining =>
      let currentPosition := batchIndex * DEFAULT_DATABASE_LOAD_BATCH_SIZE in
      let batch :=
        slice currentPosition
              (currentPosition + DEFAULT_DATABASE_LOAD_BATCH_SIZE) payloads in
      w ← decryptAndMap batch w;
      loadBatches payloads remaining (S batchIndex) w
  end.

(** [loadDatabasePayloads], from the sorted array on: [payloads] is what
    [SortPayloadsByRecentAndContentPriority] returned. The result is
    [this.databaseLoaded] and the world as they are left; the events
    notified and the load status reported on the way are not part of it. *)
Definition loadDatabasePayloads (databaseLoaded : bool) (payloads : list t)
    (w : W) : Try LoadError (bool * W) :=
  if databaseLoaded then Thrown AlreadyInitialized
  else
    let itemsKeysPayloads :=
      List.filter
        (fun payload =>
           bool_decide (content_type payload = Some "SN|ItemsKey"))
        payloads in
    let payloads := subtractFromArray payloads itemsKeysPayloads in
    match decryptAndMap itemsKeysPayloads w with
    | Throw e => Thrown (Failed e)
    | Ok w =>
        let payloadCount := length payloads in
        let batchSize := DEFAULT_DATABASE_LOAD_BATCH_SIZE in
        let numBatches := ceilDiv payloadCount batchSize in
        match loadBatches payloads numBatches 0 w with
        | Throw e => Thrown (Failed e)
        | Ok w => Returned (true, w)
        end
    end.

End Load.
End DatabaseLoad.

(** *** Migration: stage handlers *)

Module Migration.
(** A stage is a number, here one with an integer value: the property it
    names in [this.stageHandlers] is its decimal numeral, which no two
    stages share and which names nothing a plain object inherits. (A stage
    given as a string such as ["__proto__"] or ["toString"] would read what
    the object inherits; such stages are left out.) *)
Definition Stage : Type := Z.

Section Migration.
(** A handler acts on the application's state [S]. *)
Context {S : Type}.

(** [this.stageHandlers]: what was stored under a stage, a function or a
    falsy value ([None]). *)
Definition t : Type := gmap Stage (option (S -> S)).

(** [this.stageHandlers = {}]. *)
Definition stageHandlers_initial : t := ∅.

(** [registerStageHandler(stage, handler)]. *)
Definition registerStageHandler (stage : Stage) (handler : option (S -> S))
    (m : t) : t :=
  <[stage := handler]> m.

(** [handleStage(stage)]: [if(handler) { await handler() }]. *)
Definition handleStage (stage : Stage) (m : t) (s : S) : S :=
  match m !! stage with
  | Some (Some handler) => handler s
  | _ => s
  end.

End Migration.
Arguments t S : clear implicits.
Arguments stageHandlers_initial {S}.
End Migration.

(* ===================================================================== *)
(** * Part II. Properties                                                 *)
(* ===================================================================== *)

Module PurePayloadFacts.
Import PurePayload.

(** The constructor throws only on a falsy uuid that [fields] announces. *)
Lemma construct_ok_iff now rawPayload fields source :
  (exists p, construct now rawPayload fields source = Ok p) <->
  negb (truthyString (Raw.uuid rawPayload))
  && includes Uuid (match fields with
                    | Some fs => fs
                    | None => Raw.keys rawPayload
                    end) = false.
Proof.
  unfold construct.
  destruct (negb (truthyString (Raw.uuid rawPayload)) && includes Uuid _).
  - split; [intros [p Hp]; discriminate | discriminate].
  - split; [reflexivity | intros _; eexists; reflexivity].
Qed.

(** A sample raw payload, as the server sends one. *)
Definition sampleRaw : Raw.t :=
  Raw.mk (Some "u-1") (Some "Note") (Some (StringContent "004:nonce:ct:aad"))
         None (Some "k-1") (Some "004:n:c:a") None None None None None None
         None None None None None.

(** C5 as stated fails on the empty string: it is a string that does not
    start with "000", yet the constructor's truthiness test drops it, so the
    payload has no content, format Deleted and no version. *)
Lemma construct_empty_string_content :
  String.prefix "000" "" = false /\
  exists p,
    construct 7 (Raw.mk (Some "u-1") (Some "Note") (Some (StringContent ""))
                        None None None None None None None None None None
                        None None None None) None None = Ok p /\
    format p = DeletedFormat /\ content p = None /\ version p = None.
Proof.
  split; [reflexivity |].
  eexists; split; [reflexivity |].
  repeat split.
Qed.

(** C5 (amended): the constructor returns a payload unless the uuid is
    missing although [fields] lists it, and in the payload it returns
    content, format and version agree. A non-empty string not starting with
    "000" is kept, has format EncryptedString and its first 3 characters as
    version; a string starting with "000" is kept with format
    DecryptedBase64String (and version "000"); object content is kept
    (filled) with format DecryptedBareObject and the version its own
    [version] key holds; absent content, and the empty string, give no
    content, format Deleted and no version. The payload returned is
    deep-frozen: every later write into it, or into an object it holds,
    throws and leaves it as it is. *)
Theorem construct_content_format_version now rawPayload fields source :
  ((exists p, construct now rawPayload fields source = Ok p) <->
   (truthyString (Raw.uuid rawPayload) = true
    \/ Uuid ∉ match fields with
              | Some fs => fs
              | None => Raw.keys rawPayload
              end)) /\
  forall p,
    construct now rawPayload fields source = Ok p ->
    match Raw.content rawPayload with
    | Some (StringContent s) =>
        if decide (s = "") then
          content p = None /\ format p = DeletedFormat /\ version p = None
        else if String.prefix "000" s then
          content p = Some (StringContent s) /\
          format p = DecryptedBase64String /\ version p = Some "000"
        else
          content p = Some (StringContent s) /\
          format p = EncryptedString /\
          version p = Some (String.substring 0 3 s)
    | Some (ObjectContent c) =>
        content p = Some (ObjectContent (FillItemContent c)) /\
        format p = DecryptedBareObject /\
        version p = Content.version c /\
        (forall c', content p = Some (ObjectContent c') ->
                    version p = Content.version c')
    | None =>
        content p = None /\ format p = DeletedFormat /\ version p = None
    end /\
    frozen p = true /\
    forall update,
      write update p
      = Throw (TypeError "Cannot assign to read only property of object").
Proof.
  split.
  { rewrite construct_ok_iff, andb_false_iff, negb_false_iff.
    unfold includes. rewrite bool_decide_eq_false. reflexivity. }
  intros p. unfold construct, deepFreeze.
  destruct (negb (truthyString (Raw.uuid rawPayload)) && includes Uuid _);
    [discriminate |].
  intros [= <-]. split; [| split; [reflexivity | intros update; reflexivity]].
  destruct (Raw.content rawPayload) as [[s | c] |];
    cbn [truthyContent truthyString content format version].
  - destruct s as [| a s]; [repeat split |].
    destruct (decide (String a s = "")) as [Heq | _]; [discriminate |].
    unfold V000Base64Decrypted, VersionLength.
    destruct (String.prefix "000" (String a s)) eqn:Hpre; [| repeat split].
    apply String.prefix_correct in Hpre. cbn [String.length] in Hpre.
    rewrite Hpre. repeat split.
  - repeat split. intros c' Hc'. injection Hc' as <-. reflexivity.
  - repeat split.
Qed.

Lemma construct_content_format_version_witness :
  exists p, construct 7 sampleRaw None None = Ok p /\
    (content p = Some (StringContent "004:nonce:ct:aad") /\
     format p = EncryptedString /\ version p = Some "004") /\
    write (fun q => q) p
    = Throw (TypeError "Cannot assign to read only property of object").
Proof.
  destruct (construct_content_format_version 7 sampleRaw None None)
    as [Hreturns Hagree].
  destruct (proj2 Hreturns (or_introl eq_refl)) as [p Hp].
  exists p. split; [exact Hp |].
  destruct (Hagree p Hp) as (Hcontent & _ & Hwrite).
  split; [exact Hcontent | exact (Hwrite (fun q => q))].
Defined.

(** A key that holds [undefined] is a key: an object that holds [uuid]
    without a value, built with no [fields] given, is refused, while the
    object that does not hold the key is accepted. *)
Example construct_uuid_key_without_value :
  construct 7 (Raw.Build None (Some "Note") None None None None None None
                 None None None None None None None None None
                 [Uuid; ContentType]) None None
  = Throw UuidIsNull /\
  exists p,
    construct 7 (Raw.Build None (Some "Note") None None None None None None
                   None None None None None None None None None
                   [ContentType]) None None
    = Ok p.
Proof. split; [reflexivity | eexists; reflexivity]. Qed.

(** C10: a constructed payload always has its two timestamps. [created_at]
    is the raw value when there is one and the construction time otherwise;
    [updated_at] is the raw value when there is one and the epoch (time 0)
    otherwise; neither is ever absent. (The constructor returns a payload
    unless the uuid is missing although [fields] lists it.) *)
Theorem construct_timestamps_defined now rawPayload fields source :
  ((exists p, construct now rawPayload fields source = Ok p) <->
   (truthyString (Raw.uuid rawPayload) = true
    \/ Uuid ∉ match fields with
              | Some fs => fs
              | None => Raw.keys rawPayload
              end)) /\
  forall p,
    construct now rawPayload fields source = Ok p ->
    (Raw.created_at rawPayload = None -> created_at p = Some (DateAt now)) /\
    (Raw.updated_at rawPayload = None -> updated_at p = Some (DateAt 0)) /\
    (forall d, Raw.created_at rawPayload = Some d -> created_at p = Some d) /\
    (forall d, Raw.updated_at rawPayload = Some d -> updated_at p = Some d) /\
    created_at p <> None /\ updated_at p <> None.
Proof.
  split.
  - rewrite construct_ok_iff, andb_false_iff, negb_false_iff.
    unfold includes. rewrite bool_decide_eq_false. reflexivity.
  - intros p. unfold construct.
    destruct (negb (truthyString (Raw.uuid rawPayload)) && includes Uuid _);
      [discriminate |].
    intros [= <-]. cbn [created_at updated_at newDate].
    repeat split; try discriminate.
    + intros ->. reflexivity.
    + intros ->. reflexivity.
    + intros d ->. reflexivity.
    + intros d ->. reflexivity.
Qed.

Lemma construct_timestamps_defined_witness :
  exists p, construct 7 sampleRaw None None = Ok p /\
    created_at p = Some (DateAt 7) /\ updated_at p = Some (DateAt 0).
Proof.
  destruct (construct_timestamps_defined 7 sampleRaw None None)
    as [Hreturns Hdates].
  destruct (proj2 Hreturns (or_introl eq_refl)) as [p Hp].
  exists p. split; [exact Hp |].
  destruct (Hdates p Hp) as (Hc & Hu & _).
  split; [exact (Hc eq_refl) | exact (Hu eq_refl)].
Defined.

(** *** Ejection *)

(** Whether the loop of [ejected] writes [field] into the result. *)
Definition ejects (p : t) (field : PayloadField) : bool :=
  negb (includes field nonRequiredFields)
  && negb (isNullOrUndefined (get p field) && includes field optionalFields).

Lemma ejectField_lookup p result field f :
  ejectField p result field !! f =
  if decide (field = f) then
    if ejects p f then Some (get p f) else result !! f
  else result !! f.
Proof.
  unfold ejectField, ejects.
  destruct (decide (field = f)) as [-> | Hne].
  - destruct (includes f nonRequiredFields); [reflexivity |].
    cbn [negb andb].
    destruct (isNullOrUndefined (get p f) && includes f optionalFields);
      [reflexivity |].
    cbn [negb]. apply lookup_insert_eq.
  - destruct (includes field nonRequiredFields); [reflexivity |].
    destruct (isNullOrUndefined (get p field) && includes field optionalFields);
      [reflexivity |].
    cbn zeta. apply lookup_insert_ne. exact Hne.
Qed.

(** The loop invariant of [ejected], for any object built so far. *)
Lemma foldl_ejectField_lookup p l result f :
  foldl (ejectField p) result l !! f =
  if decide (f ∈ l /\ ejects p f = true) then Some (get p f) else result !! f.
Proof.
  revert result. induction l as [| x l IH]; intros result; cbn [foldl].
  - destruct (decide _) as [[Hin _] | _]; [| reflexivity].
    apply elem_of_nil in Hin. contradiction.
  - rewrite IH, ejectField_lookup.
    destruct (decide (f ∈ l /\ ejects p f = true)) as [[Hin He] | Hn].
    + rewrite decide_True; [reflexivity |]. split; [| exact He].
      apply elem_of_cons. right. exact Hin.
    + destruct (decide (x = f)) as [-> | Hne].
      * destruct (ejects p f) eqn:He.
        -- rewrite decide_True; [reflexivity |]. split; [| reflexivity].
           apply elem_of_cons. left. reflexivity.
        -- rewrite decide_False; [reflexivity |]. intros [_ ?]. discriminate.
      * rewrite decide_False; [reflexivity |]. intros [Hin He]. apply Hn.
        split; [| exact He]. apply elem_of_cons in Hin as [-> | Hin];
          [contradiction | exact Hin].
Qed.

(** C8: [ejected()] holds exactly the fields of [p.fields] that are not in
    the non-persistable set {DirtiedDate, ErrorDecrypting,
    ErrorDecryptingChanged, WaitingForKey, LastSyncBegan, LastSyncEnd},
    without Deleted and auth_hash when their value is null or undefined, and
    each field it holds has the value it has on [p]. *)
Theorem ejected_exactly_persistable_fields (p : t) (f : PayloadField)
    (v : JsValue) :
  ejected p !! f = Some v <->
  f ∈ fields p
  /\ (f ∉ [DirtiedDate; ErrorDecrypting; ErrorDecryptingChanged;
           WaitingForKey; LastSyncBegan; LastSyncEnd])
  /\ ~ ((f = Deleted \/ f = Legacy003AuthHash)
        /\ isNullOrUndefined (get p f) = true)
  /\ v = get p f.
Proof.
  unfold ejected. rewrite foldl_ejectField_lookup, lookup_empty.
  assert (Hiff : ejects p f = true <->
            (f ∉ [DirtiedDate; ErrorDecrypting; ErrorDecryptingChanged;
                   WaitingForKey; LastSyncBegan; LastSyncEnd])
            /\ ~ ((f = Deleted \/ f = Legacy003AuthHash)
                  /\ isNullOrUndefined (get p f) = true)).
  { unfold ejects, includes, nonRequiredFields, optionalFields.
    rewrite andb_true_iff, !negb_true_iff, andb_false_iff.
    rewrite bool_decide_eq_false.
    apply and_iff_compat_l.
    split.
    - intros [Hv | Ho] [Hf Hu].
      + rewrite Hu in Hv. discriminate.
      + apply bool_decide_eq_false in Ho. apply Ho.
        destruct Hf as [-> | ->];
          [apply list_elem_of_further |]; apply list_elem_of_here.
    - intros Hn. destruct (isNullOrUndefined (get p f)); [| left; reflexivity].
      right. apply bool_decide_eq_false. intros Hin. apply Hn.
      split; [| reflexivity].
      apply elem_of_cons in Hin as [-> | Hin]; [right; reflexivity |].
      apply list_elem_of_singleton in Hin as ->. left; reflexivity. }
  destruct (decide (f ∈ fields p /\ ejects p f = true)) as [[Hin He] | Hn].
  - apply Hiff in He as [Hnon Hopt]. split.
    + intros [= <-]. repeat split; assumption.
    + intros (_ & _ & _ & ->). reflexivity.
  - split; [discriminate |]. intros (Hin & Hnon & Hopt & _).
    exfalso. apply Hn. split; [exact Hin |]. apply Hiff. split; assumption.
Qed.

End PurePayloadFacts.

Module ProtocolManagerFacts.
Import PurePayload.

(** A payload is [constructed] when the constructor returned it. *)
Definition constructed (p : t) : Prop :=
  exists now rawPayload fields source,
    construct now rawPayload fields source = Ok p.

(** What the constructor establishes, in terms of the payload alone. *)
Record wellFormed (p : t) : Prop := {
  wf_uuid : truthyString (uuid p) = true \/ Uuid ∉ fields p;
  wf_created_at : is_Some (created_at p);
  wf_updated_at : is_Some (updated_at p);
  wf_dirtiedDate : is_Some (dirtiedDate p);
  wf_content :
    match content p with
    | Some (StringContent s) =>
        s <> "" /\
        format p = (if String.prefix V000Base64Decrypted s
                    then DecryptedBase64String else EncryptedString) /\
        version p = Some (String.substring 0 VersionLength s)
    | Some (ObjectContent c) =>
        FillItemContent c = c /\
        format p = DecryptedBareObject /\ version p = Content.version c
    | None => format p = DeletedFormat /\ version p = None
    end
}.

Lemma FillItemContent_idempotent c :
  FillItemContent (FillItemContent c) = FillItemContent c.
Proof. destruct c as [v [r |] b]; reflexivity. Qed.

Lemma includes_false `{EqDecision A} (x : A) (l : list A) :
  includes x l = false <-> x ∉ l.
Proof. unfold includes. apply bool_decide_eq_false. Qed.

Lemma constructed_wellFormed p : constructed p -> wellFormed p.
Proof.
  intros (now & raw & fs & src & Hc). unfold construct in Hc.
  destruct (negb (truthyString (Raw.uuid raw)) && includes Uuid _) eqn:Hguard;
    [discriminate |].
  injection Hc as <-. split; cbn [uuid fields created_at updated_at
                                  dirtiedDate content format version].
  - apply andb_false_iff in Hguard as [Hu | Hf].
    + left. apply negb_false_iff, Hu.
    + right. apply includes_false, Hf.
  - eexists; reflexivity.
  - eexists; reflexivity.
  - eexists; reflexivity.
  - destruct (Raw.content raw) as [[s | c] |]; cbn [truthyContent].
    + destruct s as [| a s]; cbn [truthyString]; [split; reflexivity |].
      repeat split; discriminate.
    + rewrite FillItemContent_idempotent. repeat split.
    + split; reflexivity.
Qed.

(** The constructor's last statement freezes what it returns. *)
Lemma constructed_frozen p : constructed p -> frozen p = true.
Proof.
  intros (now & raw & fs & src & Hc). unfold construct, deepFreeze in Hc.
  destruct (negb (truthyString (Raw.uuid raw)) && includes Uuid _);
    [discriminate |].
  injection Hc as <-. reflexivity.
Qed.

(** A key that a given object literal does not hold. *)
Ltac not_a_key :=
  let Hin := fresh "Hin" in
  intros Hin; apply list_elem_of_In in Hin; cbv in Hin;
  repeat (destruct Hin as [Hin | Hin]; [discriminate Hin |]);
  exact Hin.

Section Derivation.
Context `{Collaborators}.

(** Deriving a payload from a well-formed one, with an override that leaves
    uuid, content and the constructor-defaulted dates alone, returns the
    payload with the override's values laid over it. *)
Lemma CreatePayloadFromAnyObject_wellFormed p o :
  wellFormed p ->
  Uuid ∉ Raw.keys o ->
  Raw.uuid o = None -> Raw.content o = None ->
  Raw.created_at o = None -> Raw.updated_at o = None ->
  Raw.dirtiedDate o = None ->
  CreatePayloadFromAnyObject p o =
  Ok (mk (unionFields (fields p) (Raw.keys o)) Constructor
         (uuid p)
         (over (content_type p) (Raw.content_type o))
         (content p)
         (over (deleted p) (Raw.deleted o))
         (over (items_key_id p) (Raw.items_key_id o))
         (over (enc_item_key p) (Raw.enc_item_key o))
         (created_at p) (updated_at p) (dirtiedDate p)
         (over (dirty p) (Raw.dirty o))
         (over (errorDecrypting p) (Raw.errorDecrypting o))
         (over (waitingForKey p) (Raw.waitingForKey o))
         (over (errorDecryptingValueChanged p)
               (Raw.errorDecryptingValueChanged o))
         (over (lastSyncBegan p) (Raw.lastSyncBegan o))
         (over (lastSyncEnd p) (Raw.lastSyncEnd o))
         (over (auth_hash p) (Raw.auth_hash o))
         (over (auth_params p) (Raw.auth_params o))
         (format p) (version p) true).
Proof.
  intros [Hu [c Hc] [u Hup] [d Hd] Hcontent] Hkeys Ho1 Ho2 Ho3 Ho4 Ho5.
  unfold CreatePayloadFromAnyObject, construct, deepFreeze, mergeRaw, toRaw,
    Raw.mk.
  cbn [Raw.uuid Raw.content Raw.created_at Raw.updated_at Raw.dirtiedDate
       Raw.content_type Raw.deleted Raw.items_key_id Raw.enc_item_key
       Raw.dirty Raw.errorDecrypting Raw.waitingForKey
       Raw.errorDecryptingValueChanged Raw.lastSyncBegan Raw.lastSyncEnd
       Raw.auth_hash Raw.auth_params].
  rewrite Ho1, Ho2, Ho3, Ho4, Ho5. cbn [over].
  assert (Hguard : negb (truthyString (uuid p))
                   && includes Uuid (unionFields (fields p) (Raw.keys o))
                   = false).
  { destruct Hu as [Ht | Hnin]; [rewrite Ht; reflexivity |].
    apply andb_false_iff. right. apply includes_false.
    unfold unionFields. rewrite elem_of_app. intros [Hin | Hin];
      [contradiction |].
    apply list_elem_of_In, filter_In in Hin as [Hin _].
    apply Hkeys, list_elem_of_In, Hin. }
  rewrite Hguard, Hc, Hup, Hd. cbn [default newDate].
  f_equal. f_equal.
  - destruct (content p) as [[s | c0] |]; cbn [truthyContent truthyString].
    + destruct Hcontent as (Hne & _ & _). destruct s; [contradiction |].
      reflexivity.
    + destruct Hcontent as (Hfill & _ & _). rewrite Hfill. reflexivity.
    + reflexivity.
  - destruct (over (lastSyncBegan p) (Raw.lastSyncBegan o)); reflexivity.
  - destruct (over (lastSyncEnd p) (Raw.lastSyncEnd o)); reflexivity.
  - destruct (content p) as [[s | c0] |]; cbn [truthyContent truthyString].
    + destruct Hcontent as (Hne & Hf & _). destruct s; [contradiction |].
      symmetry. exact Hf.
    + destruct Hcontent as (_ & Hf & _). symmetry. exact Hf.
    + destruct Hcontent as (Hf & _). symmetry. exact Hf.
  - destruct (content p) as [[s | c0] |]; cbn [truthyContent truthyString].
    + destruct Hcontent as (Hne & _ & Hv). destruct s; [contradiction |].
      symmetry. exact Hv.
    + destruct Hcontent as (Hfill & _ & Hv). rewrite Hv, <- Hfill.
      reflexivity.
    + destruct Hcontent as (_ & Hv). symmetry. exact Hv.
Qed.

(** C9: with no key supplied and none found by the key manager, the
    payload handed back is marked errorDecrypting = true and waitingForKey =
    true; every other payload field, the still-encrypted content among them,
    and with it format and version, is the input's. The two marks join the
    [fields] list. *)
Theorem payloadByDecryptingPayload_without_key (p : t) :
  constructed p ->
  keyToUseForDecryptionOfPayload p = Ok None ->
  exists p',
    payloadByDecryptingPayload p None = Ok p' /\
    errorDecrypting p' = Some true /\
    waitingForKey p' = Some true /\
    (forall f, f <> ErrorDecrypting -> f <> WaitingForKey ->
               get p' f = get p f) /\
    content p' = content p /\ format p' = format p /\
    version p' = version p /\
    fields p' = unionFields (fields p) [WaitingForKey; ErrorDecrypting].
Proof.
  intros Hc Hkey. apply constructed_wellFormed in Hc.
  unfold payloadByDecryptingPayload. rewrite Hkey. cbn [mbind Result_bind].
  rewrite (CreatePayloadFromAnyObject_wellFormed p waitingForKeyOverride Hc)
    by first [reflexivity | not_a_key].
  eexists; split; [reflexivity |].
  cbn [errorDecrypting waitingForKey content format version fields over
       waitingForKeyOverride Raw.errorDecrypting Raw.waitingForKey].
  repeat split.
  intros f Hf1 Hf2. destruct f; try reflexivity; contradiction.
Qed.

(** *** Bulk decryption *)

(** Entries the loop pushes as they are: deleted payloads without content
    and payloads whose content is no string. *)
Definition passedThrough (p : t) : bool :=
  (bool_decide (deleted p = Some true) && bool_decide (content p = None))
  || negb (isStringContent (content p)).

(** The error decrypting an entry on its own throws, if any. *)
Definition decryptionError (entry : Entry) : option Exn :=
  match entry with
  | APayload p =>
      if passedThrough p then None
      else match payloadByDecryptingPayload p None with
           | Ok _ => None
           | Throw e => Some e
           end
  | _ => None
  end.

(** What stands in the output at the position of an input entry. *)
Definition decryptedFrom (input output : Entry) : Prop :=
  match input with
  | Falsy => output = Falsy
  | NotAPayload => False
  | APayload p =>
      if passedThrough p then output = APayload p
      else
        match payloadByDecryptingPayload p None with
        | Ok decrypted => output = APayload decrypted
        | Throw _ =>
            exists marked,
              output = APayload marked /\
              errorDecrypting marked = Some true /\
              errorDecryptingValueChanged marked =
                Some (negb (default false (errorDecrypting p))) /\
              (forall f, f <> ErrorDecrypting ->
                         f <> ErrorDecryptingChanged ->
                         get marked f = get p f)
        end
  end.

(** The entries the bulk decrypt is meant for: falsy ones and payloads. *)
Definition payloadOrFalsy (entry : Entry) : Prop :=
  match entry with
  | Falsy => True
  | NotAPayload => False
  | APayload p => constructed p
  end.

Lemma markError_ok p :
  constructed p ->
  exists marked,
    CreatePayloadFromAnyObject p (errorDecryptingOverride p) = Ok marked /\
    errorDecrypting marked = Some true /\
    errorDecryptingValueChanged marked =
      Some (negb (default false (errorDecrypting p))) /\
    (forall f, f <> ErrorDecrypting -> f <> ErrorDecryptingChanged ->
               get marked f = get p f).
Proof.
  intros Hc. apply constructed_wellFormed in Hc.
  rewrite (CreatePayloadFromAnyObject_wellFormed p
             (errorDecryptingOverride p) Hc)
    by first [reflexivity | not_a_key].
  eexists; split; [reflexivity |].
  cbn [errorDecrypting errorDecryptingValueChanged over
       errorDecryptingOverride Raw.errorDecrypting
       Raw.errorDecryptingValueChanged].
  repeat split.
  intros f Hf1 Hf2. destruct f; try reflexivity; contradiction.
Qed.

Lemma passedThrough_guards p :
  passedThrough p = false ->
  bool_decide (deleted p = Some true) && bool_decide (content p = None)
    = false
  /\ negb (isStringContent (content p)) = false.
Proof. unfold passedThrough. apply orb_false_iff. Qed.

Lemma passedThrough_cases p :
  passedThrough p = true ->
  bool_decide (deleted p = Some true) && bool_decide (content p = None)
    = true
  \/ (bool_decide (deleted p = Some true) && bool_decide (content p = None)
       = false
      /\ negb (isStringContent (content p)) = true).
Proof.
  unfold passedThrough.
  destruct (bool_decide (deleted p = Some true)
            && bool_decide (content p = None)); [left | right]; auto.
Qed.

(** Without [throws] the loop never aborts on payloads and falsy entries:
    it returns what was pushed so far followed by one entry per input. *)
Lemma decryptEach_contained payloads :
  Forall payloadOrFalsy payloads ->
  forall decryptedPayloads : list Entry,
  exists out : list Entry,
    decryptEach false payloads decryptedPayloads
      = Ok (decryptedPayloads ++ out)%list /\
    Forall2 decryptedFrom payloads out.
Proof.
  induction 1 as [| entry rest Hentry _ IH]; intros acc.
  - exists []. rewrite app_nil_r. split; [reflexivity | constructor].
  - assert (Hpush : forall o, decryptedFrom entry o ->
              decryptEach false rest (acc ++ [o]) =
                decryptEach false (entry :: rest) acc ->
              exists out : list Entry,
                decryptEach false (entry :: rest) acc
                  = Ok (acc ++ out)%list /\
                          Forall2 decryptedFrom (entry :: rest) out).
    { intros o Ho Heq.
      destruct (IH (acc ++ [o])%list) as (out & Hrun & Hall).
      exists (o :: out). rewrite <- Heq, Hrun, <- app_assoc.
      split; [reflexivity | constructor; assumption]. }
    destruct entry as [| | p]; [| destruct Hentry |].
    + apply (Hpush Falsy); reflexivity.
    + cbn [payloadOrFalsy] in Hentry.
      destruct (passedThrough p) eqn:Hpass.
      * apply (Hpush (APayload p)).
        -- unfold decryptedFrom. rewrite Hpass. reflexivity.
        -- cbn [decryptEach].
           destruct (passedThrough_cases p Hpass) as [-> | [-> ->]];
             reflexivity.
      * destruct (passedThrough_guards p Hpass) as [Hg1 Hg2].
        destruct (payloadByDecryptingPayload p None) as [d | e] eqn:Hdec.
        -- apply (Hpush (APayload d)).
           ++ unfold decryptedFrom. rewrite Hpass, Hdec. reflexivity.
           ++ cbn [decryptEach]. rewrite Hg1, Hg2, Hdec. reflexivity.
        -- destruct (markError_ok p Hentry) as (m & Hm & Hprops).
           apply (Hpush (APayload m)).
           ++ unfold decryptedFrom. rewrite Hpass, Hdec.
              exists m. split; [reflexivity | exact Hprops].
           ++ cbn [decryptEach]. rewrite Hg1, Hg2, Hdec, Hm. reflexivity.
Qed.

(** With [throws] the loop runs as without it up to the first entry whose
    decryption throws, and throws that error. *)
Lemma decryptEach_rethrows before :
  Forall (fun entry => decryptionError entry = None) before ->
  forall p after e decryptedPayloads,
    constructed p ->
    decryptionError (APayload p) = Some e ->
    decryptEach true (before ++ APayload p :: after) decryptedPayloads
      = Throw e
    \/ exists e', decryptEach true (before ++ APayload p :: after)
                    decryptedPayloads = Throw e'
                  /\ In NotAPayload before.
Proof.
  induction 1 as [| entry rest Hentry _ IH];
    intros p after e acc Hc Herr.
  - left. cbn [app decryptEach]. unfold decryptionError in Herr.
    destruct (passedThrough p) eqn:Hpass; [discriminate |].
    destruct (passedThrough_guards p Hpass) as [-> ->].
    destruct (payloadByDecryptingPayload p None) as [d | e0]; [discriminate |].
    injection Herr as ->.
    destruct (markError_ok p Hc) as (m & -> & _). reflexivity.
  - cbn [app decryptEach]. destruct entry as [| | q].
    + destruct (IH p after e (acc ++ [Falsy]) Hc Herr) as [-> | (e' & -> & Hin)];
        [left; reflexivity | right; exists e'; split; [reflexivity | right; exact Hin]].
    + right. exists NonPayloadObject. split; [reflexivity | left; reflexivity].
    + unfold decryptionError in Hentry.
      destruct (passedThrough q) eqn:Hpass.
      * destruct (passedThrough_cases q Hpass) as [-> | [-> ->]];
          (destruct (IH p after e (acc ++ [APayload q]) Hc Herr)
             as [-> | (e' & -> & Hin)];
           [left; reflexivity
           | right; exists e'; split; [reflexivity | right; exact Hin]]).
      * destruct (passedThrough_guards q Hpass) as [-> ->].
        destruct (payloadByDecryptingPayload q None) as [d | e0];
          [| discriminate].
        destruct (IH p after e (acc ++ [APayload d]) Hc Herr)
          as [-> | (e' & -> & Hin)];
          [left; reflexivity
          | right; exists e'; split; [reflexivity | right; exact Hin]].
Qed.

(** C3: on a list of payloads and falsy entries the bulk decrypt returns a
    list of the same length whose i-th entry answers the i-th input: falsy
    entries, deleted payloads without content and payloads with non-string
    content are passed through as they are; a payload whose decryption
    throws is answered by a payload marked errorDecrypting = true with
    errorDecryptingValueChanged the negation of the input's errorDecrypting,
    and the loop goes on. With [throws] set, the first such error is thrown
    to the caller instead. *)
Theorem payloadsByDecryptingPayloads_contains_errors (payloads : list Entry) :
  Forall payloadOrFalsy payloads ->
  (exists out,
     payloadsByDecryptingPayloads payloads false = Ok out /\
     length out = length payloads /\
     Forall2 decryptedFrom payloads out) /\
  (forall before p after e,
     payloads = before ++ APayload p :: after ->
     Forall (fun entry => decryptionError entry = None) before ->
     decryptionError (APayload p) = Some e ->
     payloadsByDecryptingPayloads payloads true = Throw e).
Proof.
  intros Hall. split.
  - destruct (decryptEach_contained payloads Hall []) as (out & Hrun & Hrel).
    exists out. split; [exact Hrun |]. split; [| exact Hrel].
    symmetry. exact (Forall2_length _ _ _ Hrel).
  - intros before p after e -> Hbefore Herr.
    unfold payloadsByDecryptingPayloads.
    apply Forall_app in Hall as [Hb Hp]. apply Forall_cons in Hp as [Hp _].
    destruct (decryptEach_rethrows before Hbefore p after e [] Hp Herr)
      as [Hthrow | (e' & _ & Hin)]; [exact Hthrow |].
    exfalso. rewrite Forall_forall in Hb.
    apply (Hb NotAPayload). apply list_elem_of_In. exact Hin.
Qed.

(** *** Encryption by intent *)

(** The shape of [content] each format stands for. *)
Definition contentOfFormat (format : PayloadFormat)
    (content : option ContentValue) : Prop :=
  match format with
  | EncryptedString =>
      exists s, content = Some (StringContent s) /\ s <> ""
                /\ String.prefix "000" s = false
  | DecryptedBase64String =>
      exists s, content = Some (StringContent s)
                /\ String.prefix "000" s = true
  | DecryptedBareObject => exists c, content = Some (ObjectContent c)
  | DeletedFormat => True
  end.

(** The operators' side of the bargain: parameters generated for a format
    carry content of that format. *)
Definition operatorsHonourFormat : Prop :=
  forall operator payload key format parameters,
    generateEncryptionParameters operator payload key (Some format)
      = Ok (Some parameters) ->
    contentOfFormat format (Raw.content parameters).

Lemma encryptAs_format payload key version f p' :
  operatorsHonourFormat ->
  f <> DeletedFormat ->
  encryptAs payload key version (Some f) = Ok p' ->
  format p' = f.
Proof.
  intros Hop Hf. unfold encryptAs.
  destruct (operatorForVersion version) as [[op | inherited] | e];
    [| discriminate | discriminate].
  cbn [mbind Result_bind callGenerateEncryptionParameters].
  destruct (generateEncryptionParameters op payload key (Some f))
    as [[ps |] | e] eqn:Hgen; cbn [mbind Result_bind]; try discriminate.
  specialize (Hop _ _ _ _ _ Hgen).
  unfold CreatePayloadFromAnyObject, construct, deepFreeze.
  destruct (negb _ && includes Uuid _); [discriminate |].
  intros [= <-]. unfold Raw.mk. cbn [format mergeRaw Raw.content].
  destruct f; cbn [contentOfFormat] in Hop.
  - destruct Hop as (s & -> & Hne & Hpre). cbn [over truthyContent].
    destruct s; [contradiction |]. cbn [truthyString].
    unfold V000Base64Decrypted. rewrite Hpre. reflexivity.
  - destruct Hop as (c & ->). reflexivity.
  - destruct Hop as (s & -> & Hpre). cbn [over truthyContent].
    destruct s; [discriminate Hpre |]. cbn [truthyString].
    unfold V000Base64Decrypted. rewrite Hpre. reflexivity.
  - contradiction.
Qed.

(** The format table on its own, as the claim has it. *)
Lemma payloadContentFormatForIntent_table (key : option Key.t)
    (intent : Intent) :
  payloadContentFormatForIntent key intent =
  match key, intent with
  | Some _, (Sync | LocalStorageEncrypted | FileEncrypted
             | LocalStoragePreferEncrypted) => Ok (Some EncryptedString)
  | Some _, (LocalStorageDecrypted | FileDecrypted) =>
      Throw UnhandledFormatCase
  | None, (LocalStoragePreferEncrypted | LocalStorageDecrypted
           | FileDecrypted) => Ok (Some DecryptedBareObject)
  | None, Sync => Ok (Some DecryptedBase64String)
  | None, (LocalStorageEncrypted | FileEncrypted) => Ok None
  end.
Proof. destruct key, intent; reflexivity. Qed.

(** C1 (amended): [payloadByEncryptingPayload] works with the key supplied
    or, when none is supplied and the intent is not a decrypted one, with the
    key the key manager finds. With a key, intents Sync,
    LocalStorageEncrypted, FileEncrypted and LocalStoragePreferEncrypted ask
    the operator for EncryptedString and the payload produced has that
    format. With no key, every intent for which [intentRequiresEncryption]
    holds fails with MissingKey and no payload is returned; only an intent
    for which it does not hold reaches the format table, where
    LocalStoragePreferEncrypted, LocalStorageDecrypted and FileDecrypted give
    DecryptedBareObject and Sync gives DecryptedBase64String. *)
Theorem payloadByEncryptingPayload_format_by_intent
    (payload : t) (key : option Key.t) (intent : Intent) :
  operatorsHonourFormat ->
  (forall k, key = Some k ->
     keyForEncryption payload key intent = Ok (Some k)) /\
  (forall k,
     keyForEncryption payload key intent = Ok (Some k) ->
     intent ∈ [Sync; LocalStorageEncrypted; FileEncrypted;
               LocalStoragePreferEncrypted] ->
     payloadByEncryptingPayload payload key intent
       = encryptAs payload (Some k) (Key.version k) (Some EncryptedString) /\
     forall p', payloadByEncryptingPayload payload key intent = Ok p' ->
                format p' = EncryptedString) /\
  (keyForEncryption payload key intent = Ok None ->
     intentRequiresEncryption intent = true ->
     payloadByEncryptingPayload payload key intent = Throw MissingKey) /\
  (keyForEncryption payload key intent = Ok None ->
     intentRequiresEncryption intent = false ->
     intent ∈ [LocalStoragePreferEncrypted; LocalStorageDecrypted;
               FileDecrypted] ->
     payloadByEncryptingPayload payload key intent
       = encryptAs payload None latestVersion (Some DecryptedBareObject) /\
     forall p', payloadByEncryptingPayload payload key intent = Ok p' ->
                format p' = DecryptedBareObject) /\
  (keyForEncryption payload key intent = Ok None ->
     intentRequiresEncryption intent = false ->
     intent = Sync ->
     payloadByEncryptingPayload payload key intent
       = encryptAs payload None latestVersion (Some DecryptedBase64String) /\
     forall p', payloadByEncryptingPayload payload key intent = Ok p' ->
                format p' = DecryptedBase64String).
Proof.
  intros Hop. split; [| split; [| split; [| split]]].
  - intros k ->. reflexivity.
  - intros k Hkey Hintent.
    assert (Heq : payloadByEncryptingPayload payload key intent
              = encryptAs payload (Some k) (Key.version k)
                  (Some EncryptedString)).
    { unfold payloadByEncryptingPayload. rewrite Hkey.
      cbn [mbind Result_bind]. rewrite bool_decide_eq_true_2 by eauto.
      cbn [negb andb].
      repeat (apply elem_of_cons in Hintent as [-> | Hintent];
              [reflexivity |]).
      apply elem_of_nil in Hintent. contradiction. }
    split; [exact Heq |]. intros p' Hrun. rewrite Heq in Hrun.
    apply (encryptAs_format _ _ _ _ _ Hop) in Hrun; [exact Hrun | discriminate].
  - intros Hkey Hreq. unfold payloadByEncryptingPayload. rewrite Hkey.
    cbn [mbind Result_bind].
    rewrite bool_decide_eq_false_2 by (intros [? ?]; discriminate).
    rewrite Hreq. reflexivity.
  - intros Hkey Hreq Hintent.
    assert (Heq : payloadByEncryptingPayload payload key intent
              = encryptAs payload None latestVersion
                  (Some DecryptedBareObject)).
    { unfold payloadByEncryptingPayload. rewrite Hkey.
      cbn [mbind Result_bind]. rewrite Hreq, andb_false_r.
      repeat (apply elem_of_cons in Hintent as [-> | Hintent];
              [reflexivity |]).
      apply elem_of_nil in Hintent. contradiction. }
    split; [exact Heq |]. intros p' Hrun. rewrite Heq in Hrun.
    apply (encryptAs_format _ _ _ _ _ Hop) in Hrun; [exact Hrun | discriminate].
  - intros Hkey Hreq ->.
    assert (Heq : payloadByEncryptingPayload payload key Sync
              = encryptAs payload None latestVersion
                  (Some DecryptedBase64String)).
    { unfold payloadByEncryptingPayload. rewrite Hkey.
      cbn [mbind Result_bind]. rewrite Hreq, andb_false_r. reflexivity. }
    split; [exact Heq |]. intros p' Hrun. rewrite Heq in Hrun.
    apply (encryptAs_format _ _ _ _ _ Hop) in Hrun; [exact Hrun | discriminate].
Qed.

End Derivation.

(** *** A small world to run the manager in *)

Definition demoKey : Key.t := Key.mk "004" "items-key".

(** The keys under which an array of an ECMAScript 5 engine inherits a
    truthy value: the members of [Array.prototype] and of
    [Object.prototype]. *)
Definition es5ArrayKeys : list string :=
  [ "constructor"; "toString"; "toLocaleString"; "concat"; "join"; "pop";
    "push"; "reverse"; "shift"; "slice"; "sort"; "splice"; "unshift";
    "indexOf"; "lastIndexOf"; "every"; "some"; "forEach"; "map"; "filter";
    "reduce"; "reduceRight"; "valueOf"; "hasOwnProperty"; "isPrototypeOf";
    "propertyIsEnumerable"; "__proto__" ].

(** Collaborators for the examples: intents require encryption as
    specified; the key manager knows the key of payloads that name items key
    "k-1" and no other; the operators answer
    with content of the format they are asked for, and the decrypting one
    refuses (throws on) an empty [enc_item_key]. *)
Definition demo : Collaborators := {|
  inheritedByArray key := bool_decide (key ∈ es5ArrayKeys);
  isDecryptedIntent intent :=
    match intent with
    | LocalStorageDecrypted | FileDecrypted => true
    | _ => false
    end;
  intentRequiresEncryption := specifiedIntentRequiresEncryption;
  keyToUseForEncryptionOfPayload _ _ := Ok None;
  keyToUseForDecryptionOfPayload payload :=
    Ok (if decide (items_key_id payload = Some "k-1")
        then Some demoKey else None);
  generateEncryptionParameters _ payload _ format :=
    Ok (Some
      match format with
      | Some EncryptedString =>
          Raw.mk None None (Some (StringContent "004:n:c:a")) None None
                 (Some "004:n:k:a") None None None None None None None None
                 None None None
      | Some DecryptedBase64String =>
          Raw.mk None None (Some (StringContent "000e30=")) None None None
                 None None None None None None None None None None None
      | _ =>
          Raw.mk None None
                 (Some (ObjectContent (Content.mk (Some "004") (Some []) [])))
                 None None None None None None None None None None None None
                 None None
      end);
  CreateEncryptionParameters := toRaw;
  generateDecryptedParameters _ parameters _ :=
    if decide (Raw.enc_item_key parameters = Some "")
    then Throw (CollaboratorError "empty enc_item_key")
    else
      Ok (Raw.mk None None
            (Some (ObjectContent (Content.mk (Some "004") (Some []) [])))
            None None None None None None None (Some false) (Some false)
            None None None None None);
  clock := 7
|}.

(** Payloads for the examples, each built by the constructor. *)
Definition build (rawPayload : Raw.t) : t :=
  match construct 7 rawPayload None None with
  | Ok p => p
  | Throw _ =>
      mk [] Constructor None None None None None None None None None None
         None None None None None None None DeletedFormat None true
  end.

Definition encryptedNote (uuid items_key_id content : string) : t :=
  build (Raw.mk (Some uuid) (Some "Note") (Some (StringContent content)) None
                (Some items_key_id) (Some "004:n:k:a") None None None None
                None None None None None None None).

Lemma encryptedNote_constructed uuid items_key_id content :
  uuid <> "" -> constructed (encryptedNote uuid items_key_id content).
Proof.
  intros Hne. exists 7%Z, (Raw.mk (Some uuid) (Some "Note")
    (Some (StringContent content)) None (Some items_key_id)
    (Some "004:n:k:a") None None None None None None None None None None
    None), None, None.
  unfold encryptedNote, build, construct. cbn [Raw.uuid].
  destruct uuid; [contradiction | reflexivity].
Qed.

Lemma payloadByDecryptingPayload_without_key_witness :
  exists p',
    @payloadByDecryptingPayload demo
      (encryptedNote "u-1" "k-2" "004:nonce:ct:aad") None = Ok p' /\
    errorDecrypting p' = Some true /\ waitingForKey p' = Some true /\
    content p' = Some (StringContent "004:nonce:ct:aad").
Proof.
  destruct (@payloadByDecryptingPayload_without_key demo
              (encryptedNote "u-1" "k-2" "004:nonce:ct:aad")
              (encryptedNote_constructed "u-1" "k-2" "004:nonce:ct:aad"
                 ltac:(discriminate))
              eq_refl)
    as (p' & Hrun & He & Hw & _ & Hcontent & _).
  exists p'. repeat split; assumption.
Defined.

Definition plainNote : t :=
  build (Raw.mk (Some "u-9") (Some "Note")
                (Some (ObjectContent (Content.mk (Some "004") None [])))
                None None None None None None (Some true) None None None
                None None None None).

Lemma demo_operatorsHonourFormat : @operatorsHonourFormat demo.
Proof.
  intros operator payload key f parameters Hgen.
  cbn [generateEncryptionParameters demo] in Hgen.
  destruct f; injection Hgen as <-; cbn [contentOfFormat Raw.content].
  - eexists. repeat split. discriminate.
  - eexists. reflexivity.
  - eexists. split; reflexivity.
  - exact I.
Qed.

(** C1 as stated fails: with intents requiring encryption as specified, no
    key supplied and none found, intent Sync does not yield
    DecryptedBase64String and LocalStoragePreferEncrypted does not yield
    DecryptedBareObject; both requests stop at the missing-key guard,
    although the format table on its own has a row for each. *)
Lemma payloadByEncryptingPayload_sync_without_key :
  @intentRequiresEncryption demo Sync = true /\
  @keyForEncryption demo plainNote None Sync = Ok None /\
  payloadContentFormatForIntent None Sync = Ok (Some DecryptedBase64String) /\
  @payloadByEncryptingPayload demo plainNote None Sync = Throw MissingKey /\
  @keyForEncryption demo plainNote None LocalStoragePreferEncrypted
    = Ok None /\
  payloadContentFormatForIntent None LocalStoragePreferEncrypted
    = Ok (Some DecryptedBareObject) /\
  @payloadByEncryptingPayload demo plainNote None LocalStoragePreferEncrypted
    = Throw MissingKey.
Proof. repeat split. Qed.

Lemma payloadByEncryptingPayload_format_by_intent_witness :
  @operatorsHonourFormat demo /\
  (exists p', @payloadByEncryptingPayload demo plainNote (Some demoKey) Sync
                = Ok p' /\ format p' = EncryptedString) /\
  (exists p', @payloadByEncryptingPayload demo plainNote None FileDecrypted
                = Ok p' /\ format p' = DecryptedBareObject) /\
  @payloadByEncryptingPayload demo plainNote None LocalStorageEncrypted
    = Throw MissingKey.
Proof.
  split; [exact demo_operatorsHonourFormat |].
  split; [| split].
  - destruct (@payloadByEncryptingPayload_format_by_intent demo plainNote
                (Some demoKey) Sync demo_operatorsHonourFormat)
      as (_ & Hkey & _).
    destruct (Hkey demoKey eq_refl ltac:(apply list_elem_of_here))
      as [_ Hformat].
    eexists. split; [reflexivity |]. apply Hformat. reflexivity.
  - destruct (@payloadByEncryptingPayload_format_by_intent demo plainNote
                None FileDecrypted demo_operatorsHonourFormat)
      as (_ & _ & _ & Hnone & _).
    destruct (Hnone eq_refl eq_refl
                ltac:(do 2 apply list_elem_of_further;
                      apply list_elem_of_here))
      as [_ Hformat].
    eexists. split; [reflexivity |]. apply Hformat. reflexivity.
  - destruct (@payloadByEncryptingPayload_format_by_intent demo plainNote
                None LocalStorageEncrypted demo_operatorsHonourFormat)
      as (_ & _ & Hmissing & _).
    exact (Hmissing eq_refl eq_refl).
Defined.

(** Were Sync and LocalStoragePreferEncrypted not to require encryption, the
    same calls would reach the table's rows. *)
Definition lenient : Collaborators := {|
  inheritedByArray := @inheritedByArray demo;
  isDecryptedIntent := @isDecryptedIntent demo;
  intentRequiresEncryption intent :=
    match intent with
    | LocalStorageEncrypted | FileEncrypted => true
    | _ => false
    end;
  keyToUseForEncryptionOfPayload := @keyToUseForEncryptionOfPayload demo;
  keyToUseForDecryptionOfPayload := @keyToUseForDecryptionOfPayload demo;
  generateEncryptionParameters := @generateEncryptionParameters demo;
  CreateEncryptionParameters := @CreateEncryptionParameters demo;
  generateDecryptedParameters := @generateDecryptedParameters demo;
  clock := @clock demo
|}.

Example payloadByEncryptingPayload_lenient_rows :
  (exists p', @payloadByEncryptingPayload lenient plainNote None Sync = Ok p'
              /\ format p' = DecryptedBase64String) /\
  (exists p', @payloadByEncryptingPayload lenient plainNote None
                LocalStoragePreferEncrypted = Ok p'
              /\ format p' = DecryptedBareObject).
Proof. split; eexists; split; reflexivity. Qed.

Definition tombstoneRaw : Raw.t :=
  Raw.mk (Some "u-4") (Some "Note") None (Some true) None None None None None
         None None None None None None None None.

(** The list the bulk decrypt is run on below: a falsy entry, a note whose
    key is known, a note of an unknown protocol version, a note whose key
    has not arrived, and a deleted payload without content. *)
Definition demoEntries : list Entry :=
  [ Falsy;
    APayload (encryptedNote "u-1" "k-1" "004:nonce:ct:aad");
    APayload (encryptedNote "u-2" "k-1" "009:zzz");
    APayload (encryptedNote "u-3" "k-2" "004:nonce:ct:aad");
    APayload (build tombstoneRaw) ].

Lemma demoEntries_payloadOrFalsy : Forall payloadOrFalsy demoEntries.
Proof.
  repeat constructor;
    try (apply encryptedNote_constructed; discriminate).
  exists 7%Z, tombstoneRaw, None, None. reflexivity.
Qed.

Lemma payloadsByDecryptingPayloads_contains_errors_witness :
  (exists out,
     @payloadsByDecryptingPayloads demo demoEntries false = Ok out /\
     length out = 5) /\
  @payloadsByDecryptingPayloads demo demoEntries true
    = Throw (UnableToFindOperator "009").
Proof.
  destruct (@payloadsByDecryptingPayloads_contains_errors demo demoEntries
              demoEntries_payloadOrFalsy) as [(out & Hrun & Hlen & _) Hthrows].
  split.
  - exists out. split; [exact Hrun | exact Hlen].
  - apply (Hthrows
             [Falsy; APayload (encryptedNote "u-1" "k-1" "004:nonce:ct:aad")]
             (encryptedNote "u-2" "k-1" "009:zzz")
             [APayload (encryptedNote "u-3" "k-2" "004:nonce:ct:aad");
              APayload (build tombstoneRaw)]).
    + reflexivity.
    + repeat constructor.
    + reflexivity.
Defined.

End ProtocolManagerFacts.

Module IntegrityFacts.

(** *** The sort *)

Section Sort.
Context {A : Type} (compare : A -> A -> Z).

(** [a] may stand before [b]. *)
Definition inOrder (a b : A) : Prop := (compare a b <= 0)%Z.

Hypothesis compare_total : forall a b, inOrder a b \/ inOrder b a.
Hypothesis compare_trans :
  forall a b c, inOrder a b -> inOrder b c -> inOrder a c.

Lemma insertSorted_Permutation x l : insertSorted compare x l ≡ₚ x :: l.
Proof.
  induction l as [| y l IH]; cbn [insertSorted]; [reflexivity |].
  destruct (compare x y <=? 0)%Z; [reflexivity |].
  rewrite IH. apply perm_swap.
Qed.

Lemma sort_Permutation l : sort compare l ≡ₚ l.
Proof.
  induction l as [| x l IH]; [reflexivity |].
  unfold sort in *. cbn [foldr]. rewrite insertSorted_Permutation.
  apply perm_skip, IH.
Qed.

Lemma insertSorted_StronglySorted x l :
  StronglySorted inOrder l -> StronglySorted inOrder (insertSorted compare x l).
Proof.
  induction 1 as [| y l Hsorted IH Hy]; cbn [insertSorted].
  - constructor; constructor.
  - destruct (compare x y <=? 0)%Z eqn:Hxy.
    + apply Z.leb_le in Hxy. constructor.
      * constructor; assumption.
      * constructor; [exact Hxy |].
        eapply Forall_impl; [exact Hy |].
        intros z Hz. exact (compare_trans x y z Hxy Hz).
    + apply Z.leb_gt in Hxy. constructor; [exact IH |].
      assert (Hyx : inOrder y x).
      { destruct (compare_total x y) as [Hle | Hle]; [| exact Hle].
        unfold inOrder in Hle. lia. }
      rewrite (insertSorted_Permutation x l). constructor; assumption.
Qed.

Lemma sort_StronglySorted l : StronglySorted inOrder (sort compare l).
Proof.
  induction l as [| x l IH]; [constructor |].
  unfold sort in *. cbn [foldr]. apply insertSorted_StronglySorted, IH.
Qed.

End Sort.

Lemma StronglySorted_weaken {A : Type} (R1 R2 : A -> A -> Prop) (l : list A) :
  (forall a b, R1 a b -> R2 a b) ->
  StronglySorted R1 l -> StronglySorted R2 l.
Proof.
  intros Himpl. induction 1 as [| x l _ IH Hx]; constructor; [exact IH |].
  eapply Forall_impl; [exact Hx |]. intros y. apply Himpl.
Qed.

Section Hash.
Context `{IntegrityCollaborators}.

Lemma byUpdatedAtDescending_inOrder a b :
  inOrder byUpdatedAtDescending a b <->
  (Item.updated_at b <= Item.updated_at a)%Z.
Proof. unfold inOrder, byUpdatedAtDescending. lia. Qed.

Lemma sort_byUpdatedAtDescending l :
  sort byUpdatedAtDescending l ≡ₚ l /\
  StronglySorted (fun a b => (Item.updated_at b <= Item.updated_at a)%Z)
                 (sort byUpdatedAtDescending l).
Proof.
  split; [apply sort_Permutation |].
  apply (StronglySorted_weaken (inOrder byUpdatedAtDescending)).
  - intros a b. apply byUpdatedAtDescending_inOrder.
  - apply sort_StronglySorted.
    + intros a b. rewrite !byUpdatedAtDescending_inOrder. lia.
    + intros a b c. rewrite !byUpdatedAtDescending_inOrder. lia.
Qed.

Lemma nonDeletedItems_filter (items : list Item.t) :
  nonDeletedItems items
  = filter (fun item => Item.deleted item = false /\ Item.dummy item = false)
           items.
Proof.
  unfold nonDeletedItems.
  induction items as [| item items IH]; [reflexivity |].
  cbn [List.filter]. rewrite filter_cons, IH.
  destruct item as [u t [] []]; cbn [Item.deleted Item.dummy negb andb].
  - rewrite decide_False by (intros [? ?]; discriminate). reflexivity.
  - rewrite decide_False by (intros [? ?]; discriminate). reflexivity.
  - rewrite decide_False by (intros [? ?]; discriminate). reflexivity.
  - rewrite decide_True by (split; reflexivity). reflexivity.
Qed.

(** C2: for every collection of items the model manager holds, the sync
    manager's [computeDataIntegrityHash] is the SHA-256 digest of the
    comma-joined [updatedAtTimestamp()] values of a list [ordered] that
    holds exactly the non-deleted, non-dummy items, each as often as the
    collection does, and runs by [updated_at] descending. *)
Theorem computeDataIntegrityHash_digest (items : list Item.t) :
  exists ordered,
    computeDataIntegrityHash items
      = sha256 (String.concat ","
                  (map (fun item => pretty (updatedAtTimestamp item))
                       ordered)) /\
    ordered ≡ₚ filter (fun item => Item.deleted item = false
                                   /\ Item.dummy item = false) items /\
    StronglySorted
      (fun a b => (Item.updated_at b <= Item.updated_at a)%Z) ordered.
Proof.
  exists (sort byUpdatedAtDescending (nonDeletedItems items)).
  destruct (sort_byUpdatedAtDescending (nonDeletedItems items))
    as [Hperm Hsorted].
  split; [| split; [| exact Hsorted]].
  - unfold computeDataIntegrityHash, join. cbn zeta.
    rewrite <- list_fmap_compose. reflexivity.
  - rewrite Hperm. rewrite nonDeletedItems_filter. reflexivity.
Qed.

(** The protocol manager's namesake hashes all non-dummy items, deleted
    ones too; the two functions agree on collections without deleted
    items. *)
Lemma protocolManager_computeDataIntegrityHash_agrees (items : list Item.t) :
  Forall (fun item => Item.deleted item = false) items ->
  protocolManager_computeDataIntegrityHash items
    = computeDataIntegrityHash items.
Proof.
  intros Hnone.
  unfold protocolManager_computeDataIntegrityHash, computeDataIntegrityHash.
  cbn zeta. do 4 f_equal. unfold allNondummyItems, nonDeletedItems.
  induction Hnone as [| item items Hitem _ IH]; [reflexivity |].
  cbn [List.filter]. rewrite Hitem. cbn [negb andb]. rewrite IH.
  reflexivity.
Qed.

End Hash.

(** A crypto provider that hands back what it is given shows what is
    hashed: of an item, a deleted item and a dummy, the sync manager hashes
    the first alone, the protocol manager's namesake the first two. *)
Definition transparent : IntegrityCollaborators := {|
  sha256 input := input;
  updatedAtTimestamp := Item.updated_at
|}.

Example computeDataIntegrityHash_on_three_items :
  let items := [ Item.mk "a" 3 false false; Item.mk "b" 5 true false;
                 Item.mk "c" 4 false true; Item.mk "d" 9 false false ] in
  @computeDataIntegrityHash transparent items = "9,3" /\
  @protocolManager_computeDataIntegrityHash transparent items = "9,5,3".
Proof. vm_compute. split; reflexivity. Qed.

End IntegrityFacts.

Module ArrayFacts.

Section Subtract.
Context {A : Type} `{EqDecision A}.

Lemma removeFirst_head (x : A) (l : list A) : removeFirst x (x :: l) = l.
Proof. cbn [removeFirst]. rewrite decide_True by reflexivity. reflexivity. Qed.

(** Taking a front slice off an array leaves the rest of it. *)
Lemma subtractFromArray_firstn (count : nat) (array : list A) :
  subtractFromArray array (firstn count array) = skipn count array.
Proof.
  revert array. induction count as [| count IH]; intros [| x array];
    try reflexivity.
  cbn [firstn skipn]. unfold subtractFromArray. cbn [foldl].
  rewrite removeFirst_head. apply IH.
Qed.

(** Taking the front part of a queue off it leaves what was appended. *)
Lemma subtractFromArray_prefix (front added : list A) :
  subtractFromArray (front ++ added) front = added.
Proof.
  unfold subtractFromArray.
  induction front as [| x front IH]; [reflexivity |].
  cbn [app foldl]. rewrite removeFirst_head. exact IH.
Qed.

End Subtract.

End ArrayFacts.

Module OperationFacts.
Import Operation ArrayFacts.

Section Rounds.
Context {P : Type} `{EqDecision P}.

Lemma popPayloads_front (op : t P) (count : nat) :
  popPayloads op count
  = (firstn count (pendingPayloads op),
     setPending op (skipn count (pendingPayloads op))).
Proof. unfold popPayloads. rewrite subtractFromArray_firstn. reflexivity. Qed.

Lemma run_not_cancleled (op : t P) :
  cancleled op = false ->
  run op
  = (lockCancelation
       (setPending (setRunning op true)
                   (skipn upLimit (pendingPayloads op))),
     Some (Request.mk (firstn upLimit (pendingPayloads op))
                      (lastSyncToken op) (paginationToken op) downLimit
                      (checkIntegrity op))).
Proof.
  intros Hc. unfold run. rewrite Hc, popPayloads_front. reflexivity.
Qed.


(** *** Cancellation *)

(** What [tryCancel] returns is whether it set [cancleled]; a call that
    returns [false] changes nothing. *)
Lemma tryCancel_reports (op : t P) :
  (snd (tryCancel op) = true -> cancleled (fst (tryCancel op)) = true) /\
  (snd (tryCancel op) = false -> fst (tryCancel op) = op).
Proof.
  unfold tryCancel. destruct (negb (default false (cancelable op)));
    cbn [fst snd]; split; intros; try discriminate; reflexivity.
Qed.

(** C4, the code against the claim. [tryCancel] tests [!this.cancelable],
    so it cancels exactly when cancellation is locked. For an operation
    created over any payloads and any response of the server:
    - while the round is in flight (after [lockCancelation], before the
      response) [tryCancel] returns [true] and sets [cancleled], and when
      the response arrives no further round is posted, whatever is still
      pending;
    - between rounds (after [unlockCancelation], while the receiver runs)
      [tryCancel] returns [false] and changes nothing, so the next round is
      posted as if it had not been called.
    The claim states the opposite for both moments; only its last part
    holds: [true] is returned exactly when the call took effect. *)
Theorem tryCancel_cancels_in_flight_not_between
    (payloads : list P) (response : Response.t) :
  (* in flight *)
  cancelable (fst (run (create payloads None None false))) = Some false /\
  tryCancel (fst (run (create payloads None None false)))
    = (setCancleled (fst (run (create payloads None None false))), true) /\
  snd (finishRun
         (resumeRun
            (fst (tryCancel (fst (run (create payloads None None false)))))
            response)) = None /\
  (* between rounds *)
  cancelable (resumeRun (fst (run (create payloads None None false))) response)
    = Some true /\
  tryCancel (resumeRun (fst (run (create payloads None None false))) response)
    = (resumeRun (fst (run (create payloads None None false))) response,
       false) /\
  (skipn upLimit payloads <> [] ->
   exists next,
     snd (finishRun
            (fst (tryCancel
                    (resumeRun (fst (run (create payloads None None false)))
                               response))))
     = Some next).
Proof.
  rewrite (run_not_cancleled (create payloads None None false) eq_refl).
  cbn [fst]. split; [reflexivity |]. split; [reflexivity |].
  split.
  { unfold finishRun. cbn [tryCancel cancelable lockCancelation setCancelable
      default negb fst].
    destruct (needsMoreSync _); reflexivity. }
  split; [reflexivity |]. split; [reflexivity |].
  intros Hleft. cbn [tryCancel resumeRun unlockCancelation cancelable
    setCancelable default negb fst].
  unfold finishRun, needsMoreSync.
  cbn [pendingPayloads lockCancelation setCancelable setPending setRunning
       create].
  rewrite bool_decide_eq_false_2 by exact Hleft. cbn [negb orb].
  rewrite run_not_cancleled by reflexivity. eexists. reflexivity.
Qed.

End Rounds.

(** An operation over 200 payloads, told apart by their number. *)
Definition twoHundred : t nat := create (seq 0 200) None None false.



(** C4 at a concrete operation: 200 payloads, 150 posted, 50 pending, the
    server answering without a pagination token. Cancelled in flight, the
    operation stops with the 50 unposted; "cancelled" between rounds, it
    posts them. *)
Example tryCancel_on_twoHundred :
  let inFlight := fst (run twoHundred) in
  let response := Response.mk (Some "t1") None 150 in
  snd (tryCancel inFlight) = true /\
  finishRun (resumeRun (fst (tryCancel inFlight)) response)
    = (resumeRun (fst (tryCancel inFlight)) response, None) /\
  pendingPayloads (resumeRun (fst (tryCancel inFlight)) response)
    = seq 150 50 /\
  snd (tryCancel (resumeRun inFlight response)) = false /\
  snd (finishRun (fst (tryCancel (resumeRun inFlight response))))
    = Some (Request.mk (seq 150 50) (Some "t1") None 150 false).
Proof. vm_compute. repeat split. Qed.

End OperationFacts.

Module SyncManagerFacts.
Import SyncManager ArrayFacts.

(** The end of a round whose snapshot is the front of the queue. *)
Lemma syncEnd_after_round m snapshot added :
  resolveQueue m = snapshot ++ added ->
  syncEnd m snapshot
  = (mk (locked m) false (databaseLoaded m) added (tail (spawnQueue m))
        (nextCaller m),
     snapshot,
     match spawnQueue m with
     | promise :: _ => [SpawnedSync promise]
     | [] => if bool_decide (added = []) then [] else [FreshSync]
     end).
Proof.
  intros Hqueue. unfold syncEnd, popSpawnQueue.
  cbn [locked syncInProgress databaseLoaded resolveQueue spawnQueue
       nextCaller].
  rewrite Hqueue, subtractFromArray_prefix.
  destruct (spawnQueue m) as [| promise rest]; [| reflexivity].
  cbn [resolveQueue tail]. destruct (bool_decide (added = [])); reflexivity.
Qed.

(** What holds of the manager at every moment of every session: callers are
    numbered as they call; the snapshot of the round that is executing is
    the front of the queue; a round executes only with [syncInProgress]
    set. *)
Record invariant (w : World) : Prop := {
  inv_fresh :
    Forall (fun c => c < nextCaller (manager w))
           (resolvedSoFar w ++ resolveQueue (manager w));
  inv_spawn :
    Forall (fun c => c < nextCaller (manager w)) (spawnQueue (manager w));
  inv_sorted :
    StronglySorted lt (resolvedSoFar w ++ resolveQueue (manager w));
  inv_apart :
    forall c, c ∈ spawnQueue (manager w) ->
              c ∉ resolvedSoFar w ++ resolveQueue (manager w);
  inv_snapshot :
    forall r,
      current w = Some r ->
      exists added,
        resolveQueue (manager w) = inTimeResolveQueue r ++ added;
  inv_progress :
    is_Some (current w) -> syncInProgress (manager w) = true
}.

Lemma invariant_start : invariant start.
Proof.
  split; cbn.
  - constructor.
  - constructor.
  - constructor.
  - intros c Hc. apply elem_of_nil in Hc. contradiction.
  - discriminate.
  - intros [? ?]; discriminate.
Qed.

Lemma Forall_lt_S (l : list Caller) (n : Caller) :
  Forall (fun c => c < n) l -> Forall (fun c => c < S n) l.
Proof.
  intros Hall. eapply Forall_impl; [exact Hall |].
  intros c Hc. cbn beta in Hc. lia.
Qed.

Lemma fresh_not_in (l : list Caller) (n : Caller) :
  Forall (fun c => c < n) l -> n ∉ l.
Proof.
  intros Hall Hin. rewrite Forall_forall in Hall.
  specialize (Hall n Hin). cbn beta in Hall. lia.
Qed.

Lemma StronglySorted_snoc (l : list Caller) (n : Caller) :
  StronglySorted lt l -> Forall (fun c => c < n) l ->
  StronglySorted lt (l ++ [n]).
Proof.
  induction 1 as [| x l Hs IH Hx]; intros Hall; cbn [app].
  - repeat constructor.
  - apply Forall_cons in Hall as [Hxn Hall]. constructor.
    + apply IH. exact Hall.
    + apply Forall_app. split; [exact Hx | repeat constructor; exact Hxn].
Qed.

Lemma StronglySorted_lt_NoDup (l : list Caller) :
  StronglySorted lt l -> NoDup l.
Proof.
  induction 1 as [| c l _ IH Hc]; constructor; [| exact IH].
  intros Hin. rewrite Forall_forall in Hc. specialize (Hc c Hin). lia.
Qed.

Section Session.
Context `{Target}.

Lemma exec_snoc events event :
  exec (events ++ [event]) = step (exec events) event.
Proof. unfold exec. rewrite foldl_app. reflexivity. Qed.

Lemma exec_app (events more : list Event) :
  exec (events ++ more) = foldl step (exec events) more.
Proof. unfold exec. apply foldl_app. Qed.

(** A call at the check, in full. *)
Lemma step_SyncReachesCheck (w : World) (i : nat) (c : Call) :
  preparing w !! i = Some c ->
  step w (SyncReachesCheck i)
  = if syncInProgress (manager w) || negb (databaseLoaded (manager w))
    then mkWorld
           (mk (locked (manager w)) (syncInProgress (manager w))
               (databaseLoaded (manager w))
               (match default ResolveOnNext (timingStrategy c) with
                | ResolveOnNext =>
                    resolveQueue (manager w) ++ [nextCaller (manager w)]
                | ForceSpawnNew => resolveQueue (manager w)
                end)
               (match default ResolveOnNext (timingStrategy c) with
                | ResolveOnNext => spawnQueue (manager w)
                | ForceSpawnNew =>
                    spawnQueue (manager w) ++ [nextCaller (manager w)]
                end)
               (S (nextCaller (manager w))))
           (delete i (preparing w)) (current w) (resolvedSoFar w)
    else mkWorld
           (mk (locked (manager w)) true (databaseLoaded (manager w))
               (resolveQueue (manager w)) (spawnQueue (manager w))
               (nextCaller (manager w)))
           (delete i (preparing w))
           (Some (round (resolveQueue (manager w))
                        (default DefaultMode (mode c))))
           (resolvedSoFar w).
Proof.
  intros Hcall. cbn [step]. rewrite Hcall. unfold syncBegin.
  destruct (syncInProgress (manager w) || negb (databaseLoaded (manager w)));
    [| reflexivity].
  destruct (default ResolveOnNext (timingStrategy c)); reflexivity.
Qed.

(** The calls a round makes as it ends. *)
Definition scheduledAfter (m : t) (added : list Caller) : list Scheduled :=
  match spawnQueue m with
  | promise :: _ => [SpawnedSync promise]
  | [] => if bool_decide (added = []) then [] else [FreshSync]
  end.

(** The end of the round that is executing, in full. *)
Lemma step_RoundCompletes (w : World) (r : Round) (added : list Caller) :
  current w = Some r ->
  reachesRun (useMode r) = true ->
  resolveQueue (manager w) = inTimeResolveQueue r ++ added ->
  step w RoundCompletes
  = mkWorld (mk (locked (manager w)) false (databaseLoaded (manager w)) added
                (tail (spawnQueue (manager w))) (nextCaller (manager w)))
            (preparing w
               ++ (if locked (manager w) then []
                   else callOf <$> (scheduledAfter (manager w) added
                                      ++ syncFollowUp (useMode r))))
            None (resolvedSoFar w ++ inTimeResolveQueue r).
Proof.
  intros Hcur Hruns Hqueue. cbn [step]. rewrite Hcur, Hruns.
  rewrite (syncEnd_after_round (manager w) _ added Hqueue).
  unfold entering, syncEnter, scheduledAfter. cbn [locked].
  destruct (locked (manager w)); reflexivity.
Qed.

Lemma invariant_step w event : invariant w -> invariant (step w event).
Proof.
  intros [Hfresh Hspawn Hsorted Hapart Hsnap Hprog].
  destruct w as [[lock inProgress loaded rq sq next] calls cur done].
  cbn [manager current resolvedSoFar preparing resolveQueue spawnQueue
       nextCaller syncInProgress] in *.
  destruct event as [| | | c | i | i | |].
  - split; cbn; assumption.
  - split; cbn; assumption.
  - split; cbn; assumption.
  - cbn [step manager]. unfold syncEnter. cbn [locked].
    destruct lock; split; cbn; assumption.
  - cbn [step preparing]. destruct (calls !! i); split; cbn; assumption.
  - destruct (calls !! i) as [c |] eqn:Hcall;
      [| cbn [step preparing]; rewrite Hcall; split; cbn; assumption].
    rewrite step_SyncReachesCheck with (c := c) by exact Hcall.
    cbn [manager current resolvedSoFar preparing resolveQueue spawnQueue
         nextCaller syncInProgress databaseLoaded locked].
    destruct (inProgress || negb loaded) eqn:Hbusy.
    + destruct (default ResolveOnNext (timingStrategy c));
        split; cbn [manager current resolvedSoFar preparing resolveQueue
                    spawnQueue nextCaller syncInProgress]; auto.
      * rewrite app_assoc. apply Forall_app. split; [| repeat constructor].
        apply Forall_lt_S. exact Hfresh.
      * apply Forall_lt_S. exact Hspawn.
      * rewrite app_assoc. apply StronglySorted_snoc; assumption.
      * intros p Hp Hin. rewrite app_assoc in Hin.
        apply elem_of_app in Hin as [Hin | Hin].
        -- exact (Hapart p Hp Hin).
        -- apply list_elem_of_singleton in Hin. subst p.
           exact (fresh_not_in _ _ Hspawn Hp).
      * intros r Hcur. destruct (Hsnap r Hcur) as [added ->].
        exists (added ++ [next]). symmetry. apply app_assoc.
      * apply Forall_lt_S. exact Hfresh.
      * apply Forall_app. split; [| repeat constructor].
        apply Forall_lt_S. exact Hspawn.
      * intros p Hp. apply elem_of_app in Hp as [Hp | Hp].
        -- exact (Hapart p Hp).
        -- apply list_elem_of_singleton in Hp. subst p.
           exact (fresh_not_in _ _ Hfresh).
    + split; cbn [manager current resolvedSoFar preparing resolveQueue
                  spawnQueue nextCaller syncInProgress]; auto.
      intros r [= <-]. exists []. symmetry. apply app_nil_r.
  - cbn [step current]. destruct cur as [r |]; [| split; cbn; assumption].
    split; cbn; try assumption.
    + discriminate.
    + intros [? [=]].
  - destruct cur as [r |]; [| split; cbn; assumption].
    destruct (reachesRun (useMode r)) eqn:Hruns;
      [| cbn [step current]; rewrite Hruns; split; cbn; assumption].
    destruct (Hsnap r eq_refl) as [added ->].
    rewrite step_RoundCompletes with (r := r) (added := added)
      by first [reflexivity | exact Hruns].
    split; cbn [manager current resolvedSoFar preparing resolveQueue
                spawnQueue nextCaller syncInProgress].
    + rewrite <- app_assoc. exact Hfresh.
    + destruct sq as [| promise sq]; [constructor |].
      apply Forall_cons in Hspawn as [_ Hspawn]. exact Hspawn.
    + rewrite <- app_assoc. exact Hsorted.
    + intros p Hp. rewrite <- app_assoc. apply Hapart.
      destruct sq as [| promise sq]; [exact Hp |].
      apply list_elem_of_further. exact Hp.
    + discriminate.
    + intros [? [=]].
Qed.

Lemma invariant_exec events : invariant (exec events).
Proof.
  unfold exec. pattern events. apply rev_ind.
  - exact invariant_start.
  - intros event l IH. rewrite foldl_app. cbn [foldl].
    apply invariant_step, IH.
Qed.

(** C7 (amended): at every moment of every session of the manager,
    - a call to [sync()] goes on to prepare unless the manager is locked,
      when it returns with nothing done and nobody enqueued;
    - a call whose preparation fails leaves the queues as they are;
    - a call under ResolveOnNext (given or by default) that reaches the
      check and finds a sync in progress, or the database not loaded, is
      enqueued at the end of [resolveQueue]; it is in no snapshot taken so
      far and it has not been resolved;
    - a call that reaches the check and finds neither begins a round, whose
      snapshot is the whole queue as it stands then; no round was executing;
    - the snapshot of the round that is executing is the front of the queue,
      and the callers behind it have not been resolved; when the round
      completes, it resolves exactly the callers of its snapshot and takes
      them off the queue, which leaves the callers enqueued during the
      round; the fresh [sync()] is called exactly when some are left and no
      spawn-queue entry was popped, and the calls made enter unless the
      manager is locked; a round that reads [online] before its declaration
      where [const] is block scoped never completes; a round that throws
      resolves nobody and leaves [syncInProgress] set;
    - no caller on the queue has been resolved. *)
Theorem sync_resolve_on_next_serialization (events : list Event) :
  let w := exec events in
  let m := manager w in
  (forall c,
     exec (events ++ [SyncCalled c])
     = (if locked m then w
        else mkWorld m (preparing w ++ [c]) (current w) (resolvedSoFar w))) /\
  (forall i c,
     preparing w !! i = Some c ->
     exec (events ++ [SyncFailsPreparing i])
     = mkWorld m (delete i (preparing w)) (current w) (resolvedSoFar w)) /\
  (forall i c,
     preparing w !! i = Some c ->
     default ResolveOnNext (timingStrategy c) = ResolveOnNext ->
     syncInProgress m = true \/ databaseLoaded m = false ->
     exec (events ++ [SyncReachesCheck i])
     = mkWorld (mk (locked m) (syncInProgress m) (databaseLoaded m)
                   (resolveQueue m ++ [nextCaller m]) (spawnQueue m)
                   (S (nextCaller m)))
               (delete i (preparing w)) (current w) (resolvedSoFar w) /\
     (nextCaller m ∉ resolvedSoFar w ++ resolveQueue m) /\
     (forall r, current w = Some r ->
                nextCaller m ∉ inTimeResolveQueue r)) /\
  (forall i c,
     preparing w !! i = Some c ->
     syncInProgress m = false -> databaseLoaded m = true ->
     current w = None /\
     exec (events ++ [SyncReachesCheck i])
     = mkWorld (mk (locked m) true true (resolveQueue m) (spawnQueue m)
                   (nextCaller m))
               (delete i (preparing w))
               (Some (round (resolveQueue m) (default DefaultMode (mode c))))
               (resolvedSoFar w)) /\
  (forall r,
     current w = Some r ->
     exists added,
       resolveQueue m = inTimeResolveQueue r ++ added /\
       (forall c, c ∈ added ->
                  c ∉ resolvedSoFar w ++ inTimeResolveQueue r) /\
       (reachesRun (useMode r) = true ->
        exists scheduled,
          syncEnd m (inTimeResolveQueue r)
          = (mk (locked m) false (databaseLoaded m) added
                (tail (spawnQueue m)) (nextCaller m),
             inTimeResolveQueue r, scheduled) /\
          exec (events ++ [RoundCompletes])
          = mkWorld (mk (locked m) false (databaseLoaded m) added
                        (tail (spawnQueue m)) (nextCaller m))
                    (preparing w
                       ++ (if locked m then []
                           else callOf <$> (scheduled
                                              ++ syncFollowUp (useMode r))))
                    None (resolvedSoFar w ++ inTimeResolveQueue r) /\
          (FreshSync ∈ scheduled <-> spawnQueue m = [] /\ added <> []) /\
          (forall promise,
             SpawnedSync promise ∈ scheduled
             <-> head (spawnQueue m) = Some promise)) /\
       (reachesRun (useMode r) = false ->
        exec (events ++ [RoundCompletes]) = w) /\
       exec (events ++ [RoundThrows])
       = mkWorld m (preparing w) None (resolvedSoFar w) /\
       syncInProgress m = true) /\
  (forall c, c ∈ resolveQueue m -> c ∉ resolvedSoFar w).
Proof.
  cbn zeta.
  destruct (invariant_exec events)
    as [Hfresh Hspawn Hsorted Hapart Hsnap Hprog].
  pose proof (StronglySorted_lt_NoDup _ Hsorted) as Hnodup.
  split; [| split; [| split; [| split; [| split]]]].
  - intros c. rewrite exec_snoc. cbn [step]. unfold syncEnter.
    destruct (locked (manager (exec events))); reflexivity.
  - intros i c Hcall. rewrite exec_snoc. cbn [step]. rewrite Hcall.
    reflexivity.
  - intros i c Hcall Hstrategy Hbusy.
    assert (Hguard : syncInProgress (manager (exec events))
                     || negb (databaseLoaded (manager (exec events))) = true).
    { destruct Hbusy as [-> | ->]; [reflexivity | apply orb_true_r]. }
    split; [| split].
    + rewrite exec_snoc, (step_SyncReachesCheck _ i c Hcall), Hguard,
        Hstrategy.
      reflexivity.
    + exact (fresh_not_in _ _ Hfresh).
    + intros r Hcur Hin. destruct (Hsnap r Hcur) as [added Hq].
      apply (fresh_not_in _ _ Hfresh). apply elem_of_app. right.
      rewrite Hq. apply elem_of_app. left. exact Hin.
  - intros i c Hcall Hfree Hloaded. split.
    + destruct (current (exec events)) as [r |] eqn:Hcur; [| reflexivity].
      assert (Hs : syncInProgress (manager (exec events)) = true)
        by (apply Hprog; eauto).
      congruence.
    + rewrite exec_snoc, (step_SyncReachesCheck _ i c Hcall), Hfree, Hloaded.
      reflexivity.
  - intros r Hcur. destruct (Hsnap r Hcur) as [added Hq].
    exists added. split; [exact Hq |].
    split; [| split; [| split; [| split]]].
    + intros c Hc Hin. rewrite Hq, app_assoc in Hnodup.
      apply NoDup_app in Hnodup as (_ & Hdisjoint & _).
      exact (Hdisjoint c Hin Hc).
    + intros Hruns. exists (scheduledAfter (manager (exec events)) added).
      split; [exact (syncEnd_after_round _ _ added Hq) |].
      split; [rewrite exec_snoc;
              exact (step_RoundCompletes _ r added Hcur Hruns Hq) |].
      unfold scheduledAfter.
      destruct (spawnQueue (manager (exec events))) as [| promise rest];
        cbn [head].
      * destruct (bool_decide (added = [])) eqn:Hadded.
        -- apply bool_decide_eq_true in Hadded. split.
           ++ split.
              ** intros Hin. apply elem_of_nil in Hin. contradiction.
              ** intros [_ Hne]. contradiction.
           ++ intros promise. split.
              ** intros Hin. apply elem_of_nil in Hin. contradiction.
              ** discriminate.
        -- apply bool_decide_eq_false in Hadded. split.
           ++ split.
              ** intros _. split; [reflexivity | exact Hadded].
              ** intros _. apply list_elem_of_here.
           ++ intros promise. split.
              ** intros Hin. apply list_elem_of_singleton in Hin.
                 discriminate.
              ** discriminate.
      * split.
        -- split.
           ++ intros Hin. apply list_elem_of_singleton in Hin. discriminate.
           ++ intros [Hnil _]. discriminate.
        -- intros p. split.
           ++ intros Hin. apply list_elem_of_singleton in Hin.
              injection Hin as ->. reflexivity.
           ++ intros [= ->]. apply list_elem_of_here.
    + intros Hstops. rewrite exec_snoc. cbn [step]. rewrite Hcur, Hstops.
      reflexivity.
    + rewrite exec_snoc. cbn [step]. rewrite Hcur. reflexivity.
    + apply Hprog. eauto.
  - intros c Hc Hin.
    apply NoDup_app in Hnodup as (_ & Hdisjoint & _).
    exact (Hdisjoint c Hin Hc).
Qed.

End Session.

(** A target that compiles [const] to [var], and one that runs the code as
    the language has it. *)
Definition transpiled : Target := false.
Definition native : Target := true.

(** A session: the database loads; a call begins a round; two calls arrive
    while it executes; the round completes and calls [sync()] for the two;
    that call begins the second round; a third call arrives; the second
    round completes. *)
Definition demoRun : list Event :=
  [ DatabaseLoads;
    SyncCalled (call None None); SyncReachesCheck 0;
    SyncCalled (call None None); SyncCalled (call (Some ResolveOnNext) None);
    SyncReachesCheck 1; SyncReachesCheck 0;
    RoundCompletes;
    SyncReachesCheck 0;
    SyncCalled (call None None); SyncReachesCheck 0;
    RoundCompletes ].

(** The first round resolves nobody and leaves callers 0 and 1 queued; the
    second resolves exactly those two and leaves caller 2. *)
Example demoRun_resolves_in_later_round :
  resolvedSoFar (@exec transpiled (firstn 8 demoRun)) = [] /\
  resolveQueue (manager (@exec transpiled (firstn 8 demoRun))) = [0; 1] /\
  preparing (@exec transpiled (firstn 8 demoRun)) = [call None None] /\
  current (@exec transpiled (firstn 9 demoRun))
    = Some (round [0; 1] DefaultMode) /\
  resolvedSoFar (@exec transpiled demoRun) = [0; 1] /\
  resolveQueue (manager (@exec transpiled demoRun)) = [2].
Proof. vm_compute. repeat split. Qed.

(** The same session where [const] is block scoped: the first round cannot
    complete; once it has thrown, [syncInProgress] stays set, every later
    call is queued and nobody is resolved. *)
Example demoRun_native_never_resolves :
  @exec native (firstn 8 demoRun) = @exec native (firstn 7 demoRun) /\
  current (@exec native (firstn 7 demoRun)) = Some (round [] DefaultMode) /\
  @exec native (firstn 7 demoRun ++ RoundThrows :: skipn 8 demoRun)
  = mkWorld (mk false true true [0; 1; 2] [] 3) [] None [].
Proof. vm_compute. repeat split. Qed.

(** The theorem at work on [demoRun]: a call that reaches the check during
    the first round is enqueued behind caller 0; the first round resolves
    nobody and calls a fresh [sync()]; the second round resolves callers 0
    and 1. *)
Lemma sync_resolve_on_next_serialization_witness :
  @exec transpiled (firstn 6 demoRun ++ [SyncReachesCheck 0])
  = mkWorld (mk false true true [0; 1] [] 2) [] (Some (round [] DefaultMode))
            [] /\
  @exec transpiled (firstn 7 demoRun ++ [RoundCompletes])
  = mkWorld (mk false false true [0; 1] [] 2) [call None None] None [] /\
  @exec transpiled (firstn 11 demoRun ++ [RoundCompletes])
  = mkWorld (mk false false true [2] [] 3) [call None None] None [0; 1].
Proof.
  split; [| split].
  - destruct (sync_resolve_on_next_serialization (H := transpiled)
                (firstn 6 demoRun)) as (_ & _ & Hqueued & _).
    destruct (Hqueued 0 (call None None) eq_refl eq_refl
                (or_introl eq_refl)) as [Hworld _].
    exact Hworld.
  - destruct (sync_resolve_on_next_serialization (H := transpiled)
                (firstn 7 demoRun)) as (_ & _ & _ & _ & Hround & _).
    destruct (Hround (round [] DefaultMode) eq_refl)
      as (added & Hqueue & _ & Hcompletes & _).
    destruct (Hcompletes eq_refl) as (scheduled & Hend & Hworld & _).
    vm_compute in Hqueue. simplify_eq.
    vm_compute in Hend. simplify_eq.
    exact Hworld.
  - destruct (sync_resolve_on_next_serialization (H := transpiled)
                (firstn 11 demoRun)) as (_ & _ & _ & _ & Hround & _).
    destruct (Hround (round [0; 1] DefaultMode) eq_refl)
      as (added & Hqueue & _ & Hcompletes & _).
    destruct (Hcompletes eq_refl) as (scheduled & Hend & Hworld & _).
    vm_compute in Hqueue. simplify_eq.
    vm_compute in Hend. simplify_eq.
    exact Hworld.
Defined.

(** A call to [sync()] under ResolveOnNext made before the database has
    loaded is not enqueued when the manager is locked: it returns with
    nothing done, and no later event of the session enqueues it. Nor is it
    when its preparation fails. *)
Example sync_turned_away_is_not_enqueued :
  databaseLoaded (manager (@exec transpiled [LockSyncing])) = false /\
  syncEnter (manager (@exec transpiled [LockSyncing])) = TurnedAway /\
  @exec transpiled [LockSyncing; SyncCalled (call (Some ResolveOnNext) None)]
  = mkWorld (mk true false false [] [] 0) [] None [] /\
  @exec transpiled [LockSyncing; SyncCalled (call (Some ResolveOnNext) None);
                    SyncReachesCheck 0; UnlockSyncing; DatabaseLoads]
  = mkWorld (mk false false true [] [] 0) [] None [] /\
  @exec transpiled [SyncCalled (call (Some ResolveOnNext) None);
                    SyncFailsPreparing 0]
  = mkWorld (mk false false false [] [] 0) [] None [].
Proof. vm_compute. repeat split. Qed.

End SyncManagerFacts.

(* ===================================================================== *)
(** * Part III. Properties of the further code                            *)
(* ===================================================================== *)

From stdpp Require sorting.

Module PayloadGetterFacts.
Import PurePayload PayloadGetters ProtocolManagerFacts.

(** X1: on a payload the constructor returned, exactly one of the two typed
    content getters returns and the other throws: [contentObject] returns
    (the object) precisely when the content is an object, [contentString]
    returns precisely when it is not, and then hands back the string, or
    [undefined] when the payload has no content at all. *)
Theorem content_getters_exclusive (p : t) :
  constructed p ->
  ((exists c, content p = Some (ObjectContent c)) /\
   contentObject p = Returned (content p) /\
   contentString p = Thrown NonStringAsString)
  \/
  ((content p = None \/ exists s, content p = Some (StringContent s)) /\
   contentObject p = Thrown NonObjectAsObject /\
   contentString p = Returned (content p)).
Proof.
  intros Hc. apply constructed_wellFormed in Hc as [_ _ _ _ Hcontent].
  unfold contentObject, contentString.
  destruct (content p) as [[s | c] |].
  - right. destruct Hcontent as (_ & -> & _).
    split; [right; eauto |].
    destruct (String.prefix V000Base64Decrypted s);
      rewrite decide_True by discriminate;
      rewrite decide_False by discriminate; split; reflexivity.
  - left. destruct Hcontent as (_ & -> & _). split; [eauto |].
    rewrite decide_False by (intros Hne; apply Hne; reflexivity).
    rewrite decide_True by reflexivity. split; reflexivity.
  - right. destruct Hcontent as (-> & _). split; [left; reflexivity |].
    rewrite decide_True by discriminate.
    rewrite decide_False by discriminate. split; reflexivity.
Qed.

Lemma content_getters_exclusive_witness :
  contentObject (encryptedNote "u-1" "k-1" "004:n:c:a")
    = Thrown NonObjectAsObject /\
  contentString (encryptedNote "u-1" "k-1" "004:n:c:a")
    = Returned (Some (StringContent "004:n:c:a")).
Proof.
  destruct (content_getters_exclusive (encryptedNote "u-1" "k-1" "004:n:c:a")
              (encryptedNote_constructed "u-1" "k-1" "004:n:c:a"
                 ltac:(discriminate)))
    as [([c Hc] & _) | (_ & Hobj & Hstr)]; [discriminate Hc |].
  split; [exact Hobj | exact Hstr].
Defined.

(** X2: [safeReferences] never throws on a payload the constructor
    returned: it is the reference list of decrypted object content and the
    empty list for every other payload. *)
Theorem safeReferences_total (p : t) :
  constructed p ->
  safeReferences p
  = Returned match content p with
             | Some (ObjectContent c) => default [] (Content.references c)
             | _ => []
             end.
Proof.
  intros Hc. apply constructed_wellFormed in Hc as [_ _ _ _ Hcontent].
  unfold safeReferences, safeContent.
  destruct (content p) as [[s | c] |].
  - destruct Hcontent as (_ & -> & _).
    destruct (String.prefix V000Base64Decrypted s);
      rewrite decide_False by discriminate; reflexivity.
  - destruct Hcontent as (_ & -> & _).
    rewrite decide_True by reflexivity. reflexivity.
  - destruct Hcontent as (-> & _).
    rewrite decide_False by discriminate. reflexivity.
Qed.

Lemma safeReferences_total_witness :
  safeReferences plainNote = Returned [].
Proof.
  apply (safeReferences_total plainNote).
  exists 7%Z, (Raw.mk (Some "u-9") (Some "Note")
                 (Some (ObjectContent (Content.mk (Some "004") None [])))
                 None None None None None None (Some true) None None None
                 None None None None), None, None.
  reflexivity.
Defined.

(** The hypothesis is needed: a record that claims format
    DecryptedBareObject without content, which no constructor call
    returns, makes the getter read a property of [undefined]. *)
Example safeReferences_of_inconsistent_record :
  safeReferences
    (mk [] Constructor None None None None None None None None None None
        None None None None None None None DecryptedBareObject None true)
  = Thrown PropertyOfUndefined.
Proof. reflexivity. Qed.

End PayloadGetterFacts.

Module VersionFacts.
Import Versions.

Lemma supportedVersions_spec (version : string) :
  version ∈ supportedVersions <->
  version = "001" \/ version = "002" \/ version = "003" \/ version = "004".
Proof.
  unfold supportedVersions. rewrite !elem_of_cons, elem_of_nil.
  unfold PROTOCOL_VERSION_001, PROTOCOL_VERSION_002, PROTOCOL_VERSION_003,
    PROTOCOL_VERSION_004. tauto.
Qed.

Section Operators.
Context `{Collaborators} `{CostFloors}.

(** A tag without operator, under which the array inherits nothing. *)
Lemma operatorForVersion_unknown (version : string) :
  inheritedByArray version = false ->
  ~ (version ∈ supportedVersions \/ version = V000Base64Decrypted) ->
  operatorForVersion version = Throw (UnableToFindOperator version).
Proof.
  rewrite supportedVersions_spec.
  unfold operatorForVersion, createOperatorForVersion, V000Base64Decrypted.
  intros -> Hn.
  repeat (destruct (decide _) as [-> | ?]; [exfalso; apply Hn; auto 6 |]).
  reflexivity.
Qed.

(** A key under which the array inherits a truthy value. *)
Lemma operatorForVersion_inherited (version : string) :
  inheritedByArray version = true ->
  operatorForVersion version = Ok (Inherited version).
Proof. intros Hi. unfold operatorForVersion. rewrite Hi. reflexivity. Qed.

(** X3: what [operatorForVersion] finds. Under a tag for which the array
    [this.operators] inherits a truthy value (["map"], say) it returns that
    value and throws nothing; the value has none of an operator's methods,
    so asking it for parameters throws a TypeError. Under every other tag
    the manager has an operator for exactly the supported versions and the
    base64 tag "000", which gets the operator of the latest version, and for
    any other tag it throws, naming the tag. A cost minimum exists for
    exactly the supported versions. *)
Theorem operators_for_supported_versions (version : string) :
  (inheritedByArray version = true ->
   operatorForVersion version = Ok (Inherited version) /\
   (forall payload key format,
      exists message,
        callGenerateEncryptionParameters (Inherited version) payload key
          format = Throw (TypeError message)) /\
   (forall parameters k,
      exists message,
        callGenerateDecryptedParameters (Inherited version) parameters k
        = Throw (TypeError message))) /\
  (inheritedByArray version = false ->
   ((exists operator, operatorForVersion version = Ok (Made operator)) <->
    version ∈ supportedVersions \/ version = V000Base64Decrypted) /\
   (~ (version ∈ supportedVersions \/ version = V000Base64Decrypted) ->
    operatorForVersion version = Throw (UnableToFindOperator version))) /\
  (forall operator,
     operatorForVersion version = Ok (Made operator) ->
     inheritedByArray version = false /\
     (version ∈ supportedVersions \/ version = V000Base64Decrypted)) /\
  createOperatorForVersion V000Base64Decrypted
  = createOperatorForVersion latestVersion /\
  latestVersion ∈ supportedVersions /\
  ((exists cost, costMinimumForVersion version = Returned cost) <->
   version ∈ supportedVersions) /\
  (version ∉ supportedVersions ->
   costMinimumForVersion version = Thrown (NoCostMinimum version)).
Proof.
  assert (Hmade : inheritedByArray version = false ->
            (exists operator, operatorForVersion version = Ok (Made operator))
            <-> version ∈ supportedVersions
                \/ version = V000Base64Decrypted).
  { intros Hi. rewrite supportedVersions_spec.
    unfold operatorForVersion, createOperatorForVersion, V000Base64Decrypted.
    rewrite Hi.
    repeat (destruct (decide _) as [-> | ?];
            [cbn [mbind Result_bind]; split; eauto 6 |]).
    cbn [mbind Result_bind].
    split; [intros [? ?]; discriminate | intros [[|[|[|]]]|]; contradiction]. }
  split; [| split; [| split; [| split; [reflexivity | split; [| split]]]]].
  - intros Hi. split; [exact (operatorForVersion_inherited version Hi) |].
    split; intros; eexists; reflexivity.
  - intros Hi. split; [exact (Hmade Hi) |].
    exact (operatorForVersion_unknown version Hi).
  - intros operator Hfound.
    destruct (inheritedByArray version) eqn:Hi.
    + rewrite (operatorForVersion_inherited version Hi) in Hfound.
      discriminate.
    + split; [reflexivity |]. apply (Hmade eq_refl). eauto.
  - unfold supportedVersions, latestVersion, PROTOCOL_VERSION_004.
    do 3 apply list_elem_of_further. apply list_elem_of_here.
  - rewrite supportedVersions_spec.
    unfold costMinimumForVersion, PROTOCOL_VERSION_001, PROTOCOL_VERSION_002,
      PROTOCOL_VERSION_003, PROTOCOL_VERSION_004.
    repeat (destruct (decide _) as [-> | ?]; [split; eauto 6 |]).
    split; [intros [? ?]; discriminate | intros [|[|[|]]]; contradiction].
  - rewrite supportedVersions_spec.
    unfold costMinimumForVersion, PROTOCOL_VERSION_001, PROTOCOL_VERSION_002,
      PROTOCOL_VERSION_003, PROTOCOL_VERSION_004.
    intros Hn.
    repeat (destruct (decide _) as [-> | ?];
            [exfalso; apply Hn; auto 6 |]).
    reflexivity.
Qed.

End Operators.

(** X4: [createVersionedKeyParams] wraps the key parameters, unchanged, in
    the class of their version; parameters without a version (or with an
    empty one) are taken to be 002; any version outside the supported ones
    throws "No auth params version found". *)
Theorem createVersionedKeyParams_by_version (keyParams : KeyParams) :
  (truthyString (kp_version keyParams) = false ->
   createVersionedKeyParams keyParams
     = Returned (SNRootKeyParams002 keyParams)) /\
  (forall version,
     kp_version keyParams = Some version -> version <> "" ->
     ((exists versioned, createVersionedKeyParams keyParams
                           = Returned versioned)
      <-> version ∈ supportedVersions) /\
     (version ∉ supportedVersions ->
      createVersionedKeyParams keyParams = Thrown NoAuthParamsVersion)) /\
  (forall versioned,
     createVersionedKeyParams keyParams = Returned versioned ->
     match versioned with
     | SNRootKeyParams001 kp => kp = keyParams
                                /\ kp_version keyParams = Some "001"
     | SNRootKeyParams002 kp =>
         kp = keyParams /\
         (kp_version keyParams = Some "002"
          \/ truthyString (kp_version keyParams) = false)
     | SNRootKeyParams003 kp => kp = keyParams
                                /\ kp_version keyParams = Some "003"
     | SNRootKeyParams004 kp => kp = keyParams
                                /\ kp_version keyParams = Some "004"
     end).
Proof.
  assert (Hin : forall version, version ∈ supportedVersions <->
            version = "001" \/ version = "002" \/ version = "003"
            \/ version = "004").
  { intros version. unfold supportedVersions.
    rewrite !elem_of_cons, elem_of_nil.
    unfold PROTOCOL_VERSION_001, PROTOCOL_VERSION_002, PROTOCOL_VERSION_003,
      PROTOCOL_VERSION_004. tauto. }
  unfold createVersionedKeyParams, PROTOCOL_VERSION_001,
    PROTOCOL_VERSION_002, PROTOCOL_VERSION_003, PROTOCOL_VERSION_004.
  split; [| split].
  - intros ->. reflexivity.
  - intros version Hv Hne. rewrite Hv.
    assert (Htruthy : truthyString (Some version) = true)
      by (destruct version; [contradiction | reflexivity]).
    rewrite Htruthy. change (default "" (Some version)) with version.
    cbn zeta. rewrite Hin.
    split.
    + repeat (destruct (decide _) as [-> | ?]; [split; eauto 6 |]).
      split; [intros [? ?]; discriminate | intros [|[|[|]]]; contradiction].
    + intros Hn.
      repeat (destruct (decide _) as [-> | ?];
              [exfalso; apply Hn; auto 6 |]).
      reflexivity.
  - intros versioned.
    destruct (truthyString (kp_version keyParams)) eqn:Htruthy.
    + destruct (kp_version keyParams) as [version |]; [| discriminate].
      change (default "" (Some version)) with version. cbn zeta.
      repeat (destruct (decide _) as [-> | ?];
              [intros [= <-]; auto |]).
      intros [=].
    + cbn. intros [= <-]. auto.
Qed.

(** X5: a protocol version never expires unless it is 001 or 002: 003, the
    latest version 004 and every unknown tag are current at every clock
    reading. Once a version is outdated it stays outdated as time passes,
    and 002 is never outdated before 001 is. *)
Theorem isProtocolVersionOutdated_expiry (now : Z) (version : string) :
  (version <> "001" -> version <> "002" ->
   isProtocolVersionOutdated now version = false) /\
  (isProtocolVersionOutdated now "001" = true <-> (1514764800000 < now)%Z) /\
  (isProtocolVersionOutdated now "002" = true <-> (1577836800000 < now)%Z) /\
  (forall later, (now <= later)%Z ->
     isProtocolVersionOutdated now version = true ->
     isProtocolVersionOutdated later version = true) /\
  (isProtocolVersionOutdated now "002" = true ->
   isProtocolVersionOutdated now "001" = true).
Proof.
  assert (H1 : forall t, isProtocolVersionOutdated t "001" = true
                         <-> (1514764800000 < t)%Z).
  { intros t. unfold isProtocolVersionOutdated. cbn [expirationDate].
    change (parseDateOnly 2018 1 1) with 1514764800000%Z.
    cbn -[Z.ltb]. apply Z.ltb_lt. }
  assert (H2 : forall t, isProtocolVersionOutdated t "002" = true
                         <-> (1577836800000 < t)%Z).
  { intros t. unfold isProtocolVersionOutdated. cbn [expirationDate].
    change (parseDateOnly 2020 1 1) with 1577836800000%Z.
    cbn -[Z.ltb]. apply Z.ltb_lt. }
  assert (H0 : forall t, version <> "001" -> version <> "002" ->
                         isProtocolVersionOutdated t version = false).
  { intros t Hn1 Hn2. unfold isProtocolVersionOutdated, expirationDate,
      PROTOCOL_VERSION_001, PROTOCOL_VERSION_002.
    rewrite decide_False by exact Hn1. rewrite decide_False by exact Hn2.
    reflexivity. }
  split; [apply H0 |]. split; [apply H1 |]. split; [apply H2 |].
  split.
  - intros later Hle.
    destruct (decide (version = "001")) as [-> | Hn1];
      [rewrite !H1; lia |].
    destruct (decide (version = "002")) as [-> | Hn2];
      [rewrite !H2; lia |].
    rewrite (H0 now Hn1 Hn2). discriminate.
  - rewrite H1, H2. lia.
Qed.

End VersionFacts.

Module ProtocolManagerMoreFacts.
Import PurePayload ProtocolManagerFacts Versions.

#[local] Instance Intent_eq_dec : EqDecision Intent.
Proof. solve_decision. Defined.

(** X6: the constructor is idempotent: building a payload again from the
    properties, the fields and the source of a payload it returned gives
    that same payload back, at whatever time it is done: no date is
    stamped anew and content, format and version are found as they were. *)
Theorem construct_idempotent (now : Z) (p : t) :
  constructed p ->
  construct now (toRaw p) (Some (fields p)) (Some (source p)) = Ok p.
Proof.
  intros Hc. pose proof (constructed_frozen p Hc) as Hfrozen.
  apply constructed_wellFormed in Hc
    as [Hu [c Hc] [u Hup] [d Hd] Hcontent].
  destruct p as [fs src uuid ct content del ikid eik created updated dirtied
                 dirty ed wfk edc lsb lse ah ap fmt ver fr].
  cbn [PurePayload.uuid PurePayload.fields PurePayload.created_at
       PurePayload.updated_at PurePayload.dirtiedDate PurePayload.content
       PurePayload.format PurePayload.version PurePayload.frozen] in *.
  subst created updated dirtied fr.
  unfold construct, deepFreeze, toRaw, Raw.mk.
  cbn [Raw.uuid Raw.content Raw.created_at Raw.updated_at Raw.dirtiedDate
       Raw.content_type Raw.deleted Raw.items_key_id Raw.enc_item_key
       Raw.dirty Raw.errorDecrypting Raw.waitingForKey
       Raw.errorDecryptingValueChanged Raw.lastSyncBegan Raw.lastSyncEnd
       Raw.auth_hash Raw.auth_params PurePayload.uuid PurePayload.fields
       PurePayload.source PurePayload.content_type PurePayload.content
       PurePayload.deleted PurePayload.items_key_id PurePayload.enc_item_key
       PurePayload.created_at PurePayload.updated_at PurePayload.dirtiedDate
       PurePayload.dirty PurePayload.errorDecrypting PurePayload.waitingForKey
       PurePayload.errorDecryptingValueChanged PurePayload.lastSyncBegan
       PurePayload.lastSyncEnd PurePayload.auth_hash PurePayload.auth_params].
  assert (Hguard : negb (truthyString uuid) && includes Uuid fs = false).
  { destruct Hu as [-> | Hnin]; [reflexivity |].
    apply andb_false_iff. right. apply includes_false. exact Hnin. }
  rewrite Hguard. cbn [default newDate].
  destruct content as [[s | o] |]; cbn [truthyContent truthyString].
  - destruct Hcontent as (Hne & -> & ->). destruct s; [contradiction |].
    destruct lsb, lse; reflexivity.
  - destruct Hcontent as (Hfill & -> & ->). rewrite Hfill.
    destruct lsb, lse; reflexivity.
  - destruct Hcontent as (-> & ->). destruct lsb, lse; reflexivity.
Qed.

Lemma construct_idempotent_witness :
  construct 99 (toRaw (encryptedNote "u-1" "k-1" "004:n:c:a"))
    (Some (fields (encryptedNote "u-1" "k-1" "004:n:c:a")))
    (Some (source (encryptedNote "u-1" "k-1" "004:n:c:a")))
  = Ok (encryptedNote "u-1" "k-1" "004:n:c:a").
Proof.
  exact (construct_idempotent 99 (encryptedNote "u-1" "k-1" "004:n:c:a")
           (encryptedNote_constructed "u-1" "k-1" "004:n:c:a"
              ltac:(discriminate))).
Defined.

(** Two payloads that agree on the value and on the listing of every field
    have the same wire projection. *)
Lemma ejected_ext (p q : t) :
  (forall f, PurePayloadFacts.ejects p f = true ->
             f ∈ fields p <-> f ∈ fields q) ->
  (forall f, PurePayloadFacts.ejects p f = PurePayloadFacts.ejects q f) ->
  (forall f, PurePayloadFacts.ejects p f = true -> get p f = get q f) ->
  ejected p = ejected q.
Proof.
  intros Hfields Hejects Hget. apply map_eq. intros f.
  unfold ejected. rewrite !PurePayloadFacts.foldl_ejectField_lookup.
  rewrite <- Hejects.
  destruct (PurePayloadFacts.ejects p f) eqn:He.
  - destruct (decide (f ∈ fields p /\ true = true)) as [[Hin _] | Hn].
    + rewrite decide_True by (split; [apply Hfields; auto | reflexivity]).
      rewrite Hget by exact He. reflexivity.
    + rewrite decide_False; [reflexivity |].
      intros [Hin _]. apply Hn. split; [apply Hfields; auto | reflexivity].
  - rewrite !decide_False by (intros [_ ?]; discriminate). reflexivity.
Qed.

Section More.
Context `{Collaborators}.

(** X7: [versionForPayload] agrees with the version the constructor
    recorded: for a constructed payload whose content is a string it
    returns the payload's own [version]; for any other payload it throws
    (the content has no [substring]). *)
Theorem versionForPayload_agrees (p : t) :
  constructed p ->
  (isStringContent (content p) = true ->
   exists v, versionForPayload p = Ok v /\ version p = Some v) /\
  (isStringContent (content p) = false ->
   exists message, versionForPayload p = Throw (TypeError message)).
Proof.
  intros Hc. apply constructed_wellFormed in Hc as [_ _ _ _ Hcontent].
  unfold versionForPayload.
  destruct (content p) as [[s | o] |]; cbn [isStringContent].
  - destruct Hcontent as (_ & _ & ->). split; [eauto | discriminate].
  - split; [discriminate | eauto].
  - split; [discriminate | eauto].
Qed.

Lemma versionForPayload_agrees_witness :
  @versionForPayload (encryptedNote "u-1" "k-1" "004:n:c:a") = Ok "004" /\
  version (encryptedNote "u-1" "k-1" "004:n:c:a") = Some "004".
Proof.
  destruct (versionForPayload_agrees (encryptedNote "u-1" "k-1" "004:n:c:a")
              (encryptedNote_constructed "u-1" "k-1" "004:n:c:a"
                 ltac:(discriminate)))
    as [Hstring _].
  destruct (Hstring eq_refl) as (v & Hv & Hversion).
  split; [reflexivity | reflexivity].
Defined.

(** X8: with a key at hand (supplied, or found by the key manager) a
    constructed payload with string content is decrypted by what
    [operatorForVersion] finds under its own version tag. When the array of
    operators inherits a truthy value under the tag (["map"], say), that
    value is taken for the operator and the call throws a TypeError, since
    it has no [generateDecryptedParameters]. Otherwise, when the tag is none
    of the supported versions nor "000", the call throws
    UnableToFindOperator naming that tag and no operator is asked; and when
    there is an operator, its parameters are laid over the payload, or its
    error is the call's error. Content that is no string throws before any
    operator is looked up. *)
Theorem payloadByDecryptingPayload_with_key (p : t) (key : option Key.t)
    (k : Key.t) :
  constructed p ->
  key = Some k
  \/ (key = None /\ keyToUseForDecryptionOfPayload p = Ok (Some k)) ->
  (isStringContent (content p) = false ->
   exists message,
     payloadByDecryptingPayload p key = Throw (TypeError message)) /\
  (forall v,
     isStringContent (content p) = true -> version p = Some v ->
     (inheritedByArray v = true ->
      exists message,
        payloadByDecryptingPayload p key = Throw (TypeError message)) /\
     (inheritedByArray v = false ->
      ~ (v ∈ supportedVersions \/ v = V000Base64Decrypted) ->
      payloadByDecryptingPayload p key = Throw (UnableToFindOperator v)) /\
     (forall operator,
        operatorForVersion v = Ok (Made operator) ->
        payloadByDecryptingPayload p key
        = (parameters ← generateDecryptedParameters operator
                          (CreateEncryptionParameters p) k;
           CreatePayloadFromAnyObject p parameters) /\
        forall e,
          generateDecryptedParameters operator
            (CreateEncryptionParameters p) k = Throw e ->
          payloadByDecryptingPayload p key = Throw e)).
Proof.
  intros Hc Hkey.
  assert (Hstart : payloadByDecryptingPayload p key
            = (version ← versionForPayload p;
               operator ← operatorForVersion version;
               parameters ← callGenerateDecryptedParameters operator
                              (CreateEncryptionParameters p) k;
               CreatePayloadFromAnyObject p parameters)).
  { unfold payloadByDecryptingPayload.
    destruct Hkey as [-> | [-> ->]]; reflexivity. }
  apply constructed_wellFormed in Hc as [_ _ _ _ Hcontent].
  rewrite Hstart. unfold versionForPayload.
  destruct (content p) as [[s | o] |]; cbn [isStringContent];
    (split; [intros Hno | intros v Hyes Hv]); try discriminate;
    try (eexists; reflexivity).
  - destruct Hcontent as (_ & _ & Hversion).
    assert (String.substring 0 VersionLength s = v) as -> by congruence.
    cbn [mbind Result_bind]. split; [| split].
    + intros Hi.
      rewrite (VersionFacts.operatorForVersion_inherited v Hi).
      eexists. reflexivity.
    + intros Hi Hunknown.
      rewrite (VersionFacts.operatorForVersion_unknown v Hi Hunknown).
      reflexivity.
    + intros operator ->.
      cbn [mbind Result_bind callGenerateDecryptedParameters].
      split; [reflexivity |]. intros e ->. reflexivity.
Qed.

(** *** The bulk decrypt, further *)

(** The loop started on a non-empty array pushes behind what is there. *)
Lemma decryptEach_accumulates (throws : bool) (payloads : list Entry) :
  forall decryptedPayloads : list Entry,
    decryptEach throws payloads decryptedPayloads
    = (out ← decryptEach throws payloads [];
       Ok (decryptedPayloads ++ out)).
Proof.
  induction payloads as [| entry rest IH]; intros acc.
  - cbn. rewrite app_nil_r. reflexivity.
  - assert (Hpush : forall x : Entry,
              decryptEach throws rest (acc ++ [x])
              = (out ← decryptEach throws rest ([] ++ [x]);
                 Ok (acc ++ out))).
    { intros x. rewrite (IH (acc ++ [x])), (IH ([] ++ [x])).
      destruct (decryptEach throws rest []) as [out | e]; [| reflexivity].
      cbn [mbind Result_bind app]. rewrite <- app_assoc. reflexivity. }
    cbn [decryptEach]. destruct entry as [| | p].
    + apply Hpush.
    + reflexivity.
    + destruct (bool_decide (deleted p = Some true)
                && bool_decide (content p = None)); [apply Hpush |].
      destruct (negb (isStringContent (content p))); [apply Hpush |].
      destruct (payloadByDecryptingPayload p None) as [d | e];
        [apply Hpush |].
      destruct (CreatePayloadFromAnyObject p (errorDecryptingOverride p))
        as [m | e']; [| reflexivity].
      cbn [mbind Result_bind]. destruct throws; [reflexivity | apply Hpush].
Qed.

Lemma decryptEach_app (throws : bool) (first second : list Entry) :
  forall decryptedPayloads : list Entry,
    decryptEach throws (first ++ second) decryptedPayloads
    = (out ← decryptEach throws first decryptedPayloads;
       decryptEach throws second out).
Proof.
  induction first as [| entry rest IH]; intros acc; [reflexivity |].
  cbn [app decryptEach]. destruct entry as [| | p].
  - apply IH.
  - reflexivity.
  - destruct (bool_decide (deleted p = Some true)
              && bool_decide (content p = None)); [apply IH |].
    destruct (negb (isStringContent (content p))); [apply IH |].
    destruct (payloadByDecryptingPayload p None) as [d | e]; [apply IH |].
    destruct (CreatePayloadFromAnyObject p (errorDecryptingOverride p))
      as [m | e']; [| reflexivity].
    cbn [mbind Result_bind]. destruct throws; [reflexivity | apply IH].
Qed.

(** X9: decrypting in batches is decrypting at once: the bulk decrypt of a
    list cut in two is the bulk decrypt of the first part followed by that
    of the second, results concatenated, and an error of either part is the
    error of the whole, the first part's first. This holds with and without
    the throws flag and for every kind of entry. *)
Theorem payloadsByDecryptingPayloads_app (first second : list Entry)
    (throws : bool) :
  payloadsByDecryptingPayloads (first ++ second) throws
  = (decryptedFirst ← payloadsByDecryptingPayloads first throws;
     decryptedSecond ← payloadsByDecryptingPayloads second throws;
     Ok (decryptedFirst ++ decryptedSecond)).
Proof.
  unfold payloadsByDecryptingPayloads. rewrite decryptEach_app.
  destruct (decryptEach throws first []) as [out | e]; [| reflexivity].
  cbn [mbind Result_bind]. apply decryptEach_accumulates.
Qed.

(** X10: the throws flag matters only when some entry fails to decrypt: on
    a list none of whose entries throws on its own, the bulk decrypt
    returns the same with the flag set and unset. *)
Theorem payloadsByDecryptingPayloads_flag_irrelevant (payloads : list Entry) :
  Forall (fun entry => decryptionError entry = None) payloads ->
  payloadsByDecryptingPayloads payloads true
  = payloadsByDecryptingPayloads payloads false.
Proof.
  unfold payloadsByDecryptingPayloads. generalize (@nil Entry).
  induction payloads as [| entry rest IH]; intros acc Hall; [reflexivity |].
  apply Forall_cons in Hall as [Hentry Hrest].
  cbn [decryptEach]. destruct entry as [| | p].
  - apply IH, Hrest.
  - reflexivity.
  - unfold decryptionError in Hentry.
    destruct (passedThrough p) eqn:Hpass.
    + destruct (passedThrough_cases p Hpass) as [-> | [-> ->]];
        apply IH, Hrest.
    + destruct (passedThrough_guards p Hpass) as [-> ->].
      destruct (payloadByDecryptingPayload p None) as [d | e];
        [apply IH, Hrest | discriminate].
Qed.

(** X11: without the throws flag the only way the bulk decrypt of
    constructed payloads fails is an entry that is no payload: it throws
    NonPayloadObject exactly when the list holds such an entry, and throws
    nothing else. *)
Theorem payloadsByDecryptingPayloads_fails_only_on_non_payload
    (payloads : list Entry) :
  Forall (fun entry => match entry with
                       | APayload p => constructed p
                       | _ => True
                       end) payloads ->
  (payloadsByDecryptingPayloads payloads false = Throw NonPayloadObject
   <-> NotAPayload ∈ payloads) /\
  (forall e, payloadsByDecryptingPayloads payloads false = Throw e ->
             e = NonPayloadObject).
Proof.
  unfold payloadsByDecryptingPayloads. generalize (@nil Entry).
  induction payloads as [| entry rest IH]; intros acc Hall.
  - split; [| intros e; discriminate].
    split; [discriminate | intros Hin; apply elem_of_nil in Hin; contradiction].
  - apply Forall_cons in Hall as [Hentry Hrest].
    assert (Hstep : forall x : Entry,
              entry <> NotAPayload ->
              decryptEach false (entry :: rest) acc
                = decryptEach false rest (acc ++ [x]) ->
              (decryptEach false (entry :: rest) acc = Throw NonPayloadObject
               <-> NotAPayload ∈ entry :: rest) /\
              (forall e, decryptEach false (entry :: rest) acc = Throw e ->
                         e = NonPayloadObject)).
    { intros x Hne ->. destruct (IH (acc ++ [x]) Hrest) as [Hiff Honly].
      split; [| exact Honly]. rewrite Hiff, elem_of_cons.
      split; [auto | intros [Heq | Hin]; [congruence | exact Hin]]. }
    destruct entry as [| | p].
    + apply (Hstep Falsy); [discriminate | reflexivity].
    + cbn [decryptEach]. split; [| intros e [= <-]; reflexivity].
      split; [intros _; apply list_elem_of_here | reflexivity].
    + destruct (passedThrough p) eqn:Hpass.
      * apply (Hstep (APayload p)); [discriminate |]. cbn [decryptEach].
        destruct (passedThrough_cases p Hpass) as [-> | [-> ->]]; reflexivity.
      * destruct (passedThrough_guards p Hpass) as [Hg1 Hg2].
        destruct (payloadByDecryptingPayload p None) as [d | e] eqn:Hdec.
        -- apply (Hstep (APayload d)); [discriminate |]. cbn [decryptEach].
           rewrite Hg1, Hg2, Hdec. reflexivity.
        -- destruct (markError_ok p Hentry) as (m & Hm & _).
           apply (Hstep (APayload m)); [discriminate |]. cbn [decryptEach].
           rewrite Hg1, Hg2, Hdec, Hm. reflexivity.
Qed.

(** *** Marks and the wire *)

Lemma unionFields_persistable (fs added : list PayloadField) (f : PayloadField) :
  (f ∈ added -> includes f nonRequiredFields = true) ->
  includes f nonRequiredFields = false ->
  f ∈ unionFields fs added <-> f ∈ fs.
Proof.
  intros Hadded Hf. unfold unionFields. rewrite elem_of_app.
  split; [| auto]. intros [Hin | Hin]; [exact Hin |].
  apply list_elem_of_In, filter_In in Hin as [Hin _].
  apply list_elem_of_In in Hin. rewrite (Hadded Hin) in Hf. discriminate.
Qed.

Lemma ejects_persistable (p : t) (f : PayloadField) :
  PurePayloadFacts.ejects p f = true -> includes f nonRequiredFields = false.
Proof.
  unfold PurePayloadFacts.ejects. intros He.
  apply andb_true_iff in He as [He _]. apply negb_true_iff, He.
Qed.

(** X12: the decrypt-state marks never reach the wire. The payload that
    comes back marked waitingForKey and errorDecrypting when no key is
    found, and the payload the bulk decrypt's catch block marks
    errorDecrypting, both eject to exactly the object the unmarked payload
    ejects to. *)
Theorem marks_do_not_change_ejected (p : t) :
  constructed p ->
  (keyToUseForDecryptionOfPayload p = Ok None ->
   exists waiting,
     payloadByDecryptingPayload p None = Ok waiting /\
     waitingForKey waiting = Some true /\
     ejected waiting = ejected p) /\
  (exists marked,
     CreatePayloadFromAnyObject p (errorDecryptingOverride p) = Ok marked /\
     errorDecrypting marked = Some true /\
     ejected marked = ejected p).
Proof.
  intros Hc. apply constructed_wellFormed in Hc. split.
  - intros Hkey. unfold payloadByDecryptingPayload. rewrite Hkey.
    cbn [mbind Result_bind].
    rewrite (CreatePayloadFromAnyObject_wellFormed p waitingForKeyOverride Hc)
      by first [reflexivity | not_a_key].
    eexists. split; [reflexivity |]. split; [reflexivity |].
    symmetry. apply ejected_ext.
    + intros f He. cbn [fields]. symmetry. apply unionFields_persistable.
      * intros Hin. change (Raw.keys waitingForKeyOverride)
          with [WaitingForKey; ErrorDecrypting] in Hin.
        apply elem_of_cons in Hin as [-> | Hin]; [reflexivity |].
        apply list_elem_of_singleton in Hin as ->. reflexivity.
      * exact (ejects_persistable p f He).
    + intros f. destruct f; reflexivity.
    + intros f He. apply ejects_persistable in He.
      destruct f; try reflexivity; discriminate He.
  - rewrite (CreatePayloadFromAnyObject_wellFormed p
               (errorDecryptingOverride p) Hc) by first [reflexivity | not_a_key].
    eexists. split; [reflexivity |]. split; [reflexivity |].
    symmetry. apply ejected_ext.
    + intros f He. cbn [fields]. symmetry. apply unionFields_persistable.
      * intros Hin. change (Raw.keys (errorDecryptingOverride p))
          with [ErrorDecrypting; ErrorDecryptingChanged] in Hin.
        apply elem_of_cons in Hin as [-> | Hin]; [reflexivity |].
        apply list_elem_of_singleton in Hin as ->. reflexivity.
      * exact (ejects_persistable p f He).
    + intros f. destruct f; reflexivity.
    + intros f He. apply ejects_persistable in He.
      destruct f; try reflexivity; discriminate He.
Qed.

(** *** Encrypting with a key *)

(** X13: with a key supplied, [payloadByEncryptingPayload] returns a
    payload only for the intents Sync, LocalStorageEncrypted, FileEncrypted
    and LocalStoragePreferEncrypted and only when there is an operator for
    the key's version: a decrypted intent throws the unhandled-case error
    whatever the key; a key whose version names something the array of
    operators inherits (["map"], say) throws a TypeError, that value having
    no [generateEncryptionParameters]; and a key of any other unknown
    version throws UnableToFindOperator naming that version. The key manager
    is not consulted. *)
Theorem payloadByEncryptingPayload_with_key (payload : t) (k : Key.t)
    (intent : Intent) :
  (intent ∈ [LocalStorageDecrypted; FileDecrypted] ->
   payloadByEncryptingPayload payload (Some k) intent
     = Throw UnhandledFormatCase) /\
  (intent ∉ [LocalStorageDecrypted; FileDecrypted] ->
   payloadByEncryptingPayload payload (Some k) intent
     = encryptAs payload (Some k) (Key.version k) (Some EncryptedString)) /\
  (intent ∉ [LocalStorageDecrypted; FileDecrypted] ->
   inheritedByArray (Key.version k) = true ->
   exists message,
     payloadByEncryptingPayload payload (Some k) intent
     = Throw (TypeError message)) /\
  (intent ∉ [LocalStorageDecrypted; FileDecrypted] ->
   inheritedByArray (Key.version k) = false ->
   ~ (Key.version k ∈ supportedVersions
      \/ Key.version k = V000Base64Decrypted) ->
   payloadByEncryptingPayload payload (Some k) intent
     = Throw (UnableToFindOperator (Key.version k))) /\
  (forall p',
     payloadByEncryptingPayload payload (Some k) intent = Ok p' ->
     intent ∈ [Sync; LocalStorageEncrypted; FileEncrypted;
               LocalStoragePreferEncrypted] /\
     inheritedByArray (Key.version k) = false /\
     (Key.version k ∈ supportedVersions
      \/ Key.version k = V000Base64Decrypted)).
Proof.
  assert (Hstart : payloadByEncryptingPayload payload (Some k) intent
            = (format ← payloadContentFormatForIntent (Some k) intent;
               encryptAs payload (Some k) (Key.version k) format))
    by reflexivity.
  assert (Hdec : intent ∈ [LocalStorageDecrypted; FileDecrypted] ->
                 payloadByEncryptingPayload payload (Some k) intent
                   = Throw UnhandledFormatCase).
  { intros Hin. rewrite Hstart.
    apply elem_of_cons in Hin as [-> | Hin]; [reflexivity |].
    apply list_elem_of_singleton in Hin as ->. reflexivity. }
  assert (Henc : intent ∉ [LocalStorageDecrypted; FileDecrypted] ->
                 payloadByEncryptingPayload payload (Some k) intent
                   = encryptAs payload (Some k) (Key.version k)
                       (Some EncryptedString)).
  { intros Hn. rewrite Hstart.
    destruct intent; try reflexivity; exfalso; apply Hn;
      [apply list_elem_of_here
      | apply list_elem_of_further, list_elem_of_here]. }
  assert (Hinherited : inheritedByArray (Key.version k) = true ->
                       exists message,
                         encryptAs payload (Some k) (Key.version k)
                           (Some EncryptedString)
                         = Throw (TypeError message)).
  { intros Hi. unfold encryptAs.
    rewrite (VersionFacts.operatorForVersion_inherited _ Hi).
    eexists. reflexivity. }
  assert (Hunknown : inheritedByArray (Key.version k) = false ->
                     ~ (Key.version k ∈ supportedVersions
                        \/ Key.version k = V000Base64Decrypted) ->
                     encryptAs payload (Some k) (Key.version k)
                       (Some EncryptedString)
                     = Throw (UnableToFindOperator (Key.version k))).
  { intros Hi Hn. unfold encryptAs.
    rewrite (VersionFacts.operatorForVersion_unknown _ Hi Hn). reflexivity. }
  split; [exact Hdec |]. split; [exact Henc |]. split; [| split].
  - intros Hn Hi. rewrite (Henc Hn). exact (Hinherited Hi).
  - intros Hn Hi Hv. rewrite (Henc Hn). exact (Hunknown Hi Hv).
  - intros p' Hrun.
    destruct (decide (intent ∈ [LocalStorageDecrypted; FileDecrypted]))
      as [Hin | Hn]; [rewrite (Hdec Hin) in Hrun; discriminate |].
    split; [| split].
    + destruct intent;
        try (exfalso; apply Hn;
             first [apply list_elem_of_here
                   | apply list_elem_of_further, list_elem_of_here]).
      * apply list_elem_of_here.
      * apply list_elem_of_further, list_elem_of_here.
      * do 3 apply list_elem_of_further. apply list_elem_of_here.
      * do 2 apply list_elem_of_further. apply list_elem_of_here.
    + destruct (inheritedByArray (Key.version k)) eqn:Hi; [| reflexivity].
      destruct (Hinherited eq_refl) as [message Hthrow].
      rewrite (Henc Hn), Hthrow in Hrun. discriminate.
    + destruct (inheritedByArray (Key.version k)) eqn:Hi.
      { destruct (Hinherited eq_refl) as [message Hthrow].
        rewrite (Henc Hn), Hthrow in Hrun. discriminate. }
      destruct (decide (Key.version k ∈ supportedVersions
                        \/ Key.version k = V000Base64Decrypted))
        as [Hv | Hv]; [exact Hv |].
      rewrite (Henc Hn), (Hunknown eq_refl Hv) in Hrun. discriminate.
Qed.

End More.

(** The demonstrations run in the small world of the earlier examples. *)

(** What the manager finds under a supported version, under "000", under a
    tag nobody knows, under the array's own [length] and under the name of a
    method every array has. *)
Example operatorForVersion_of_demo :
  @operatorForVersion demo "004" = Ok (Made Operator004) /\
  @operatorForVersion demo "000" = Ok (Made Operator004) /\
  @operatorForVersion demo "009" = Throw (UnableToFindOperator "009") /\
  @operatorForVersion demo "length" = Throw (UnableToFindOperator "length") /\
  @operatorForVersion demo "map" = Ok (Inherited "map").
Proof. vm_compute. repeat split. Qed.

(** A payload whose content begins with "map", and a key whose version is
    "pop": the method the array inherits is taken for the operator, and the
    call of the operator's method throws a TypeError. *)
Example inherited_method_taken_for_operator :
  @payloadByDecryptingPayload demo (encryptedNote "u-2" "k-1" "map:zzz")
    (Some demoKey)
  = Throw (TypeError "operator.generateDecryptedParameters is not a function")
  /\
  @payloadByEncryptingPayload demo (encryptedNote "u-2" "k-1" "004:zzz")
    (Some (Key.mk "pop" "items-key")) Sync
  = Throw (TypeError "operator.generateEncryptionParameters is not a function").
Proof. vm_compute. repeat split. Qed.

Lemma payloadByDecryptingPayload_with_key_witness :
  @payloadByDecryptingPayload demo (encryptedNote "u-2" "k-1" "009:zzz") None
  = Throw (UnableToFindOperator "009").
Proof.
  destruct (@payloadByDecryptingPayload_with_key demo
              (encryptedNote "u-2" "k-1" "009:zzz") None demoKey
              (encryptedNote_constructed "u-2" "k-1" "009:zzz"
                 ltac:(discriminate))
              (or_intror (conj eq_refl eq_refl)))
    as [_ Hstring].
  destruct (Hstring "009" eq_refl eq_refl) as (_ & Hunknown & _).
  apply Hunknown; [reflexivity |]. intros [Hin | Heq]; [| discriminate].
  apply VersionFacts.supportedVersions_spec in Hin.
  destruct Hin as [? | [? | [? | ?]]]; discriminate.
Defined.

Lemma marks_do_not_change_ejected_witness :
  exists waiting,
    @payloadByDecryptingPayload demo
       (encryptedNote "u-3" "k-2" "004:nonce:ct:aad") None = Ok waiting /\
    waitingForKey waiting = Some true /\
    ejected waiting = ejected (encryptedNote "u-3" "k-2" "004:nonce:ct:aad").
Proof.
  destruct (@marks_do_not_change_ejected demo
              (encryptedNote "u-3" "k-2" "004:nonce:ct:aad")
              (encryptedNote_constructed "u-3" "k-2" "004:nonce:ct:aad"
                 ltac:(discriminate))) as [Hwaiting _].
  exact (Hwaiting eq_refl).
Defined.

Lemma payloadsByDecryptingPayloads_flag_irrelevant_witness :
  @payloadsByDecryptingPayloads demo
     [Falsy; APayload (encryptedNote "u-1" "k-1" "004:nonce:ct:aad");
      APayload (build tombstoneRaw)] true
  = @payloadsByDecryptingPayloads demo
     [Falsy; APayload (encryptedNote "u-1" "k-1" "004:nonce:ct:aad");
      APayload (build tombstoneRaw)] false.
Proof.
  apply (@payloadsByDecryptingPayloads_flag_irrelevant demo).
  repeat constructor.
Defined.

Lemma payloadsByDecryptingPayloads_fails_only_on_non_payload_witness :
  @payloadsByDecryptingPayloads demo
     [APayload (encryptedNote "u-2" "k-1" "009:zzz"); NotAPayload; Falsy]
     false
  = Throw NonPayloadObject.
Proof.
  apply (@payloadsByDecryptingPayloads_fails_only_on_non_payload demo).
  - repeat constructor. apply encryptedNote_constructed. discriminate.
  - apply list_elem_of_further, list_elem_of_here.
Defined.

End ProtocolManagerMoreFacts.

Module IntegrityMoreFacts.
Import IntegrityFacts.

(** Later timestamps first, on the time values themselves. *)
Definition laterFirst (x y : Z) : Prop := (y <= x)%Z.

#[local] Instance laterFirst_antisymm : AntiSymm (=) laterFirst.
Proof. intros x y Hxy Hyx. unfold laterFirst in *. lia. Qed.

Lemma fmap_determined {A B C : Type} (key : A -> B) (value : A -> C)
    (l l' : list A) :
  (forall a b, key a = key b -> value a = value b) ->
  key <$> l = key <$> l' -> value <$> l = value <$> l'.
Proof.
  intros Hdet. revert l'. induction l as [| a l IH]; intros [| b l'];
    cbn; try discriminate; [reflexivity |].
  intros [= Hab Hrest]. f_equal; [exact (Hdet a b Hab) | exact (IH l' Hrest)].
Qed.

Section HashMore.
Context `{IntegrityCollaborators}.

(** Sorting two arrangements of the same items gives the same run of
    timestamps. *)
Lemma sorted_timestamps_of_Permutation (l l' : list Item.t) :
  (forall a b, Item.updated_at a = Item.updated_at b ->
               updatedAtTimestamp a = updatedAtTimestamp b) ->
  l ≡ₚ l' ->
  updatedAtTimestamp <$> sort byUpdatedAtDescending l
  = updatedAtTimestamp <$> sort byUpdatedAtDescending l'.
Proof.
  intros Hdet Hperm. apply (fmap_determined Item.updated_at); [exact Hdet |].
  destruct (sort_byUpdatedAtDescending l) as [Hp Hs].
  destruct (sort_byUpdatedAtDescending l') as [Hp' Hs'].
  apply (sorting.StronglySorted_unique laterFirst).
  - eapply sorting.StronglySorted_fmap; [| exact Hs].
    intros a b Hab. exact Hab.
  - eapply sorting.StronglySorted_fmap; [| exact Hs'].
    intros a b Hab. exact Hab.
  - rewrite Hp, Hp', Hperm. reflexivity.
Qed.

Lemma allNondummyItems_filter (items : list Item.t) :
  allNondummyItems items
  = filter (fun item => Item.dummy item = false) items.
Proof.
  unfold allNondummyItems.
  induction items as [| item items IH]; [reflexivity |].
  cbn [List.filter]. rewrite filter_cons, IH.
  destruct item as [u t d []]; cbn [Item.dummy negb].
  - rewrite decide_False by discriminate. reflexivity.
  - rewrite decide_True by reflexivity. reflexivity.
Qed.

(** X14: the integrity hash does not depend on the order in which the
    model manager holds its items, nor on its deleted and dummy items: when
    [updatedAtTimestamp()] is determined by [updated_at], two collections
    with the same non-deleted, non-dummy items (as multisets) have the same
    sync-manager hash, and two collections with the same non-dummy items
    have the same protocol-manager hash. *)
Theorem computeDataIntegrityHash_order_independent (items items' : list Item.t) :
  (forall a b, Item.updated_at a = Item.updated_at b ->
               updatedAtTimestamp a = updatedAtTimestamp b) ->
  (filter (fun item => Item.deleted item = false /\ Item.dummy item = false)
          items
   ≡ₚ filter (fun item => Item.deleted item = false
                          /\ Item.dummy item = false) items' ->
   computeDataIntegrityHash items = computeDataIntegrityHash items') /\
  (filter (fun item => Item.dummy item = false) items
   ≡ₚ filter (fun item => Item.dummy item = false) items' ->
   protocolManager_computeDataIntegrityHash items
   = protocolManager_computeDataIntegrityHash items').
Proof.
  intros Hdet. split; intros Hperm.
  - unfold computeDataIntegrityHash, join. cbn zeta.
    rewrite <- !nonDeletedItems_filter in Hperm.
    rewrite (sorted_timestamps_of_Permutation _ _ Hdet Hperm). reflexivity.
  - unfold protocolManager_computeDataIntegrityHash, join. cbn zeta.
    rewrite <- !allNondummyItems_filter in Hperm.
    rewrite (sorted_timestamps_of_Permutation _ _ Hdet Hperm). reflexivity.
Qed.

(** X15: the protocol manager's [computeDataIntegrityHash] is the SHA-256
    digest of the comma-joined timestamps of exactly the non-dummy items,
    deleted ones included, by [updated_at] descending; it is the sync
    manager's hash whenever no non-dummy item is deleted. *)
Theorem protocolManager_computeDataIntegrityHash_digest (items : list Item.t) :
  (exists ordered,
     protocolManager_computeDataIntegrityHash items
       = sha256 (String.concat ","
                   (map (fun item => pretty (updatedAtTimestamp item))
                        ordered)) /\
     ordered ≡ₚ filter (fun item => Item.dummy item = false) items /\
     StronglySorted
       (fun a b => (Item.updated_at b <= Item.updated_at a)%Z) ordered) /\
  (Forall (fun item => Item.dummy item = false -> Item.deleted item = false)
          items ->
   protocolManager_computeDataIntegrityHash items
   = computeDataIntegrityHash items).
Proof.
  split.
  - exists (sort byUpdatedAtDescending (allNondummyItems items)).
    destruct (sort_byUpdatedAtDescending (allNondummyItems items))
      as [Hperm Hsorted].
    split; [| split; [| exact Hsorted]].
    + unfold protocolManager_computeDataIntegrityHash, join. cbn zeta.
      rewrite <- list_fmap_compose. reflexivity.
    + rewrite Hperm, allNondummyItems_filter. reflexivity.
  - intros Hall.
    unfold protocolManager_computeDataIntegrityHash, computeDataIntegrityHash.
    cbn zeta. do 4 f_equal. unfold allNondummyItems, nonDeletedItems.
    induction Hall as [| item items Hitem _ IH]; [reflexivity |].
    cbn [List.filter]. rewrite IH.
    destruct item as [u t d []]; cbn [Item.dummy Item.deleted negb andb] in *.
    + rewrite andb_false_r. reflexivity.
    + rewrite (Hitem eq_refl). reflexivity.
Qed.

End HashMore.

Lemma computeDataIntegrityHash_order_independent_witness :
  @computeDataIntegrityHash transparent
     [Item.mk "a" 3 false false; Item.mk "b" 5 true false;
      Item.mk "d" 9 false false]
  = @computeDataIntegrityHash transparent
     [Item.mk "d" 9 false false; Item.mk "c" 4 false true;
      Item.mk "a" 3 false false].
Proof.
  apply (@computeDataIntegrityHash_order_independent transparent).
  - intros a b Hab. exact Hab.
  - vm_compute. apply perm_swap.
Defined.

End IntegrityMoreFacts.

Module OperationRunFacts.
Import Operation OperationRun ArrayFacts.

Section Run.
Context {P : Type} `{EqDecision P}.

(** The state in which a request is awaited. *)
Record awaiting (op : t P) : Prop := {
  aw_cancleled : cancleled op = false;
  aw_cancelable : cancelable op = Some false;
  aw_running : running op = true
}.

Lemma rounds_returned (flights : list Flight) (op : t P) :
  rounds flights op None = mkRun op [] true.
Proof. destruct flights; reflexivity. Qed.

Lemma run_awaiting (op : t P) :
  cancleled op = false ->
  exists op',
    run op
    = (op', Some (Request.mk (firstn upLimit (pendingPayloads op))
                    (lastSyncToken op) (paginationToken op) downLimit
                    (checkIntegrity op))) /\
    awaiting op' /\
    pendingPayloads op' = skipn upLimit (pendingPayloads op) /\
    lastSyncToken op' = lastSyncToken op /\
    paginationToken op' = paginationToken op /\
    checkIntegrity op' = checkIntegrity op /\
    responses op' = responses op.
Proof.
  intros Hc. eexists. split.
  - unfold run. rewrite Hc. unfold popPayloads.
    rewrite subtractFromArray_firstn. reflexivity.
  - repeat split; try reflexivity. exact Hc.
Qed.

(** One round on, when nobody cancels. *)
Lemma nextRound_uncancelled (op : t P) (flight : Flight) :
  awaiting op -> cancels flight = false ->
  let answered := resumeRun op (response flight) in
  if needsMoreSync answered
  then exists op',
         nextRound op flight
         = (op', Some (Request.mk (firstn upLimit (pendingPayloads op))
                         (Response.lastSyncToken (response flight))
                         (Response.paginationToken (response flight))
                         downLimit (checkIntegrity op))) /\
         awaiting op' /\
         pendingPayloads op' = skipn upLimit (pendingPayloads op) /\
         lastSyncToken op' = Response.lastSyncToken (response flight) /\
         paginationToken op' = Response.paginationToken (response flight) /\
         checkIntegrity op' = checkIntegrity op /\
         responses op' = responses op ++ [response flight]
  else nextRound op flight = (setRunning answered false, None).
Proof.
  intros [Hc Hl Hr] Hn. cbn zeta. unfold nextRound. rewrite Hn.
  unfold finishRun. destruct (needsMoreSync _); [| reflexivity].
  destruct (run_awaiting (resumeRun op (response flight)) Hc)
    as (op' & Hrun & Haw & Hp & Hl' & Hp' & Hci & Hrs).
  exists op'. rewrite Hrun. split; [reflexivity |].
  split; [exact Haw |]. repeat split; assumption.
Qed.

(** One round on, when [tryCancel()] was called meanwhile. *)
Lemma nextRound_cancelled (op : t P) (flight : Flight) :
  awaiting op -> cancels flight = true ->
  exists op',
    nextRound op flight = (op', None) /\
    cancleled op' = true /\
    pendingPayloads op' = pendingPayloads op /\
    lastSyncToken op' = Response.lastSyncToken (response flight) /\
    paginationToken op' = Response.paginationToken (response flight) /\
    responses op' = responses op ++ [response flight] /\
    running op' = needsMoreSync op'.
Proof.
  intros [Hc Hl Hr] Hy. unfold nextRound, tryCancel. rewrite Hy, Hl.
  cbn [default negb fst]. unfold finishRun.
  destruct (needsMoreSync _) eqn:Hmore.
  - eexists. split; [reflexivity |]. repeat split; try reflexivity.
    rewrite Hmore. exact Hr.
  - eexists. split; [reflexivity |]. repeat split; try reflexivity.
    cbn [running setRunning]. symmetry. exact Hmore.
Qed.

Lemma rounds_cons (flight : Flight) (rest : list Flight) (op : t P)
    (request : Request.t P) :
  rounds (flight :: rest) op (Some request)
  = let run := rounds rest (fst (nextRound op flight))
                      (snd (nextRound op flight)) in
    mkRun (final run) (request :: requests run) (returned run).
Proof. cbn [rounds]. destruct (nextRound op flight). reflexivity. Qed.

(** The three ways a round goes on from the [await]. *)
Ltac round_cases op flight Haw :=
  let Hcancels := fresh "Hcancels" in
  let Hnext := fresh "Hnext" in
  let Hmore := fresh "Hmore" in
  rewrite rounds_cons;
  destruct (cancels flight) eqn:Hcancels;
  [ destruct (nextRound_cancelled op flight Haw Hcancels)
      as (?op' & Hnext & ?Hcd & ?Hpend & ?Hlst & ?Hpag & ?Hresp & ?Hrun)
  | pose proof (nextRound_uncancelled op flight Haw Hcancels) as Hnext;
    cbn zeta in Hnext;
    destruct (needsMoreSync (resumeRun op (response flight))) eqn:Hmore;
    [ destruct Hnext
        as (?op' & Hnext & ?Haw' & ?Hpend & ?Hlst & ?Hpag & ?Hci & ?Hresp)
    | ] ];
  rewrite Hnext; cbn [fst snd]; rewrite ?rounds_returned;
  cbn [final requests returned].

(** The requests that follow the awaited one are consecutive slices of what
    is pending. *)
Lemma rounds_batches (flights : list Flight) :
  forall (op : t P) (request : Request.t P),
    awaiting op ->
    exists more,
      requests (rounds flights op (Some request)) = request :: more /\
      length more <= length flights /\
      (forall i rq, more !! i = Some rq ->
         Request.payloads rq
         = firstn upLimit (skipn (upLimit * i) (pendingPayloads op)) /\
         Request.limit rq = downLimit /\
         Request.checkIntegrity rq = checkIntegrity op) /\
      pendingPayloads (final (rounds flights op (Some request)))
      = skipn (upLimit * length more) (pendingPayloads op) /\
      concat (Request.payloads <$> more)
        ++ pendingPayloads (final (rounds flights op (Some request)))
      = pendingPayloads op.
Proof.
  induction flights as [| flight rest IH]; intros op request Haw.
  - exists []. cbn [rounds requests final length].
    rewrite Nat.mul_0_r. split; [reflexivity |]. split; [lia |]. split.
    + intros i rq Hi. rewrite lookup_nil in Hi. discriminate.
    + split; reflexivity.
  - round_cases op flight Haw.
    + exists []. cbn [length]. rewrite Nat.mul_0_r.
      split; [reflexivity |]. split; [lia |]. split.
      * intros i rq Hi. rewrite lookup_nil in Hi. discriminate.
      * split; [exact Hpend | cbn; exact Hpend].
    + destruct (IH op' (Request.mk (firstn upLimit (pendingPayloads op))
                          (Response.lastSyncToken (response flight))
                          (Response.paginationToken (response flight))
                          downLimit (checkIntegrity op)) Haw')
        as (more & Hrequests & Hlen & Hslices & Hleft & Hall).
      rewrite Hrequests. eexists. split; [reflexivity |].
      cbn [length]. split; [lia |]. split; [| split].
      * intros [| i] rq Hi; cbn in Hi.
        -- injection Hi as <-. cbn [Request.payloads Request.limit
             Request.checkIntegrity]. rewrite Nat.mul_0_r.
           repeat split; reflexivity.
        -- destruct (Hslices i rq Hi) as (Hpayloads & Hlimit & Hcheck).
           rewrite Hpayloads, Hpend, drop_drop, Hlimit, Hcheck, Hci.
           replace (upLimit + upLimit * i) with (upLimit * S i) by lia.
           repeat split; reflexivity.
      * rewrite Hleft, Hpend, drop_drop.
        replace (upLimit + upLimit * length more)
          with (upLimit * S (length more)) by lia.
        reflexivity.
      * rewrite fmap_cons, concat_cons. cbn [Request.payloads].
        rewrite <- app_assoc, Hall, Hpend. apply firstn_skipn.
    + exists []. cbn [length]. rewrite Nat.mul_0_r.
      split; [reflexivity |]. split; [lia |]. split.
      * intros i rq Hi. rewrite lookup_nil in Hi. discriminate.
      * split; reflexivity.
Qed.

(** What a run leaves pending, and how many requests it posts. *)
Lemma run_leaves_pending (op : t P) (flights : list Flight) :
  cancleled op = false ->
  pendingPayloads (final (runWith op flights))
  = skipn (upLimit * length (requests (runWith op flights)))
          (pendingPayloads op) /\
  1 <= length (requests (runWith op flights)) <= S (length flights).
Proof.
  intros Hc. unfold runWith.
  destruct (run_awaiting op Hc)
    as (op' & -> & Haw & Hpend & _ & _ & Hci & _).
  destruct (rounds_batches flights op'
              (Request.mk (firstn upLimit (pendingPayloads op))
                 (lastSyncToken op) (paginationToken op) downLimit
                 (checkIntegrity op)) Haw)
    as (more & Hrequests & Hlen & _ & Hleft & _).
  rewrite Hrequests. cbn [length]. split; [| lia].
  rewrite Hleft, Hpend, drop_drop.
  replace (upLimit + upLimit * length more)
    with (upLimit * S (length more)) by lia.
  reflexivity.
Qed.

(** X16: a run posts the payloads in consecutive batches of [upLimit] =
    150, in order, each once: request number [i] (from 0) carries payloads
    [150 i] up to [150 (i + 1)] of those that were pending, asks for at most
    150 items back and carries the operation's integrity flag; what is left
    pending is what lies behind the batches posted. At least one request is
    posted, also when nothing is pending, and at most one more than there
    are responses. A cancelled operation posts nothing. *)
Theorem run_posts_consecutive_batches (op : t P) (flights : list Flight) :
  upLimit = 150 /\
  (cancleled op = true -> runWith op flights = mkRun op [] true) /\
  (cancleled op = false ->
   (forall i request,
      requests (runWith op flights) !! i = Some request ->
      Request.payloads request
      = firstn upLimit (skipn (upLimit * i) (pendingPayloads op)) /\
      Request.limit request = downLimit /\
      Request.checkIntegrity request = checkIntegrity op) /\
   pendingPayloads (final (runWith op flights))
   = skipn (upLimit * length (requests (runWith op flights)))
           (pendingPayloads op) /\
   concat (Request.payloads <$> requests (runWith op flights))
     ++ pendingPayloads (final (runWith op flights))
   = pendingPayloads op /\
   1 <= length (requests (runWith op flights)) <= S (length flights)).
Proof.
  split; [reflexivity |]. split.
  - intros Hc. unfold runWith, run. rewrite Hc. apply rounds_returned.
  - intros Hc. unfold runWith.
    destruct (run_awaiting op Hc)
      as (op' & -> & Haw & Hpend & _ & _ & Hci & _).
    destruct (rounds_batches flights op'
                (Request.mk (firstn upLimit (pendingPayloads op))
                   (lastSyncToken op) (paginationToken op) downLimit
                   (checkIntegrity op)) Haw)
      as (more & Hrequests & Hlen & Hslices & Hleft & Hall).
    rewrite Hrequests. cbn [length]. split; [| split; [| split]].
    + intros [| i] request Hi; cbn in Hi.
      * injection Hi as <-. cbn [Request.payloads Request.limit
          Request.checkIntegrity]. rewrite Nat.mul_0_r.
        repeat split; reflexivity.
      * destruct (Hslices i request Hi) as (Hpayloads & Hlimit & Hcheck).
        rewrite Hpayloads, Hpend, drop_drop, Hlimit, Hcheck, Hci.
        replace (upLimit + upLimit * i) with (upLimit * S i) by lia.
        repeat split; reflexivity.
    + rewrite Hleft, Hpend, drop_drop.
      replace (upLimit + upLimit * length more)
        with (upLimit * S (length more)) by lia.
      reflexivity.
    + rewrite fmap_cons, concat_cons. cbn [Request.payloads].
      rewrite <- app_assoc, Hall, Hpend. apply firstn_skipn.
    + lia.
Qed.

(** The responses a run has taken in: one per request, but for the request
    that is still awaited. *)
Definition answered (r : Run P) : nat :=
  if returned r then length (requests r) else pred (length (requests r)).

Lemma rounds_head (flights : list Flight) (op : t P) (request : Request.t P) :
  exists more, requests (rounds flights op (Some request)) = request :: more.
Proof.
  destruct flights; [| rewrite rounds_cons]; eexists; reflexivity.
Qed.

Lemma answered_cons (op : t P) (request : Request.t P) (r : Run P) :
  1 <= length (requests r) ->
  answered (mkRun op (request :: requests r) (returned r)) = S (answered r).
Proof.
  intros Hlen. unfold answered. cbn [returned requests length].
  destruct (returned r); lia.
Qed.

Lemma foldl_plus {A : Type} (f : A -> nat) (l : list A) :
  forall total : nat,
    foldl (fun total x => total + f x) total l = total + sum_list (f <$> l).
Proof.
  induction l as [| x l IH]; intros total; cbn [foldl fmap list_fmap sum_list
    sum_list_with]; [lia |].
  rewrite IH. cbn. lia.
Qed.

Lemma rounds_tokens (flights : list Flight) :
  forall (op : t P) (request : Request.t P),
    awaiting op ->
    (forall i rq flight,
       requests (rounds flights op (Some request)) !! S i = Some rq ->
       flights !! i = Some flight ->
       Request.lastSyncToken rq = Response.lastSyncToken (response flight) /\
       Request.paginationToken rq
       = Response.paginationToken (response flight)) /\
    answered (rounds flights op (Some request)) <= length flights /\
    responses (final (rounds flights op (Some request)))
    = responses op
      ++ (response <$> firstn (answered (rounds flights op (Some request)))
                              flights) /\
    (lastSyncToken (final (rounds flights op (Some request))),
     paginationToken (final (rounds flights op (Some request))))
    = match last (firstn (answered (rounds flights op (Some request)))
                         flights) with
      | Some flight => (Response.lastSyncToken (response flight),
                        Response.paginationToken (response flight))
      | None => (lastSyncToken op, paginationToken op)
      end.
Proof.
  induction flights as [| flight rest IH]; intros op request Haw.
  - cbn [rounds requests final answered returned length pred firstn fmap
         list_fmap last].
    rewrite app_nil_r. split; [| split; [lia | split; reflexivity]].
    intros i rq flight Hi. rewrite lookup_nil. discriminate.
  - round_cases op flight Haw.
    + unfold answered.
      cbn [returned requests final length firstn fmap list_fmap last].
      split; [| split; [lia | split]].
      * intros i rq f Hi. cbn in Hi. discriminate.
      * exact Hresp.
      * rewrite Hlst, Hpag. reflexivity.
    + set (rq' := Request.mk (firstn upLimit (pendingPayloads op))
                    (Response.lastSyncToken (response flight))
                    (Response.paginationToken (response flight))
                    downLimit (checkIntegrity op)).
      destruct (IH op' rq' Haw') as (Hthread & Hans & Hresponses & Htokens).
      destruct (rounds_head rest op' rq') as [more Hhead].
      rewrite answered_cons by (rewrite Hhead; cbn [length]; lia).
      cbn [firstn length fmap list_fmap].
      split; [| split; [lia | split]].
      * intros [| i] rq f Hi Hf; cbn in Hi, Hf.
        -- rewrite Hhead in Hi. cbn in Hi. injection Hi as <-.
           injection Hf as <-. split; reflexivity.
        -- exact (Hthread i rq f Hi Hf).
      * rewrite Hresponses, Hresp, <- app_assoc. reflexivity.
      * rewrite Htokens, last_cons.
        destruct (last _); [reflexivity |]. rewrite Hlst, Hpag. reflexivity.
    + unfold answered.
      cbn [returned requests final length firstn fmap list_fmap last].
      split; [| split; [lia | split; reflexivity]].
      intros i rq f Hi. cbn in Hi. discriminate.
Qed.

(** X17: the tokens are threaded through a run: the first request carries
    the sync and pagination tokens the operation was given, every later
    request those of the response before it, and the operation is left with
    those of the last response taken in. The responses taken in are kept in
    order behind those already held, and [numberOfItemsInvolved] grows by
    the sum of their counts. *)
Theorem run_threads_tokens (op : t P) (flights : list Flight) :
  cancleled op = false ->
  (forall request,
     requests (runWith op flights) !! 0 = Some request ->
     Request.lastSyncToken request = lastSyncToken op /\
     Request.paginationToken request = paginationToken op) /\
  (forall i request flight,
     requests (runWith op flights) !! S i = Some request ->
     flights !! i = Some flight ->
     Request.lastSyncToken request = Response.lastSyncToken (response flight) /\
     Request.paginationToken request
     = Response.paginationToken (response flight)) /\
  answered (runWith op flights) <= length flights /\
  responses (final (runWith op flights))
  = responses op
    ++ (response <$> firstn (answered (runWith op flights)) flights) /\
  (lastSyncToken (final (runWith op flights)),
   paginationToken (final (runWith op flights)))
  = match last (firstn (answered (runWith op flights)) flights) with
    | Some flight => (Response.lastSyncToken (response flight),
                      Response.paginationToken (response flight))
    | None => (lastSyncToken op, paginationToken op)
    end /\
  numberOfItemsInvolved (final (runWith op flights))
  = numberOfItemsInvolved op
    + sum_list (Response.numberOfItemsInvolved
                  <$> (response <$> firstn (answered (runWith op flights))
                                           flights)).
Proof.
  intros Hc. unfold runWith.
  destruct (run_awaiting op Hc)
    as (op' & -> & Haw & _ & Hlst & Hpag & _ & Hrs).
  set (request := Request.mk _ _ _ _ _).
  destruct (rounds_tokens flights op' request Haw)
    as (Hthread & Hans & Hresponses & Htokens).
  destruct (rounds_head flights op' request) as [more Hhead].
  split; [| split; [exact Hthread | split; [exact Hans |]]].
  - intros rq Hi. rewrite Hhead in Hi. cbn in Hi. injection Hi as <-.
    split; reflexivity.
  - rewrite Hrs in Hresponses. split; [exact Hresponses |]. split.
    + rewrite Htokens, Hlst, Hpag. reflexivity.
    + unfold numberOfItemsInvolved. rewrite Hresponses, foldl_app.
      apply foldl_plus.
Qed.

(** How a run stands when the responses are used up. *)
Lemma rounds_returns (flights : list Flight) :
  forall (op : t P) (request : Request.t P),
    awaiting op ->
    (returned (rounds flights op (Some request)) = false ->
     length (requests (rounds flights op (Some request))) = S (length flights)
     /\ awaiting (final (rounds flights op (Some request)))) /\
    (returned (rounds flights op (Some request)) = true ->
     length (requests (rounds flights op (Some request))) <= length flights /\
     (cancleled (final (rounds flights op (Some request))) = false ->
      needsMoreSync (final (rounds flights op (Some request))) = false /\
      running (final (rounds flights op (Some request))) = false) /\
     (cancleled (final (rounds flights op (Some request))) = true ->
      exists flight,
        flights
          !! pred (length (requests (rounds flights op (Some request))))
        = Some flight /\
        cancels flight = true)).
Proof.
  induction flights as [| flight rest IH]; intros op request Haw.
  - cbn [rounds requests final returned length].
    split; [intros _; split; [reflexivity | exact Haw] | discriminate].
  - round_cases op flight Haw.
    + split; [discriminate |]. intros _. cbn [length pred].
      split; [lia |]. split; [congruence |]. intros _.
      exists flight. split; [reflexivity | assumption].
    + set (rq' := Request.mk (firstn upLimit (pendingPayloads op))
                    (Response.lastSyncToken (response flight))
                    (Response.paginationToken (response flight))
                    downLimit (checkIntegrity op)).
      destruct (IH op' rq' Haw') as [Hsuspended Hreturned].
      destruct (rounds_head rest op' rq') as [more Hhead].
      cbn [length pred]. split.
      * intros Hr. destruct (Hsuspended Hr) as [Hlen Hfinal].
        split; [lia | exact Hfinal].
      * intros Hr. destruct (Hreturned Hr) as (Hlen & Hdone & Hcancel).
        split; [lia |]. split; [exact Hdone |].
        intros Hcd. destruct (Hcancel Hcd) as (f & Hf & Hy).
        exists f. split; [| exact Hy].
        rewrite Hhead in Hf |- *. cbn [length pred] in Hf |- *.
        exact Hf.
    + split; [discriminate |]. intros _. cbn [length pred].
      split; [lia |]. split.
      * intros _. split; [exact Hmore | reflexivity].
      * destruct Haw as [Hc _ _]. cbn [cancleled setRunning resumeRun
          unlockCancelation setCancelable]. congruence.
Qed.

(** A server that is left alone and pages nothing. *)
Definition quiet (flight : Flight) : Prop :=
  cancels flight = false /\
  truthyString (Response.paginationToken (response flight)) = false.

Lemma rounds_quiet (flights : list Flight) :
  forall (op : t P) (request : Request.t P),
    awaiting op -> Forall quiet flights ->
    cancleled (final (rounds flights op (Some request))) = false /\
    (2 <= length (requests (rounds flights op (Some request))) ->
     upLimit * (length (requests (rounds flights op (Some request))) - 2)
     < length (pendingPayloads op)).
Proof.
  induction flights as [| flight rest IH]; intros op request Haw Hquiet.
  - cbn [rounds requests final length]. split; [apply Haw | lia].
  - apply Forall_cons in Hquiet as [[Hno Htoken] Hquiet].
    round_cases op flight Haw; [congruence | |].
    + set (rq' := Request.mk (firstn upLimit (pendingPayloads op))
                    (Response.lastSyncToken (response flight))
                    (Response.paginationToken (response flight))
                    downLimit (checkIntegrity op)).
      destruct (IH op' rq' Haw' Hquiet) as [Hcd Hcount].
      split; [exact Hcd |]. intros _. cbn [length].
      unfold needsMoreSync in Hmore.
      cbn [pendingPayloads paginationToken resumeRun unlockCancelation
           setCancelable] in Hmore.
      rewrite Htoken, orb_false_r in Hmore.
      apply negb_true_iff, bool_decide_eq_false in Hmore.
      assert (0 < length (pendingPayloads op))
        by (destruct (pendingPayloads op); [contradiction | cbn; lia]).
      destruct (rounds_head rest op' rq') as [more Hhead].
      rewrite Hhead in Hcount |- *. cbn [length] in Hcount |- *.
      destruct more as [| rq'' more]; cbn [length] in Hcount |- *.
      * rewrite Nat.sub_diag, Nat.mul_0_r. assumption.
      * specialize (Hcount ltac:(lia)).
        rewrite Hpend, length_drop in Hcount.
        replace (S (S (S (length more))) - 2) with (S (length more)) by lia.
        replace (S (S (length more)) - 2) with (length more) in Hcount by lia.
        lia.
    + split; [| cbn [length]; lia].
      destruct Haw as [Hc _ _]. exact Hc.
Qed.

(** X18: how a run ends. While a request is awaited the run has posted one
    request more than it has responses. A run that has returned without
    being cancelled has nothing pending and holds no pagination token, and
    [running] is false again. From a server that pages nothing, and nobody
    cancelling, the run posts the least number [k >= 1] of requests with
    [150 k] at least the number of payloads, and returns as soon as that
    many responses are in. *)
Theorem run_returns_when_done (op : t P) (flights : list Flight) :
  cancleled op = false ->
  (returned (runWith op flights) = false ->
   length (requests (runWith op flights)) = S (length flights) /\
   cancleled (final (runWith op flights)) = false /\
   running (final (runWith op flights)) = true) /\
  (returned (runWith op flights) = true ->
   cancleled (final (runWith op flights)) = false ->
   pendingPayloads (final (runWith op flights)) = [] /\
   truthyString (paginationToken (final (runWith op flights))) = false /\
   running (final (runWith op flights)) = false /\
   length (pendingPayloads op)
   <= upLimit * length (requests (runWith op flights))) /\
  (Forall quiet flights ->
   (length (requests (runWith op flights)) = 1 \/
    upLimit * (length (requests (runWith op flights)) - 1)
    < length (pendingPayloads op)) /\
   (1 <= length flights ->
    length (pendingPayloads op) <= upLimit * length flights ->
    returned (runWith op flights) = true /\
    cancleled (final (runWith op flights)) = false)).
Proof.
  intros Hc.
  destruct (run_leaves_pending op flights Hc) as (Hleft & Hlen).
  revert Hleft Hlen. unfold runWith.
  destruct (run_awaiting op Hc)
    as (op' & -> & Haw & Hpend & _ & _ & _ & _).
  set (request := Request.mk _ _ _ _ _). intros Hleft Hlen.
  destruct (rounds_returns flights op' request Haw) as [Hsuspended Hreturned].
  assert (Hcount : Forall quiet flights ->
            length (requests (rounds flights op' (Some request))) = 1 \/
            upLimit * (length (requests (rounds flights op' (Some request)))
                       - 1)
            < length (pendingPayloads op)).
  { intros Hquiet.
    destruct (rounds_quiet flights op' request Haw Hquiet) as [_ Hcount].
    destruct (decide (length (requests (rounds flights op' (Some request)))
                      = 1)) as [? | Hne]; [left; assumption | right].
    specialize (Hcount ltac:(lia)).
    rewrite Hpend, length_drop in Hcount.
    destruct (length (requests (rounds flights op' (Some request))))
      as [| [| k]]; [lia | lia |].
    replace (S (S k) - 2) with k in Hcount by lia.
    replace (S (S k) - 1) with (S k) by lia. lia. }
  split; [| split; [| intros Hquiet; split]].
  - intros Hr. destruct (Hsuspended Hr) as [Hl [Hcd _ Hrun]].
    repeat split; assumption.
  - intros Hr Hcd. destruct (Hreturned Hr) as (_ & Hdone & _).
    destruct (Hdone Hcd) as [Hmore Hrun].
    apply orb_false_iff in Hmore as [Hnone Htoken].
    apply negb_false_iff, bool_decide_eq_true in Hnone.
    split; [exact Hnone |]. split; [exact Htoken |]. split; [exact Hrun |].
    rewrite Hnone in Hleft. symmetry in Hleft.
    apply drop_nil_inv in Hleft. exact Hleft.
  - exact (Hcount Hquiet).
  - intros Hsome Henough.
    destruct (rounds_quiet flights op' request Haw Hquiet) as [Hcd _].
    split; [| exact Hcd].
    destruct (returned (rounds flights op' (Some request))) eqn:Hr;
      [reflexivity |].
    destruct (Hsuspended eq_refl) as [Hl _].
    destruct (Hcount Hquiet) as [Hone | Hmany]; [lia |].
    rewrite Hl in Hmany. cbn [Nat.sub] in Hmany.
    rewrite Nat.sub_0_r in Hmany. lia.
Qed.

(** A run over more responses carries on where the run over the first of
    them stands; once it has returned, nothing more is taken in. *)
Lemma rounds_app (before : list Flight) :
  forall (after : list Flight) (op : t P) (posted : option (Request.t P)),
    rounds (before ++ after) op posted
    = if returned (rounds before op posted) then rounds before op posted
      else match after with
           | [] => rounds before op posted
           | flight :: rest =>
               let run :=
                 rounds rest
                   (fst (nextRound (final (rounds before op posted)) flight))
                   (snd (nextRound (final (rounds before op posted)) flight))
               in
               mkRun (final run)
                     (requests (rounds before op posted) ++ requests run)
                     (returned run)
           end.
Proof.
  induction before as [| first before IH]; intros after op [request |].
  - cbn [app rounds returned final requests].
    destruct after as [| flight rest]; [reflexivity |].
    rewrite rounds_cons. reflexivity.
  - cbn [app]. rewrite !rounds_returned. reflexivity.
  - cbn [app]. rewrite !rounds_cons. cbn zeta. rewrite IH.
    cbn [returned final requests].
    destruct (returned (rounds before _ _)) eqn:Hr;
      [rewrite ?Hr; reflexivity |].
    destruct after as [| flight rest]; rewrite ?Hr; reflexivity.
  - cbn [app]. rewrite !rounds_returned. reflexivity.
Qed.

(** X19: [tryCancel()] called while a request is awaited ends the run with
    that request: when the response arrives it is taken in (kept, tokens
    adopted), no further request is posted whatever is still pending, and
    the call returns. [running] is then left [true] exactly when payloads
    are still pending or the response carried a pagination token. *)
Theorem tryCancel_in_flight_ends_run (op : t P)
    (before : list Flight) (flight : Flight) (after : list Flight) :
  cancleled op = false ->
  returned (runWith op before) = false ->
  cancels flight = true ->
  returned (runWith op (before ++ flight :: after)) = true /\
  requests (runWith op (before ++ flight :: after))
  = requests (runWith op before) /\
  cancleled (final (runWith op (before ++ flight :: after))) = true /\
  pendingPayloads (final (runWith op (before ++ flight :: after)))
  = pendingPayloads (final (runWith op before)) /\
  responses (final (runWith op (before ++ flight :: after)))
  = responses (final (runWith op before)) ++ [response flight] /\
  paginationToken (final (runWith op (before ++ flight :: after)))
  = Response.paginationToken (response flight) /\
  running (final (runWith op (before ++ flight :: after)))
  = needsMoreSync (final (runWith op (before ++ flight :: after))).
Proof.
  intros Hc. unfold runWith.
  destruct (run_awaiting op Hc) as (op' & -> & Haw & _).
  set (request := Request.mk _ _ _ _ _). intros Hsuspended Hcancels.
  destruct (rounds_returns before op' request Haw) as [Hstands _].
  destruct (Hstands Hsuspended) as [_ Hfinal].
  rewrite rounds_app, Hsuspended. cbn zeta.
  destruct (nextRound_cancelled _ flight Hfinal Hcancels)
    as (op'' & -> & Hcd & Hpend & _ & Hpag & Hresp & Hrun).
  cbn [fst snd]. rewrite rounds_returned. cbn [final requests returned].
  rewrite app_nil_r. repeat split; assumption.
Qed.

End Run.

(** Two responses of a server that pages nothing, nobody cancelling. *)
Definition twoFlights : list Flight :=
  [ mkFlight false (Response.mk (Some "t1") None 150);
    mkFlight false (Response.mk (Some "t2") None 50) ].

Lemma run_threads_tokens_witness :
  cancleled OperationFacts.twoHundred = false /\
  (exists second,
     requests (runWith OperationFacts.twoHundred twoFlights) !! 1
     = Some second /\
     Request.lastSyncToken second = Some "t1") /\
  responses (final (runWith OperationFacts.twoHundred twoFlights))
  = [Response.mk (Some "t1") None 150; Response.mk (Some "t2") None 50] /\
  numberOfItemsInvolved (final (runWith OperationFacts.twoHundred twoFlights))
  = 200.
Proof.
  split; [reflexivity |].
  destruct (run_threads_tokens OperationFacts.twoHundred twoFlights eq_refl)
    as (_ & Hthread & _ & Hresponses & _ & Hcount).
  split; [| split].
  - assert (Hsecond : exists second,
              requests (runWith OperationFacts.twoHundred twoFlights) !! 1
              = Some second) by (eexists; vm_compute; reflexivity).
    destruct Hsecond as [second Hsecond].
    exists second. split; [exact Hsecond |].
    destruct (Hthread 0 second
                (mkFlight false (Response.mk (Some "t1") None 150))
                Hsecond eq_refl) as [Hlast _].
    exact Hlast.
  - rewrite Hresponses. vm_compute. reflexivity.
  - rewrite Hcount. vm_compute. reflexivity.
Defined.

Lemma run_returns_when_done_witness :
  cancleled OperationFacts.twoHundred = false /\
  returned (runWith OperationFacts.twoHundred twoFlights) = true /\
  length (requests (runWith OperationFacts.twoHundred twoFlights)) = 2 /\
  pendingPayloads (final (runWith OperationFacts.twoHundred twoFlights)) = [].
Proof.
  split; [reflexivity |].
  destruct (run_returns_when_done OperationFacts.twoHundred twoFlights
              eq_refl) as (_ & Hdone & Hquiet).
  assert (Hq : Forall quiet twoFlights) by (repeat constructor).
  destruct (Hquiet Hq) as [_ Henough].
  destruct (Henough ltac:(cbn; lia) ltac:(vm_compute; lia)) as [Hr Hcd].
  destruct (Hdone Hr Hcd) as (Hnone & _).
  split; [exact Hr |]. split; [vm_compute; reflexivity | exact Hnone].
Defined.

Lemma tryCancel_in_flight_ends_run_witness :
  cancleled OperationFacts.twoHundred = false /\
  returned (runWith OperationFacts.twoHundred []) = false /\
  returned (runWith OperationFacts.twoHundred
              [mkFlight true (Response.mk (Some "t1") None 150)]) = true /\
  length (pendingPayloads
            (final (runWith OperationFacts.twoHundred
                      [mkFlight true (Response.mk (Some "t1") None 150)])))
  = 50 /\
  running (final (runWith OperationFacts.twoHundred
                    [mkFlight true (Response.mk (Some "t1") None 150)]))
  = true.
Proof.
  split; [reflexivity |]. split; [reflexivity |].
  destruct (tryCancel_in_flight_ends_run OperationFacts.twoHundred []
              (mkFlight true (Response.mk (Some "t1") None 150)) []
              eq_refl eq_refl eq_refl)
    as (Hr & _ & _ & Hpend & _ & _ & Hrun).
  split; [exact Hr |]. split.
  - cbn [app] in Hpend. rewrite Hpend. vm_compute. reflexivity.
  - cbn [app] in Hrun. rewrite Hrun. vm_compute. reflexivity.
Defined.

End OperationRunFacts.

Module SyncManagerMoreFacts.
Import SyncManager ArrayFacts SyncManagerFacts.

Section Session.
Context `{Target}.

(** Nothing runs before the database has loaded. *)
Lemma idle_until_database_loads (events : list Event) :
  (databaseLoaded (manager (exec events)) = true <-> DatabaseLoads ∈ events) /\
  (databaseLoaded (manager (exec events)) = false ->
   current (exec events) = None /\ resolvedSoFar (exec events) = [] /\
   syncInProgress (manager (exec events)) = false).
Proof.
  pattern events. apply rev_ind; clear events.
  - split; [| intros _; repeat split].
    split; [discriminate | intros Hin; apply elem_of_nil in Hin; contradiction].
  - intros event events [Hloaded Hidle].
    destruct (invariant_exec events) as [_ _ _ _ Hsnap _].
    rewrite exec_snoc, elem_of_app, list_elem_of_singleton.
    destruct event as [| | | c | i | i | |].
    + cbn [step manager databaseLoaded]. split; [| discriminate].
      split; [intros _; right; reflexivity | reflexivity].
    + cbn [step manager lockSyncing databaseLoaded current resolvedSoFar
           syncInProgress].
      split; [| exact Hidle]. rewrite Hloaded.
      split; [intros ?; left; assumption | intros [? | [=]]; assumption].
    + cbn [step manager unlockSyncing databaseLoaded current resolvedSoFar
           syncInProgress].
      split; [| exact Hidle]. rewrite Hloaded.
      split; [intros ?; left; assumption | intros [? | [=]]; assumption].
    + cbn [step]. destruct (syncEnter (manager (exec events)));
        cbn [manager current resolvedSoFar]; (split; [| exact Hidle]);
        rewrite Hloaded;
        (split; [intros ?; left; assumption | intros [? | [=]]; assumption]).
    + cbn [step]. destruct (preparing (exec events) !! i);
        cbn [manager current resolvedSoFar]; (split; [| exact Hidle]);
        rewrite Hloaded;
        (split; [intros ?; left; assumption | intros [? | [=]]; assumption]).
    + destruct (preparing (exec events) !! i) as [c |] eqn:Hcall.
      * rewrite (step_SyncReachesCheck _ i c Hcall).
        destruct (syncInProgress (manager (exec events))
                  || negb (databaseLoaded (manager (exec events))))
          eqn:Hbusy;
          cbn [manager databaseLoaded current resolvedSoFar syncInProgress].
        -- split; [| exact Hidle]. rewrite Hloaded.
           split; [intros ?; left; assumption | intros [? | [=]]; assumption].
        -- apply orb_false_iff in Hbusy as [_ Hyes].
           apply negb_false_iff in Hyes. split; [| congruence].
           rewrite Hloaded.
           split; [intros ?; left; assumption | intros [? | [=]]; assumption].
      * cbn [step]. rewrite Hcall. split; [| exact Hidle]. rewrite Hloaded.
        split; [intros ?; left; assumption | intros [? | [=]]; assumption].
    + cbn [step]. destruct (current (exec events)) as [r |] eqn:Hcur;
        cbn [manager current resolvedSoFar].
      * split.
        -- rewrite Hloaded.
           split; [intros ?; left; assumption | intros [? | [=]]; assumption].
        -- intros Hno. destruct (Hidle Hno) as [[=] _].
      * split.
        -- rewrite Hloaded.
           split; [intros ?; left; assumption | intros [? | [=]]; assumption].
        -- intros Hno. destruct (Hidle Hno) as (_ & Hnone & Hfree).
           split; [exact Hcur |]. split; assumption.
    + destruct (current (exec events)) as [r |] eqn:Hcur.
      * split.
        -- cbn [step]. rewrite Hcur.
           destruct (reachesRun (useMode r)).
           ++ destruct (Hsnap r eq_refl) as [added Hqueue].
              rewrite (syncEnd_after_round _ _ added Hqueue).
              cbn [manager databaseLoaded]. rewrite Hloaded.
              split; [intros ?; left; assumption
                     | intros [? | [=]]; assumption].
           ++ rewrite Hloaded.
              split; [intros ?; left; assumption
                     | intros [? | [=]]; assumption].
        -- intros Hno. exfalso.
           assert (Hwas : databaseLoaded (manager (exec events)) = false).
           { revert Hno. cbn [step]. rewrite Hcur.
             destruct (reachesRun (useMode r)); [| trivial].
             destruct (Hsnap r eq_refl) as [added Hqueue].
             rewrite (syncEnd_after_round _ _ added Hqueue).
             cbn [manager databaseLoaded]. trivial. }
           destruct (Hidle Hwas) as [[=] _].
      * cbn [step]. rewrite Hcur. split.
        -- rewrite Hloaded.
           split; [intros ?; left; assumption | intros [? | [=]]; assumption].
        -- intros Hno. destruct (Hidle Hno) as (_ & Hnone & Hfree).
           split; [exact Hcur |]. split; assumption.
Qed.

(** Once [syncInProgress] is set with no round executing, nothing clears
    it: no round begins and nobody is resolved, whatever happens. *)
Lemma stuck_step (w : World) (event : Event) :
  syncInProgress (manager w) = true -> current w = None ->
  syncInProgress (manager (step w event)) = true /\
  current (step w event) = None /\
  resolvedSoFar (step w event) = resolvedSoFar w.
Proof.
  intros Hset Hnone. destruct event as [| | | c | i | i | |].
  - cbn. auto.
  - cbn. auto.
  - cbn. auto.
  - cbn [step]. destruct (syncEnter (manager w)); cbn; auto.
  - cbn [step]. destruct (preparing w !! i); cbn; auto.
  - destruct (preparing w !! i) as [c |] eqn:Hcall.
    + rewrite (step_SyncReachesCheck _ i c Hcall), Hset. cbn. auto.
    + cbn [step]. rewrite Hcall. auto.
  - cbn [step]. rewrite Hnone. auto.
  - cbn [step]. rewrite Hnone. auto.
Qed.

Lemma stuck_forever (w : World) (more : list Event) :
  syncInProgress (manager w) = true -> current w = None ->
  syncInProgress (manager (foldl step w more)) = true /\
  current (foldl step w more) = None /\
  resolvedSoFar (foldl step w more) = resolvedSoFar w.
Proof.
  revert w. induction more as [| event more IH]; intros w Hset Hnone;
    [auto |].
  cbn [foldl].
  destruct (stuck_step w event Hset Hnone) as (Hset' & Hnone' & Hsame).
  destruct (IH _ Hset' Hnone') as (? & ? & Hlater).
  rewrite Hlater, Hsame. auto.
Qed.

(** A round of the session so far has thrown. *)
Definition aRoundHasThrown (events : list Event) : Prop :=
  exists before after,
    events = before ++ RoundThrows :: after /\
    is_Some (current (exec before)).

Lemma stuck_after_throw (events : list Event) :
  syncInProgress (manager (exec events)) = true /\ current (exec events) = None
  <-> aRoundHasThrown events.
Proof.
  split.
  - pattern events. apply rev_ind; clear events.
    + intros [[=] _].
    + intros event events IH [Hset Hnone].
      destruct (invariant_exec events) as [_ _ _ _ Hsnap Hprog].
      destruct (current (exec events)) as [r |] eqn:Hcur.
      * (* a round was executing: the event ended it with the flag set *)
        rewrite exec_snoc in Hset, Hnone.
        destruct event as [| | | c | i | i | |].
        -- cbn in Hnone. congruence.
        -- cbn in Hnone. congruence.
        -- cbn in Hnone. congruence.
        -- cbn [step] in Hnone.
           destruct (syncEnter (manager (exec events))); cbn in Hnone;
             congruence.
        -- cbn [step] in Hnone.
           destruct (preparing (exec events) !! i); cbn in Hnone; congruence.
        -- destruct (preparing (exec events) !! i) as [c |] eqn:Hcall.
           ++ rewrite (step_SyncReachesCheck _ i c Hcall) in Hnone.
              assert (Hs : syncInProgress (manager (exec events)) = true)
                by (apply Hprog; eauto).
              rewrite Hs in Hnone. cbn in Hnone. congruence.
           ++ cbn [step] in Hnone. rewrite Hcall in Hnone. congruence.
        -- exists events, []. split; [reflexivity |]. rewrite Hcur. eauto.
        -- cbn [step] in Hset, Hnone. rewrite Hcur in Hset, Hnone.
           revert Hset Hnone.
           destruct (reachesRun (useMode r)); intros Hset Hnone.
           ++ destruct (Hsnap r eq_refl) as [added Hqueue].
              rewrite (syncEnd_after_round _ _ added Hqueue) in Hset.
              cbn in Hset. discriminate.
           ++ congruence.
      * (* no round was executing *)
        destruct (syncInProgress (manager (exec events))) eqn:Hwas.
        -- destruct (IH (conj eq_refl eq_refl))
             as (before & after & -> & Hround).
           exists before, (after ++ [event]). split; [| exact Hround].
           rewrite <- app_assoc. reflexivity.
        -- exfalso. rewrite exec_snoc in Hset, Hnone.
           destruct event as [| | | c | i | i | |].
           ++ cbn in Hset. congruence.
           ++ cbn in Hset. congruence.
           ++ cbn in Hset. congruence.
           ++ cbn [step] in Hset.
              destruct (syncEnter (manager (exec events))); cbn in Hset;
                congruence.
           ++ cbn [step] in Hset.
              destruct (preparing (exec events) !! i); cbn in Hset;
                congruence.
           ++ destruct (preparing (exec events) !! i) as [c |] eqn:Hcall.
              ** rewrite (step_SyncReachesCheck _ i c Hcall) in Hset, Hnone.
                 rewrite Hwas in Hset, Hnone.
                 destruct (negb (databaseLoaded (manager (exec events))));
                   cbn in Hset, Hnone; congruence.
              ** cbn [step] in Hset. rewrite Hcall in Hset. congruence.
           ++ cbn [step] in Hset. rewrite Hcur in Hset. congruence.
           ++ cbn [step] in Hset. rewrite Hcur in Hset. congruence.
  - intros (before & after & -> & Hround).
    destruct (invariant_exec before) as [_ _ _ _ _ Hprog].
    specialize (Hprog Hround).
    replace (before ++ RoundThrows :: after)
      with ((before ++ [RoundThrows]) ++ after)
      by (rewrite <- app_assoc; reflexivity).
    rewrite exec_app, exec_snoc.
    destruct Hround as [r Hcur].
    destruct (stuck_forever (step (exec before) RoundThrows) after)
      as (Hset & Hnone & _).
    + cbn [step]. rewrite Hcur. exact Hprog.
    + cbn [step]. rewrite Hcur. reflexivity.
    + split; assumption.
Qed.

(** X20: rounds never overlap, and none begins before the local database
    has loaded. At every moment of every session [syncInProgress] is set
    while a round is executing, and it is set with no round executing
    exactly when a round has thrown; from then on no round begins and
    nobody is resolved, whatever happens. The database counts as loaded
    exactly when its load has completed; until then no round runs, nobody
    is resolved and [syncInProgress] is not set. A [sync()] call that
    reaches the check while [syncInProgress] is set, or before the database
    has loaded, is queued under either timing strategy and leaves the
    executing round and the callers resolved as they are; a call begins a
    round only when none is executing and the database has loaded, and sets
    [syncInProgress]; a round that is executing is ended by no event but
    its own completion or throw. *)
Theorem rounds_do_not_overlap (events : list Event) :
  (is_Some (current (exec events))
   -> syncInProgress (manager (exec events)) = true) /\
  (syncInProgress (manager (exec events)) = true
   /\ current (exec events) = None
   <-> aRoundHasThrown events) /\
  (aRoundHasThrown events ->
   forall more,
     syncInProgress (manager (exec (events ++ more))) = true /\
     current (exec (events ++ more)) = None /\
     resolvedSoFar (exec (events ++ more)) = resolvedSoFar (exec events)) /\
  (databaseLoaded (manager (exec events)) = true <-> DatabaseLoads ∈ events) /\
  (DatabaseLoads ∉ events ->
   current (exec events) = None /\ resolvedSoFar (exec events) = [] /\
   syncInProgress (manager (exec events)) = false) /\
  (forall i c,
     preparing (exec events) !! i = Some c ->
     syncInProgress (manager (exec events)) = true \/ DatabaseLoads ∉ events ->
     (exists promise m',
        syncBegin (manager (exec events)) (timingStrategy c)
        = (m', Queued promise)) /\
     current (exec (events ++ [SyncReachesCheck i])) = current (exec events) /\
     resolvedSoFar (exec (events ++ [SyncReachesCheck i]))
     = resolvedSoFar (exec events)) /\
  (forall timingStrategy m' snapshot,
     syncBegin (manager (exec events)) timingStrategy = (m', Began snapshot) ->
     current (exec events) = None /\ DatabaseLoads ∈ events /\
     syncInProgress m' = true) /\
  (forall event,
     is_Some (current (exec events)) ->
     event <> RoundThrows -> event <> RoundCompletes ->
     current (exec (events ++ [event])) = current (exec events)).
Proof.
  destruct (invariant_exec events) as [_ _ _ _ _ Hprog].
  destruct (idle_until_database_loads events) as [Hloaded Hidle].
  assert (Hnot : DatabaseLoads ∉ events ->
                 databaseLoaded (manager (exec events)) = false).
  { intros Hno. destruct (databaseLoaded (manager (exec events))) eqn:Hl;
      [| reflexivity]. exfalso. apply Hno, Hloaded. reflexivity. }
  split; [exact Hprog |]. split; [exact (stuck_after_throw events) |].
  split; [| split; [exact Hloaded |]].
  { intros Hthrown more. apply stuck_after_throw in Hthrown as [Hset Hnone].
    rewrite exec_app. exact (stuck_forever _ more Hset Hnone). }
  split; [intros Hno; exact (Hidle (Hnot Hno)) |].
  split; [| split].
  - intros i c Hcall Hbusy.
    assert (Hguard : syncInProgress (manager (exec events))
                     || negb (databaseLoaded (manager (exec events))) = true).
    { destruct Hbusy as [Hset | Hno].
      - rewrite Hset. reflexivity.
      - rewrite (Hnot Hno). apply orb_true_r. }
    split; [| split].
    + unfold syncBegin. rewrite Hguard.
      destruct (default ResolveOnNext (timingStrategy c)); eexists _, _;
        reflexivity.
    + rewrite exec_snoc, (step_SyncReachesCheck _ i c Hcall), Hguard.
      reflexivity.
    + rewrite exec_snoc, (step_SyncReachesCheck _ i c Hcall), Hguard.
      reflexivity.
  - intros timingStrategy m' snapshot Hbegin. unfold syncBegin in Hbegin.
    destruct (syncInProgress (manager (exec events))
              || negb (databaseLoaded (manager (exec events)))) eqn:Hguard.
    + destruct (default ResolveOnNext timingStrategy); discriminate.
    + injection Hbegin as <- <-.
      apply orb_false_iff in Hguard as [Hfree Hyes].
      apply negb_false_iff in Hyes. split; [| split].
      * destruct (current (exec events)) eqn:Hcur; [| reflexivity].
        assert (Hs : syncInProgress (manager (exec events)) = true)
          by (apply Hprog; eauto).
        congruence.
      * apply Hloaded. exact Hyes.
      * reflexivity.
  - intros event Hround Hthrow Hcomplete. specialize (Hprog Hround).
    rewrite exec_snoc. destruct event as [| | | c | i | i | |].
    + reflexivity.
    + reflexivity.
    + reflexivity.
    + cbn [step]. destruct (syncEnter (manager (exec events))); reflexivity.
    + cbn [step]. destruct (preparing (exec events) !! i); reflexivity.
    + destruct (preparing (exec events) !! i) as [c |] eqn:Hcall.
      * rewrite (step_SyncReachesCheck _ i c Hcall), Hprog. reflexivity.
      * cbn [step]. rewrite Hcall. reflexivity.
    + contradiction.
    + contradiction.
Qed.

(** *** The order of resolution *)



End Session.

End SyncManagerMoreFacts.

Module SyncTokenFacts.
Import SyncTokens.

Section Tokens.
Context `{StorageKeys}.

Lemma getValue_setValue (key : string) (value : option string)
    (storage : Storage) :
  getValue key (setValue key value storage) = value.
Proof.
  unfold getValue, setValue, Storage. rewrite lookup_insert_eq. reflexivity.
Qed.

Lemma getValue_setValue_ne (key other : string) (value : option string)
    (storage : Storage) :
  key <> other ->
  getValue other (setValue key value storage) = getValue other storage.
Proof.
  intros Hne. unfold getValue, setValue, Storage.
  rewrite lookup_insert_ne by exact Hne. reflexivity.
Qed.

Lemma getValue_removeValue (key : string) (storage : Storage) :
  getValue key (removeValue key storage) = None.
Proof.
  unfold getValue, removeValue, Storage. rewrite lookup_delete_eq.
  reflexivity.
Qed.

Lemma getValue_removeValue_ne (key other : string) (storage : Storage) :
  key <> other ->
  getValue other (removeValue key storage) = getValue other storage.
Proof.
  intros Hne. unfold getValue, removeValue, Storage.
  rewrite lookup_delete_ne by exact Hne. reflexivity.
Qed.

(** X22: the position tokens round-trip through the manager: after
    [setLastSyncToken(token)] the getter returns [token]; after
    [setPaginationToken(token)] the getter returns [token] when it is
    truthy and nothing otherwise (the stored cursor is removed, so no stale
    cursor is read back); after [clearSyncPositionTokens()] both getters
    return nothing; and setting one token leaves what the other getter
    returns as it was. *)
Theorem tokens_round_trip (token : option string) (m : t) :
  STORAGE_KEY_LAST_SYNC_TOKEN <> STORAGE_KEY_PAGINATION_TOKEN ->
  snd (getLastSyncToken (setLastSyncToken token m)) = token /\
  snd (getPaginationToken (setPaginationToken token m))
  = (if truthyString token then token else None) /\
  snd (getLastSyncToken (clearSyncPositionTokens m)) = None /\
  snd (getPaginationToken (clearSyncPositionTokens m)) = None /\
  snd (getPaginationToken (setLastSyncToken token m))
  = snd (getPaginationToken m) /\
  snd (getLastSyncToken (setPaginationToken token m))
  = snd (getLastSyncToken m).
Proof.
  intros Hne.
  unfold getLastSyncToken, getPaginationToken, setLastSyncToken,
    setPaginationToken, clearSyncPositionTokens.
  cbn [syncToken cursorToken storage truthyString negb].
  repeat split.
  - destruct (truthyString token); cbn [negb snd syncToken];
      [reflexivity | apply getValue_setValue].
  - destruct (truthyString token); cbn [negb snd cursorToken];
      [reflexivity | apply getValue_removeValue].
  - cbn [snd syncToken].
    rewrite getValue_removeValue_ne by (intros Heq; apply Hne; auto).
    apply getValue_removeValue.
  - cbn [snd cursorToken]. apply getValue_removeValue.
  - destruct (truthyString (cursorToken m)); cbn [negb snd cursorToken];
      [reflexivity |].
    apply getValue_setValue_ne. exact Hne.
  - destruct (truthyString (syncToken m)); cbn [negb snd syncToken];
      [reflexivity |].
    destruct (truthyString token).
    + apply getValue_setValue_ne. intros Heq. apply Hne. auto.
    + apply getValue_removeValue_ne. intros Heq. apply Hne. auto.
Qed.

(** *** The cache and the store *)

(** What a manager is asked to do with its tokens. *)
Inductive Call : Type :=
| SetLastSyncToken (token : option string)
| SetPaginationToken (token : option string)
| GetLastSyncToken
| GetPaginationToken
| ClearSyncPositionTokens.

Definition call (m : t) (c : Call) : t :=
  match c with
  | SetLastSyncToken token => setLastSyncToken token m
  | SetPaginationToken token => setPaginationToken token m
  | GetLastSyncToken => fst (getLastSyncToken m)
  | GetPaginationToken => fst (getPaginationToken m)
  | ClearSyncPositionTokens => clearSyncPositionTokens m
  end.

(** A manager that has just been made, over a store. *)
Definition fresh (storage : Storage) : t := mk None None storage.

(** A cached token that is truthy is the one the store holds. *)
Definition coherent (m : t) : Prop :=
  (truthyString (syncToken m) = true ->
   getValue STORAGE_KEY_LAST_SYNC_TOKEN (storage m) = syncToken m) /\
  (truthyString (cursorToken m) = true ->
   getValue STORAGE_KEY_PAGINATION_TOKEN (storage m) = cursorToken m).

Lemma coherent_call (m : t) (c : Call) :
  STORAGE_KEY_LAST_SYNC_TOKEN <> STORAGE_KEY_PAGINATION_TOKEN ->
  coherent m -> coherent (call m c).
Proof.
  intros Hne [Hsync Hcursor].
  assert (Hne' : STORAGE_KEY_PAGINATION_TOKEN <> STORAGE_KEY_LAST_SYNC_TOKEN)
    by (intros Heq; apply Hne; auto).
  destruct c as [token | token | | |]; unfold coherent, call,
    setLastSyncToken, setPaginationToken, getLastSyncToken,
    getPaginationToken, clearSyncPositionTokens;
    cbn [syncToken cursorToken storage fst truthyString].
  - split; [intros _; apply getValue_setValue |].
    intros Ht. rewrite getValue_setValue_ne by exact Hne. exact (Hcursor Ht).
  - split.
    + intros Ht. rewrite <- (Hsync Ht).
      destruct (truthyString token);
        [apply getValue_setValue_ne | apply getValue_removeValue_ne];
        exact Hne'.
    + intros Ht. rewrite Ht. apply getValue_setValue.
  - destruct (truthyString (syncToken m)) eqn:Ht;
      cbn [negb syncToken cursorToken storage].
    + split; [intros _; apply Hsync; reflexivity | exact Hcursor].
    + split; [intros _; reflexivity | exact Hcursor].
  - destruct (truthyString (cursorToken m)) eqn:Ht;
      cbn [negb syncToken cursorToken storage].
    + split; [exact Hsync | intros _; apply Hcursor; reflexivity].
    + split; [exact Hsync | intros _; reflexivity].
  - split; discriminate.
Qed.

(** X23: the cached tokens never disagree with the store. Whatever a
    manager made over a store has been asked to do with its tokens, each
    getter returns what a manager made afresh over the store as it now is
    would return: the position survives a restart. *)
Theorem tokens_survive_restart (storage0 : Storage) (calls : list Call) :
  STORAGE_KEY_LAST_SYNC_TOKEN <> STORAGE_KEY_PAGINATION_TOKEN ->
  snd (getLastSyncToken (foldl call (fresh storage0) calls))
  = snd (getLastSyncToken
           (fresh (storage (foldl call (fresh storage0) calls)))) /\
  snd (getPaginationToken (foldl call (fresh storage0) calls))
  = snd (getPaginationToken
           (fresh (storage (foldl call (fresh storage0) calls)))).
Proof.
  intros Hne.
  assert (Hcoherent : coherent (foldl call (fresh storage0) calls)).
  { pattern calls. apply rev_ind.
    - split; discriminate.
    - intros c l IH. rewrite foldl_app. cbn [foldl].
      apply coherent_call; assumption. }
  destruct Hcoherent as [Hsync Hcursor].
  unfold getLastSyncToken, getPaginationToken, fresh.
  cbn [syncToken cursorToken storage truthyString negb snd].
  split.
  - destruct (truthyString (syncToken _)) eqn:Ht; cbn [negb syncToken];
      [symmetry; exact (Hsync eq_refl) | reflexivity].
  - destruct (truthyString (cursorToken _)) eqn:Ht; cbn [negb cursorToken];
      [symmetry; exact (Hcursor eq_refl) | reflexivity].
Qed.

End Tokens.

(** Keys to run the examples with. *)
Definition demoKeys : StorageKeys := {|
  STORAGE_KEY_LAST_SYNC_TOKEN := "syncToken";
  STORAGE_KEY_PAGINATION_TOKEN := "cursorToken"
|}.

Lemma tokens_round_trip_witness :
  snd (@getPaginationToken demoKeys
         (@setPaginationToken demoKeys (Some "")
            (@setPaginationToken demoKeys (Some "page-2") (fresh ∅))))
  = None /\
  snd (@getLastSyncToken demoKeys
         (@setPaginationToken demoKeys (Some "")
            (@setLastSyncToken demoKeys (Some "t1") (fresh ∅))))
  = Some "t1".
Proof.
  split.
  - destruct (@tokens_round_trip demoKeys (Some "")
                (@setPaginationToken demoKeys (Some "page-2") (fresh ∅))
                ltac:(discriminate)) as (_ & Hpage & _).
    exact Hpage.
  - destruct (@tokens_round_trip demoKeys (Some "")
                (@setLastSyncToken demoKeys (Some "t1") (fresh ∅))
                ltac:(discriminate)) as (_ & _ & _ & _ & _ & Hlast).
    rewrite Hlast. reflexivity.
Defined.

Lemma tokens_survive_restart_witness :
  snd (@getLastSyncToken demoKeys
         (fresh (storage
                   (foldl (@call demoKeys) (fresh ∅)
                      [SetLastSyncToken (Some "t1");
                       SetPaginationToken (Some "page-2");
                       GetLastSyncToken;
                       SetPaginationToken None]))))
  = Some "t1".
Proof.
  destruct (@tokens_survive_restart demoKeys ∅
              [SetLastSyncToken (Some "t1");
               SetPaginationToken (Some "page-2");
               GetLastSyncToken;
               SetPaginationToken None]
              ltac:(discriminate)) as [Hlast _].
  rewrite <- Hlast. reflexivity.
Defined.

End SyncTokenFacts.

Module MigrationFacts.
Import Migration.

Section Handlers.
Context {S : Type}.

(** The handlers after a run of registrations, in order. *)
Definition registered (registrations : list (Stage * option (S -> S)))
    : Migration.t S :=
  foldl (fun m registration =>
           registerStageHandler (fst registration) (snd registration) m)
        stageHandlers_initial registrations.

(** X24: for stages that are numbers, [handleStage(stage)] runs the handler
    registered last for that stage, once, and no other: handlers of other
    stages and earlier handlers of the same stage are not called, and when
    nothing, or last a falsy value, was registered for the stage, nothing
    happens. *)
Theorem handleStage_runs_last_registered
    (registrations : list (Stage * option (S -> S))) (stage : Stage) (s : S) :
  handleStage stage (registered registrations) s
  = match last (filter (fun registration => fst registration = stage)
                       registrations) with
    | Some (_, Some handler) => handler s
    | _ => s
    end.
Proof.
  unfold handleStage, registered. pattern registrations. apply rev_ind.
  - cbn [foldl]. unfold stageHandlers_initial, Migration.t.
    rewrite lookup_empty. reflexivity.
  - intros [stage' handler] l IH. rewrite foldl_app, filter_app.
    cbn [foldl fst snd]. unfold registerStageHandler at 1.
    unfold Migration.t in *.
    rewrite filter_cons, filter_nil. cbn [fst].
    destruct (decide (stage' = stage)) as [-> | Hne].
    + rewrite lookup_insert_eq, last_snoc. reflexivity.
    + rewrite lookup_insert_ne by exact Hne. rewrite app_nil_r. exact IH.
Qed.

End Handlers.

(** Three registrations, two of them for stage 2: stage 2 runs the later
    one, stage 1 its own, stage 3 nothing. *)
Example handleStage_of_three_registrations :
  let handlers : Migration.t nat :=
    registered [(2%Z, Some (Nat.add 10)); (1%Z, Some (Nat.add 1));
                (2%Z, Some (Nat.mul 2))] in
  handleStage 2%Z handlers 5 = 10 /\
  handleStage 1%Z handlers 5 = 6 /\
  handleStage 3%Z handlers 5 = 5.
Proof. vm_compute. repeat split. Qed.

End MigrationFacts.

Module PersistenceFacts.
Import PurePayload Persistence.

(** *** Saving before a sync *)

(** The pre-sync saves of syncs that follow one another: each call with its
    clock reading and the payloads it is given. *)
Fixpoint preSyncSaves (lastPreSyncSaveDate : option JsDate)
    (calls : list (Z * list t)) : list (list t) :=
  match calls with
  | [] => []
  | (now, from) :: rest =>
      let (payloads, date) :=
        popPayloadsNeedingPreSyncSave now lastPreSyncSaveDate from in
      payloads :: preSyncSaves date rest
  end.

(** X25: [popPayloadsNeedingPreSyncSave] over the syncs of a session. While
    no date of a pre-sync save is recorded, every call returns all it is
    given and records none, so this goes on. Once a date is recorded, each
    call returns, in their order, exactly the payloads dirtied after the
    date left by the call before it (its clock reading), and what it
    returns has a valid dirtied date: a payload built from an object
    without [dirtiedDate] is never returned. *)
Theorem preSyncSaves_since_last_save (calls : list (Z * list t)) :
  preSyncSaves None calls = snd <$> calls /\
  (forall date,
     preSyncSaves (Some date) calls
     = zip_with
         (fun since call =>
            List.filter
              (fun candidate => laterThan (dirtiedDate candidate) since)
              (snd call))
         (date :: (DateAt <$> (fst <$> calls))) calls) /\
  (forall date now from p,
     In p (fst (popPayloadsNeedingPreSyncSave now (Some date) from)) ->
     exists ms, dirtiedDate p = Some (DateAt ms)) /\
  (forall clock rawPayload fields source p date now from,
     construct clock rawPayload fields source = Ok p ->
     Raw.dirtiedDate rawPayload = None ->
     ~ In p (fst (popPayloadsNeedingPreSyncSave now (Some date) from))).
Proof.
  assert (Hvalid : forall date now from p,
            In p (fst (popPayloadsNeedingPreSyncSave now (Some date) from)) ->
            exists ms, dirtiedDate p = Some (DateAt ms)).
  { intros date now from p Hin. cbn [popPayloadsNeedingPreSyncSave fst] in Hin.
    apply List.filter_In in Hin as [_ Hlater].
    destruct (dirtiedDate p) as [[ms |] |]; try discriminate. eauto. }
  split; [| split; [| split; [exact Hvalid |]]].
  - induction calls as [| [now from] rest IH]; [reflexivity |].
    cbn [preSyncSaves popPayloadsNeedingPreSyncSave fmap list_fmap snd].
    rewrite IH. reflexivity.
  - induction calls as [| [now from] rest IH]; intros date; [reflexivity |].
    cbn [preSyncSaves popPayloadsNeedingPreSyncSave fmap list_fmap fst snd
         zip_with].
    rewrite IH. reflexivity.
  - intros clock rawPayload fields source p date now from Hp Hraw Hin.
    destruct (Hvalid date now from p Hin) as [ms Hms].
    unfold construct in Hp.
    destruct (negb _ && _); [discriminate |].
    injection Hp as <-. cbn [dirtiedDate] in Hms. rewrite Hraw in Hms.
    discriminate.
Qed.

(** *** Saving to the store *)

Section Persist.
Context `{Collaborators}.

(** What [persistPayloads] makes of a decrypted payload. *)
Definition processed (payload stored : t) : Prop :=
  if PayloadGetters.discardable payload then stored = payload
  else payloadByEncryptingPayload payload None LocalStoragePreferEncrypted
       = Ok stored.

Lemma processEach_ok (decryptedPayloads : list t) :
  forall newlyProcessed out,
    Forall2 processed decryptedPayloads out ->
    processEach decryptedPayloads newlyProcessed = Ok (newlyProcessed ++ out).
Proof.
  induction decryptedPayloads as [| payload rest IH];
    intros newlyProcessed out Hall.
  - apply Forall2_nil_inv_l in Hall as ->. rewrite app_nil_r. reflexivity.
  - apply Forall2_cons_inv_l in Hall as (stored & out' & Hp & Hrest & ->).
    cbn [processEach]. unfold processed in Hp.
    destruct (PayloadGetters.discardable payload).
    + subst stored. rewrite (IH _ _ Hrest), <- app_assoc. reflexivity.
    + rewrite Hp. cbn [mbind Result_bind].
      rewrite (IH _ _ Hrest), <- app_assoc. reflexivity.
Qed.

Lemma processEach_throw (before : list t) :
  forall newlyProcessed out payload after e,
    Forall2 processed before out ->
    PayloadGetters.discardable payload = false ->
    payloadByEncryptingPayload payload None LocalStoragePreferEncrypted
    = Throw e ->
    processEach (before ++ payload :: after) newlyProcessed = Throw e.
Proof.
  induction before as [| first before IH];
    intros newlyProcessed out payload after e Hall Hkeep Hthrow.
  - cbn [app processEach]. rewrite Hkeep, Hthrow. reflexivity.
  - apply Forall2_cons_inv_l in Hall as (stored & out' & Hp & Hrest & ->).
    cbn [app processEach]. unfold processed in Hp.
    destruct (PayloadGetters.discardable first).
    + exact (IH _ _ _ _ _ Hrest Hkeep Hthrow).
    + rewrite Hp. cbn [mbind Result_bind].
      exact (IH _ _ _ _ _ Hrest Hkeep Hthrow).
Qed.

(** Every array either goes through or has a first payload that cannot be
    encrypted. *)
Lemma processed_or_first_failure (decryptedPayloads : list t) :
  (exists out, Forall2 processed decryptedPayloads out) \/
  (exists before out payload after e,
     decryptedPayloads = before ++ payload :: after /\
     Forall2 processed before out /\
     PayloadGetters.discardable payload = false /\
     payloadByEncryptingPayload payload None LocalStoragePreferEncrypted
     = Throw e).
Proof.
  induction decryptedPayloads as [| payload rest IH].
  - left. exists []. constructor.
  - assert (Hhead : (exists stored, processed payload stored) \/
                    (PayloadGetters.discardable payload = false /\
                     exists e, payloadByEncryptingPayload payload None
                                 LocalStoragePreferEncrypted = Throw e)).
    { unfold processed. destruct (PayloadGetters.discardable payload);
        [left; eauto |].
      destruct (payloadByEncryptingPayload payload None
                  LocalStoragePreferEncrypted) as [stored | e];
        [left | right]; eauto. }
    destruct Hhead as [[stored Hstored] | [Hkeep [e He]]].
    + destruct IH as [[out Hout] | (before & out & p & after & e & -> & Hb
                                    & Hkeep & He)].
      * left. exists (stored :: out). constructor; assumption.
      * right. exists (payload :: before), (stored :: out), p, after, e.
        split; [reflexivity |]. split; [constructor; assumption |].
        split; assumption.
    + right. exists [], [], payload, rest, e.
      split; [reflexivity |]. split; [constructor |]. split; assumption.
Qed.

(** X26: [persistPayloads] saves all or nothing, in one call. When every
    decrypted payload that is not discardable can be encrypted for local
    storage, the store is handed one array: the encrypted payloads given,
    then, in their order, the discardable decrypted payloads as they are
    and the others encrypted; when that array is empty the store is not
    called. When a payload cannot be encrypted, the error of the first such
    payload is thrown and the store is not called, whatever came before
    it. One of the two is always the case. *)
Theorem persistPayloads_all_or_nothing
    (encryptedPayloads decryptedPayloads : list t) (saved : list (list t)) :
  (forall out,
     Forall2 processed decryptedPayloads out ->
     persistPayloads encryptedPayloads decryptedPayloads saved
     = Ok (match encryptedPayloads ++ out with
           | [] => saved
           | allPayloads => saved ++ [allPayloads]
           end)) /\
  (forall before out payload after e,
     decryptedPayloads = before ++ payload :: after ->
     Forall2 processed before out ->
     PayloadGetters.discardable payload = false ->
     payloadByEncryptingPayload payload None LocalStoragePreferEncrypted
     = Throw e ->
     persistPayloads encryptedPayloads decryptedPayloads saved = Throw e) /\
  ((exists out, Forall2 processed decryptedPayloads out) \/
   (exists before out payload after e,
      decryptedPayloads = before ++ payload :: after /\
      Forall2 processed before out /\
      PayloadGetters.discardable payload = false /\
      payloadByEncryptingPayload payload None LocalStoragePreferEncrypted
      = Throw e)).
Proof.
  split; [| split; [| apply processed_or_first_failure]].
  - intros out Hall. unfold persistPayloads.
    rewrite (processEach_ok _ [] out Hall). cbn [mbind Result_bind app].
    destruct (encryptedPayloads ++ out); reflexivity.
  - intros before out payload after e -> Hall Hkeep Hthrow.
    unfold persistPayloads.
    rewrite (processEach_throw before [] out payload after e Hall Hkeep
               Hthrow).
    reflexivity.
Qed.

End Persist.
End PersistenceFacts.

Module DatabaseLoadFacts.
Import PurePayload DatabaseLoad.

(** *** Taking the selected elements off an array *)

Section Subtract.
Context {A : Type} `{EqDecision A}.

Lemma removeFirst_behind (front : list A) (x : A) (rest : list A) :
  x ∉ front -> removeFirst x (front ++ x :: rest) = front ++ rest.
Proof.
  induction front as [| y front IH]; intros Hnot; cbn [app removeFirst].
  - rewrite decide_True by reflexivity. reflexivity.
  - apply not_elem_of_cons in Hnot as [Hne Hnot].
    rewrite decide_False by (intros ->; apply Hne; reflexivity).
    rewrite (IH Hnot). reflexivity.
Qed.

(** Subtracting the elements a filter selects leaves the others, in their
    order. *)
Lemma subtractFromArray_filter (select : A -> bool) (array : list A) :
  forall front,
    Forall (fun x => select x = false) front ->
    subtractFromArray (front ++ array) (List.filter select array)
    = front ++ List.filter (fun x => negb (select x)) array.
Proof.
  unfold subtractFromArray.
  induction array as [| x array IH]; intros front Hfront.
  - reflexivity.
  - cbn [List.filter]. destruct (select x) eqn:Hx; cbn [negb foldl].
    + rewrite removeFirst_behind.
      * apply IH. exact Hfront.
      * intros Hin. rewrite Forall_forall in Hfront.
        specialize (Hfront x Hin). cbn beta in Hfront. congruence.
    + replace (front ++ x :: array) with ((front ++ [x]) ++ array)
        by (rewrite <- app_assoc; reflexivity).
      rewrite IH by (apply Forall_app; split; [exact Hfront |];
                     repeat constructor; exact Hx).
      rewrite <- app_assoc. reflexivity.
Qed.

End Subtract.

(** *** The batches *)

Definition isItemsKey (payload : t) : bool :=
  bool_decide (content_type payload = Some "SN|ItemsKey").

(** The slice the loop takes at turn [batchIndex]. *)
Definition batchAt (payloads : list t) (batchIndex : nat) : list t :=
  firstn DEFAULT_DATABASE_LOAD_BATCH_SIZE
         (skipn (batchIndex * DEFAULT_DATABASE_LOAD_BATCH_SIZE) payloads).

Lemma concat_batches (payloads : list t) (count : nat) :
  concat (batchAt payloads <$> seq 0 count)
  = firstn (count * DEFAULT_DATABASE_LOAD_BATCH_SIZE) payloads.
Proof.
  induction count as [| count IH]; [reflexivity |].
  rewrite seq_S, fmap_app, concat_app, IH.
  cbn [fmap list_fmap concat Nat.add]. rewrite app_nil_r.
  unfold batchAt. rewrite take_take_drop. f_equal. lia.
Qed.

Lemma ceilDiv_batches (count : nat) :
  count <= ceilDiv count DEFAULT_DATABASE_LOAD_BATCH_SIZE
           * DEFAULT_DATABASE_LOAD_BATCH_SIZE /\
  forall batchIndex,
    batchIndex < ceilDiv count DEFAULT_DATABASE_LOAD_BATCH_SIZE ->
    batchIndex * DEFAULT_DATABASE_LOAD_BATCH_SIZE < count.
Proof.
  unfold ceilDiv, DEFAULT_DATABASE_LOAD_BATCH_SIZE.
  change (100 - 1) with 99.
  pose proof (Nat.div_mod_eq (count + 99) 100) as Hdiv.
  pose proof (Nat.mod_upper_bound (count + 99) 100 ltac:(lia)) as Hmod.
  split; [lia |]. intros batchIndex Hlt. lia.
Qed.

Section Load.
Context {W : Type} (decryptAndMap : list t -> W -> Result W).

(** Decrypting and mapping arrays one after another, stopping at the first
    that throws. *)
Fixpoint runBatches (batches : list (list t)) (w : W) : Result W :=
  match batches with
  | [] => Ok w
  | batch :: rest => w ← decryptAndMap batch w; runBatches rest w
  end.

Lemma loadBatches_runBatches (payloads : list t) (remaining : nat) :
  forall batchIndex w,
    loadBatches decryptAndMap payloads remaining batchIndex w
    = runBatches (batchAt payloads <$> seq batchIndex remaining) w.
Proof.
  induction remaining as [| remaining IH]; intros batchIndex w;
    [reflexivity |].
  cbn [loadBatches seq fmap list_fmap runBatches]. unfold slice.
  replace (batchIndex * DEFAULT_DATABASE_LOAD_BATCH_SIZE
           + DEFAULT_DATABASE_LOAD_BATCH_SIZE
           - batchIndex * DEFAULT_DATABASE_LOAD_BATCH_SIZE)
    with DEFAULT_DATABASE_LOAD_BATCH_SIZE by lia.
  fold (batchAt payloads batchIndex).
  destruct (decryptAndMap (batchAt payloads batchIndex) w) as [w' | e];
    cbn [mbind Result_bind]; [apply IH | reflexivity].
Qed.

(** X27: [loadDatabasePayloads] decrypts and maps the items keys first, all
    in one array, and then the other payloads in their order in batches of
    100: every payload is in exactly one array, no batch is empty, and
    every batch but the last is full. The first array that throws ends the
    load with its error and the database does not count as loaded;
    otherwise it does. A second load throws before anything is touched. *)
Theorem loadDatabasePayloads_in_batches (payloads : list t) (w : W) :
  DEFAULT_DATABASE_LOAD_BATCH_SIZE = 100 /\
  loadDatabasePayloads decryptAndMap true payloads w
  = Thrown AlreadyInitialized /\
  exists batches,
    loadDatabasePayloads decryptAndMap false payloads w
    = match runBatches (List.filter isItemsKey payloads :: batches) w with
      | Ok w' => Returned (true, w')
      | Throw e => Thrown (Failed e)
      end /\
    concat batches
    = List.filter (fun payload => negb (isItemsKey payload)) payloads /\
    Forall (fun batch =>
              1 <= length batch <= DEFAULT_DATABASE_LOAD_BATCH_SIZE) batches /\
    (forall batchIndex batch,
       batches !! batchIndex = Some batch ->
       S batchIndex < length batches ->
       length batch = DEFAULT_DATABASE_LOAD_BATCH_SIZE).
Proof.
  split; [reflexivity |]. split; [reflexivity |].
  set (others := List.filter (fun payload => negb (isItemsKey payload))
                             payloads).
  set (count := ceilDiv (length others) DEFAULT_DATABASE_LOAD_BATCH_SIZE).
  destruct (ceilDiv_batches (length others)) as [Hcover Hwithin].
  fold count in Hcover, Hwithin.
  assert (Hat : forall batchIndex batch,
            (batchAt others <$> seq 0 count) !! batchIndex = Some batch ->
            batchIndex < count /\ batch = batchAt others batchIndex).
  { intros batchIndex batch Hlookup.
    rewrite list_lookup_fmap in Hlookup.
    destruct (seq 0 count !! batchIndex) as [k |] eqn:Hk; [| discriminate].
    apply lookup_seq in Hk as [-> Hlt]. injection Hlookup as <-.
    split; [exact Hlt | reflexivity]. }
  exists (batchAt others <$> seq 0 count). split; [| split; [| split]].
  - unfold loadDatabasePayloads. cbn zeta.
    fold isItemsKey.
    change (fun payload : t =>
              bool_decide (content_type payload = Some "SN|ItemsKey"))
      with isItemsKey.
    pose proof (subtractFromArray_filter isItemsKey payloads []
                  ltac:(constructor)) as Hsubtract.
    cbn [app] in Hsubtract. rewrite Hsubtract.
    cbn [runBatches]. fold others. fold count.
    destruct (decryptAndMap (List.filter isItemsKey payloads) w) as [w' | e];
      cbn [mbind Result_bind]; [| reflexivity].
    rewrite loadBatches_runBatches. reflexivity.
  - rewrite concat_batches. apply take_ge. exact Hcover.
  - apply Forall_lookup. intros batchIndex batch Hlookup.
    destruct (Hat batchIndex batch Hlookup) as [Hlt ->].
    specialize (Hwithin batchIndex Hlt).
    unfold batchAt. rewrite length_take, length_drop. lia.
  - intros batchIndex batch Hlookup Hnext.
    destruct (Hat batchIndex batch Hlookup) as [Hlt ->].
    rewrite length_fmap, length_seq in Hnext.
    specialize (Hwithin (S batchIndex) Hnext).
    unfold batchAt. rewrite length_take, length_drop. lia.
Qed.

End Load.
End DatabaseLoadFacts.
